(** * NodeDB: the router-contact store of lokinet (llarp/nodedb.cpp)

    A shallow embedding of [llarp::NodeDB] and the properties of its
    shard-path mapper, disk loader, mutation operations, flush scheduler and
    XOR-metric queries.

    Conventions of the embedding.
    - A [RouterID] / [dht::Key_t] is the byte array of the C++
      [AlignedBuffer<32>], kept as a [list byte].
    - [NodeDB::entries] is a [std::unordered_map<RouterID, Entry>].  Its
      iteration order is not fixed by the language, and two functions of
      the file read it ([Tick], [find_closest_to]); the table is therefore an
      association list in iteration order, and every theorem holds for every
      order.
    - The members of [NodeDB], the file system, the queue of jobs handed to
      the [disk] callable and the wall clock form one [World]; every
      operation is a state transformer over it.  A task handed to
      [router.loop()->call] / [call_get] is run to completion as one step
      (the serialized owner loop).
    - [llarp_time_t] is [std::chrono::milliseconds]; durations are integers
      of milliseconds in [Z].  Signed overflow is undefined in C++ and is not
      given a meaning here. *)

From Stdlib Require Import ZArith NArith List String Ascii Strings.Byte Lia.
From Stdlib Require Import Permutation Sorted.
From stdpp Require Import base decidable countable list gmap sets strings.

Local Open Scope string_scope.
Local Open Scope Z_scope.
Local Open Scope list_scope.

(** ** Bytes, identifiers and hexadecimal text *)

#[global] Instance byte_eq_dec : EqDecision byte := Byte.byte_eq_dec.

#[global] Instance byte_countable : Countable byte :=
  inj_countable Byte.to_N Byte.of_N Byte.of_to_N.

(** [RouterID], [PubKey] and [dht::Key_t] are all [AlignedBuffer<32>]. *)
Definition RouterID : Type := list byte.
Definition Key_t : Type := list byte.

Definition PUBKEYSIZE : nat := 32.

(** [AlignedBuffer::IsZero]: every byte is zero. *)
Definition IsZero (k : RouterID) : bool :=
  forallb (fun b => N.eqb (Byte.to_N b) 0) k.

(** The digits of [oxenc::to_hex]: lower case. *)
Definition hex_lut : list ascii := list_ascii_of_string "0123456789abcdef".

Definition hex_digit (n : N) : ascii := nth (N.to_nat n) hex_lut "0"%char.

(** [oxenc::to_hex(begin, end)]: two digits per byte, high nibble first. *)
Fixpoint to_hex (bs : list byte) : string :=
  match bs with
  | [] => EmptyString
  | b :: rest =>
      String (hex_digit (N.div (Byte.to_N b) 16))
        (String (hex_digit (N.modulo (Byte.to_N b) 16)) (to_hex rest))
  end.

Definition is_lower_hex (c : ascii) : bool :=
  existsb (fun d => if ascii_dec c d then true else false) hex_lut.

(** [s[0]] of a [std::string]: the terminating NUL when [s] is empty. *)
Definition string_front (s : string) : ascii :=
  match s with
  | EmptyString => zero
  | String c _ => c
  end.

(** ** Paths

    An [fs::path] is its list of components; [operator/] with a relative
    one-component right-hand side appends it.  [empty()] is the empty list. *)
Definition path : Type := list string.

Definition path_div (p : path) (component : string) : path := p ++ [component].

Definition path_empty (p : path) : bool :=
  match p with [] => true | _ => false end.

Definition RC_FILE_EXT : string := ".signed".

(** [static const char skiplist_subdirs[] = "0123456789abcdef"]: seventeen
    characters, the last one the terminating NUL that the loops skip. *)
Definition skiplist_subdirs : list ascii :=
  list_ascii_of_string "0123456789abcdef" ++ [zero].

(** ** Router contacts *)

(** Modelled from the spec: [RouterContact] (router_contact.hpp is not part
    of the sources).  Section 3 gives it an identity public key, reachable
    addresses, a protocol version, an expiry time, a network tag and a
    signature; the freshness rule compares a timestamp.  NodeDB itself only
    reads [pubkey]. *)
Record RouterContact : Type := mkRC {
  pubkey : RouterID;
  addrs : list string;
  version : Z;
  last_updated : Z;
  expires_at : Z;
  netID : string;
  signature : list byte
}.

#[global] Instance RouterContact_eq_dec : EqDecision RouterContact.
Proof. solve_decision. Defined.

(** [RouterContact rc{}]: the default-constructed contact, whose key is the
    zero-filled buffer. *)
Definition RouterContact_default : RouterContact :=
  mkRC (repeat x00 PUBKEYSIZE) [] 0 0 0 EmptyString [].

(** The methods of [RouterContact] that NodeDB calls.  Their bodies are not
    in nodedb.cpp; the development is generic in them. *)
Class RouterContactOps : Type := {
  (** the decoding half of [rc.Read(file)] *)
  BDecode : list byte -> option RouterContact;
  FromOurNetwork : RouterContact -> bool;
  IsExpired : RouterContact -> Z -> bool;
  VerifySignature : RouterContact -> bool;
  (** [a.OtherIsNewer(b)] *)
  OtherIsNewer : RouterContact -> RouterContact -> bool
}.

(** Modelled from the spec: [RouterID::ToString] (router_id.hpp is not part
    of the sources).  The spec names a contact file by the 64-character
    hexadecimal text of the identity key. *)
Definition RouterID_ToString (r : RouterID) : string := to_hex r.

(** [NodeDB::Entry]: a contact and the time it was put in the table. *)
Record Entry : Type := mkEntry {
  rc : RouterContact;
  insertedAt : Z
}.

(** ** The file system and the disk jobs *)

Inductive FileNode : Type :=
| RegularFile (content : list byte)
| DirectoryNode
| OtherNode.

Abbreviation Filesystem := (list (path * FileNode)).

(** The closures handed to [disk], as data: the bulk write of [Tick]
    (captures the copied contacts) and the removal of
    [remove_many_from_disk_async] (captures the [std::set] of paths). *)
Inductive DiskJob : Type :=
| WriteContacts (data : list RouterContact)
| RemoveFiles (files : gset path).

Record World : Type := mkWorld {
  m_Root : path;
  entries : list (RouterID * Entry);
  m_NextFlushAt : Z;
  (** jobs handed to [disk], oldest first *)
  disk_jobs : list DiskJob;
  files_on_disk : Filesystem;
  (** what [llarp::time_now_ms()] returns during the running task *)
  clock_ms : Z
}.

(** ** NodeDB::get_path_by_pubkey *)

Definition get_path_by_pubkey (w : World) (pk : RouterID) : path :=
  let hexString := to_hex pk in
  let fname := RouterID_ToString pk in
  let skiplistDir := String (string_front hexString) EmptyString in
  let fname := fname +:+ RC_FILE_EXT in
  path_div (path_div (m_Root w) skiplistDir) fname.

(** ** The state monad of the owner loop *)

Definition M (A : Type) : Type := World -> A * World.

#[global] Instance M_ret : MRet M := fun A a w => (a, w).

#[global] Instance M_bind : MBind M :=
  fun A B f m w => f (fst (m w)) (snd (m w)).

Definition gets {A : Type} (f : World -> A) : M A := fun w => (f w, w).

Definition modify (f : World -> World) : M unit := fun w => (tt, f w).

(** The value returned by a task and the world it leaves. *)
Definition eval {A : Type} (m : M A) (w : World) : A := fst (m w).
Definition exec {A : Type} (m : M A) (w : World) : World := snd (m w).

(** A [for] loop whose body updates the locals [s] it captured by
    reference. *)
Fixpoint foldM {A S : Type} (body : A -> S -> M S) (l : list A) (s : S) : M S :=
  match l with
  | [] => mret s
  | a :: rest => s' ← body a s; foldM body rest s'
  end.

Definition set_entries (es : list (RouterID * Entry)) (w : World) : World :=
  mkWorld (m_Root w) es (m_NextFlushAt w) (disk_jobs w) (files_on_disk w)
    (clock_ms w).

Definition set_NextFlushAt (t : Z) (w : World) : World :=
  mkWorld (m_Root w) (entries w) t (disk_jobs w) (files_on_disk w) (clock_ms w).

Definition set_disk_jobs (js : list DiskJob) (w : World) : World :=
  mkWorld (m_Root w) (entries w) (m_NextFlushAt w) js (files_on_disk w)
    (clock_ms w).

Definition set_files (fsys : Filesystem) (w : World) : World :=
  mkWorld (m_Root w) (entries w) (m_NextFlushAt w) (disk_jobs w) fsys
    (clock_ms w).

(** The environment lets time pass between two tasks. *)
Definition set_clock (t : Z) (w : World) : World :=
  mkWorld (m_Root w) (entries w) (m_NextFlushAt w) (disk_jobs w)
    (files_on_disk w) t.

(** ** std::unordered_map<RouterID, Entry> *)

(** [find(k)] *)
Fixpoint table_find (k : RouterID) (es : list (RouterID * Entry)) : option Entry :=
  match es with
  | [] => None
  | item :: rest => if decide (item.1 = k) then Some item.2 else table_find k rest
  end.

(** [erase(k)], and [erase(itr)] for the iterator [find(k)] returned *)
Definition table_erase (k : RouterID) (es : list (RouterID * Entry))
  : list (RouterID * Entry) :=
  filter (fun item => item.1 ≠ k) es.

(** [emplace(k, e)]: nothing happens when the key is taken.  Where the new
    element lands in the iteration order is not specified; it is put last. *)
Definition table_emplace (k : RouterID) (e : Entry) (es : list (RouterID * Entry))
  : list (RouterID * Entry) :=
  match table_find k es with
  | Some _ => es
  | None => es ++ [(k, e)]
  end.

(** Keys of an unordered_map are unique, and NodeDB files every contact
    under its own public key. *)
Definition table_wf (es : list (RouterID * Entry)) : Prop :=
  NoDup (map fst es) ∧ Forall (fun item => item.1 = pubkey (rc item.2)) es.

Definition time_now_ms : M Z := gets clock_ms.

(** [Entry::Entry(RouterContact value)] reads the clock. *)
Definition Entry_ctor (value : RouterContact) : M Entry :=
  now ← time_now_ms; mret (mkEntry value now).

Definition entries_find (k : RouterID) : M (option Entry) :=
  gets (fun w => table_find k (entries w)).

Definition entries_erase (k : RouterID) : M unit :=
  modify (fun w => set_entries (table_erase k (entries w)) w).

(** [entries.emplace(k, value)]: the [Entry] is built from [value]. *)
Definition entries_emplace (k : RouterID) (value : RouterContact) : M unit :=
  e ← Entry_ctor value;
  modify (fun w => set_entries (table_emplace k e (entries w)) w).

(** [disk(job)]: the job is queued for the disk thread. *)
Definition disk (job : DiskJob) : M unit :=
  modify (fun w => set_disk_jobs (disk_jobs w ++ [job]) w).

(** ** NodeDB::Tick *)

Definition FlushInterval : Z := 5 * 60 * 1000.

Definition Tick (now : Z) : M unit :=
  next ← gets m_NextFlushAt;
  if decide (next = 0) then mret tt
  else if decide (now > next) then
    modify (set_NextFlushAt (next + FlushInterval));;
    es ← gets entries;
    let copy := fold_left (fun copy item => copy ++ [rc item.2]) es [] in
    disk (WriteContacts copy)
  else mret tt.

(** ** NodeDB::remove_many_from_disk_async *)

Definition remove_many_from_disk_async (remove : gset RouterID) : M unit :=
  root ← gets m_Root;
  if path_empty root then mret tt
  else
    files ← gets (fun w =>
      set_map (C:=gset RouterID) (D:=gset path) (get_path_by_pubkey w) remove);
    disk (RemoveFiles files).

(** ** NodeDB::has_router, get_rc, num_loaded *)

Definition has_router (pk : RouterID) : M bool :=
  itr ← entries_find pk;
  mret (match itr with Some _ => true | None => false end).

Definition get_rc (pk : RouterID) : M (option RouterContact) :=
  itr ← entries_find pk;
  match itr with
  | None => mret None
  | Some e => mret (Some (rc e))
  end.

Definition num_loaded : M nat := gets (fun w => length (entries w)).

(** ** NodeDB::remove_router *)

Definition remove_router (pk : RouterID) : M unit :=
  entries_erase pk;;
  remove_many_from_disk_async {[pk]}.

(** ** NodeDB::remove_stale_rcs *)

(** The [while (itr != entries.end())] loop: the entries that stay, and the
    set [removed]. *)
Fixpoint stale_scan (keep : gset RouterID) (cutoff : Z)
    (es : list (RouterID * Entry)) (removed : gset RouterID)
  : list (RouterID * Entry) * gset RouterID :=
  match es with
  | [] => ([], removed)
  | item :: rest =>
      if bool_decide (insertedAt item.2 < cutoff)
         && bool_decide (pubkey (rc item.2) ∉ keep)
      then stale_scan keep cutoff rest ({[pubkey (rc item.2)]} ∪ removed)
      else
        let r := stale_scan keep cutoff rest removed in
        (item :: r.1, r.2)
  end.

Definition remove_stale_rcs (keep : gset RouterID) (cutoff : Z) : M unit :=
  es ← gets entries;
  let r := stale_scan keep cutoff es ∅ in
  modify (set_entries r.1);;
  if decide (r.2 = ∅) then mret tt
  else remove_many_from_disk_async r.2.

(** ** NodeDB::put_rc and put_rc_if_newer *)

Definition put_rc (value : RouterContact) : M unit :=
  entries_erase (pubkey value);;
  entries_emplace (pubkey value) value.

Definition put_rc_if_newer `{RouterContactOps} (value : RouterContact) : M unit :=
  itr ← entries_find (pubkey value);
  if match itr with
     | None => true
     | Some e => OtherIsNewer (rc e) value
     end
  then
    match itr with
    | Some _ => entries_erase (pubkey value)
    | None => mret tt
    end;;
    entries_emplace (pubkey value) value
  else mret tt.

(** ** File-system calls

    Paths are relative to a base directory that exists: the empty list is
    the empty path, which names no file and is the parent of every
    one-component path. *)

Fixpoint fs_lookup (f : path) (fsys : Filesystem) : option FileNode :=
  match fsys with
  | [] => None
  | node :: rest => if decide (node.1 = f) then Some node.2 else fs_lookup f rest
  end.

(** [fs::is_regular_file(f)] *)
Definition fs_is_regular_file (f : path) : M bool :=
  gets (fun w =>
    match fs_lookup f (files_on_disk w) with
    | Some (RegularFile _) => true
    | _ => false
    end).

(** *** Calls that can throw

    A call of [std::filesystem] that can throw is a state transformer over
    the files with an outcome. *)

Inductive Exception : Type :=
| filesystem_error (operation : string) (p : path)
| runtime_error (what : string).

Inductive Outcome (A : Type) : Type :=
| Returned (a : A)
| Thrown (e : Exception).

Arguments Returned {A} a.
Arguments Thrown {A} e.

Definition FS (A : Type) : Type := Filesystem -> Outcome A * Filesystem.

#[global] Instance FS_ret : MRet FS := fun A a fsys => (Returned a, fsys).

(** A thrown exception leaves the function; what was done to the files
    stays done. *)
#[global] Instance FS_bind : MBind FS :=
  fun A B f m fsys =>
    match (m fsys).1 with
    | Returned a => f a (m fsys).2
    | Thrown e => (Thrown e, (m fsys).2)
    end.

Definition fs_throw {A : Type} (e : Exception) : FS A :=
  fun fsys => (Thrown e, fsys).

(** A loop [for (x : l) body(x);] over such calls: the first exception
    leaves the loop. *)
Fixpoint for_each_FS {A : Type} (l : list A) (body : A -> FS unit) : FS unit :=
  match l with
  | [] => mret tt
  | a :: rest => body a;; for_each_FS rest body
  end.

(** A file-system computation run on the files of the world. *)
Definition on_files {A : Type} (m : FS A) : M (Outcome A) :=
  fun w => let r := m (files_on_disk w) in (r.1, set_files r.2 w).

(** The text from the last dot of [s] on, when [s] has a dot. *)
Fixpoint last_dot_suffix (s : string) : option string :=
  match s with
  | EmptyString => None
  | String c rest =>
      match last_dot_suffix rest with
      | Some t => Some t
      | None => if Ascii.eqb c "."%char then Some s else None
      end
  end.

(** [std::filesystem::path::extension] of a file name: from its last dot
    on; empty for "." and "..", and a dot that opens the name does not start
    an extension. *)
Definition extension (fname : string) : string :=
  if decide (fname = "." ∨ fname = "..") then EmptyString
  else
    match fname with
    | EmptyString => EmptyString
    | String _ rest =>
        match last_dot_suffix rest with
        | Some t => t
        | None => EmptyString
        end
    end.

Definition path_extension (f : path) : string :=
  extension (List.last f EmptyString).

(** [f] names an entry of the directory [sub]. *)
Definition in_directory (sub f : path) : Prop :=
  f ≠ [] ∧ removelast f = sub.

#[global] Instance in_directory_dec sub f : Decision (in_directory sub f).
Proof. unfold in_directory. apply _. Defined.

Definition dir_entries (sub : path) (fsys : Filesystem) : list path :=
  map fst (filter (fun node => in_directory sub node.1) fsys).

(** [fs::remove(f)], the throwing overload: [false] and no change when [f]
    names nothing; a file, or a directory that has no entries, is removed;
    for a directory that has entries it throws and removes nothing. *)
Definition fs_remove (f : path) : FS bool :=
  fun fsys =>
    match fs_lookup f fsys with
    | None => (Returned false, fsys)
    | Some DirectoryNode =>
        if decide (dir_entries f fsys = [])
        then (Returned true, filter (fun node => node.1 ≠ f) fsys)
        else (Thrown (filesystem_error "remove" f), fsys)
    | Some _ => (Returned true, filter (fun node => node.1 ≠ f) fsys)
    end.

(** The loop [for (fpath : files) fs::remove(fpath);]. *)
Definition remove_files (files : list path) : FS unit :=
  for_each_FS files (fun fpath => fs_remove fpath;; mret tt).

(** Modelled from the spec: [util::IterDir] (util/fs.hpp is not part of the
    sources).  The loader visits every entry of a shard directory; the
    visitor of nodedb.cpp always answers [true] (go on), and works on the
    locals [s] it captured. *)
Definition IterDir {S : Type} (sub : path) (visit : path -> S -> M S) (s : S)
  : M S :=
  ents ← gets (fun w => dir_entries sub (files_on_disk w));
  foldM visit ents s.

(** [rc.Read(f)]: the bytes of the file, decoded. *)
Definition RouterContact_Read `{RouterContactOps} (f : path)
  : M (option RouterContact) :=
  gets (fun w =>
    match fs_lookup f (files_on_disk w) with
    | Some (RegularFile content) => BDecode content
    | _ => None
    end).

(** ** NodeDB::load_from_disk *)

(** The lambda given to [IterDir]; [purge] is the captured [std::set]. *)
Definition load_visit `{RouterContactOps} (f : path) (purge : gset path)
  : M (gset path) :=
  regular ← fs_is_regular_file f;
  if negb (regular && bool_decide (path_extension f = RC_FILE_EXT))
  then mret purge
  else
    read ← RouterContact_Read f;
    match read with
    | None => mret ({[f]} ∪ purge)
    | Some value =>
        if negb (FromOurNetwork value) then mret purge
        else
          now ← time_now_ms;
          if IsExpired value now then mret ({[f]} ∪ purge)
          else if VerifySignature value
          then entries_emplace (pubkey value) value;; mret purge
          else mret ({[f]} ∪ purge)
    end.

(** The loop over [skiplist_subdirs]. *)
Definition load_scan `{RouterContactOps} (root : path) : M (gset path) :=
  foldM (fun ch purge =>
           if Ascii.eqb ch zero then mret purge
           else
             let p := String ch EmptyString in
             let sub := path_div root p in
             IterDir sub load_visit purge)
        skiplist_subdirs ∅.

(** An exception of [fs::remove] leaves [load_from_disk]. *)
Definition load_from_disk `{RouterContactOps} : M (Outcome unit) :=
  root ← gets m_Root;
  if path_empty root then mret (Returned tt)
  else
    purge ← load_scan root;
    if decide (purge = ∅) then mret (Returned tt)
    else on_files (remove_files (elements purge)).

(** ** dht::XorMetric *)

(** [AlignedBuffer::operator^], byte by byte. *)
Definition xor_bytes (a b : list byte) : list N :=
  zip_with (fun x y => N.lxor (Byte.to_N x) (Byte.to_N y)) a b.

(** The bytes read as one unsigned integer, first byte most significant. *)
Definition be_value (l : list N) : N :=
  fold_left (fun acc x => (acc * 256 + x)%N) l 0%N.

Definition xor_distance (a b : Key_t) : N := be_value (xor_bytes a b).

(** Modelled from the spec: [dht::XorMetric] (dht/kademlia.hpp is not part
    of the sources).  The distance of two identifiers is their bitwise XOR
    read as an unsigned integer, and smaller is closer: [XorMetric us] is
    the strict order "[left] is closer to [us] than [right]". *)
Definition XorMetric (us left right : Key_t) : bool :=
  N.ltb (xor_distance us left) (xor_distance us right).

(** The overload on contacts compares their public keys. *)
Definition XorMetric_rc (us : Key_t) (left right : RouterContact) : bool :=
  XorMetric us (pubkey left) (pubkey right).

(** ** NodeDB::find_closest_to *)

(** Modelled from the spec: [NodeDB::VisitAll] (nodedb.hpp is not part of
    the sources): a linear scan that hands the contact of every entry to the
    visitor, which works on the locals [s] it captured. *)
Definition VisitAll {S : Type} (visit : RouterContact -> S -> S) (s : S) : M S :=
  es ← gets entries;
  mret (fold_left (fun acc item => visit (rc item.2) acc) es s).

(** The visitor of [find_closest_to]; [best] is the captured local [rc]. *)
Definition closest_visit (compare : Key_t -> Key_t -> bool)
    (otherRC best : RouterContact) : RouterContact :=
  if IsZero (pubkey best) then otherRC
  else if compare (pubkey otherRC) (pubkey best) then otherRC
  else best.

Definition find_closest_to (location : Key_t) : M RouterContact :=
  let compare := XorMetric location in
  VisitAll (closest_visit compare) RouterContact_default.

(** ** NodeDB::find_many_closest_to *)

(** The least element of [x :: l] for the strict order [lt] (the first one
    among equals), and the others. *)
Fixpoint extract_min {A : Type} (lt : A -> A -> bool) (x : A) (l : list A)
  : A * list A :=
  match l with
  | [] => (x, [])
  | y :: rest =>
      if lt y x
      then let r := extract_min lt y rest in (r.1, x :: r.2)
      else let r := extract_min lt x rest in (r.1, y :: r.2)
  end.

(** [std::partial_sort(first, first + mid, last, lt)]: afterwards the first
    [mid] places hold the [mid] least elements in ascending order; the
    standard leaves the order of the others, and of equal elements, open. *)
Fixpoint partial_sort {A : Type} (lt : A -> A -> bool) (mid : nat) (l : list A)
  : list A :=
  match mid, l with
  | S n, x :: rest =>
      let r := extract_min lt x rest in
      r.1 :: partial_sort lt n r.2
  | _, _ => l
  end.

Definition find_many_closest_to (location : Key_t) (numRouters : nat)
  : M (list RouterContact) :=
  es ← gets entries;
  let all := fold_left (fun all entry => all ++ [rc entry.2]) es [] in
  let mid := if (numRouters <? length all)%nat then numRouters else length all in
  let sorted := partial_sort (XorMetric_rc location) mid all in
  mret (take mid sorted).

(** ** Auxiliary notions for the statements *)

(** The scan of [find_closest_to] over the entries [es], started with
    [best] in the local [rc]. *)
Definition closest_scan (location : Key_t) (es : list (RouterID * Entry))
    (best : RouterContact) : RouterContact :=
  fold_left
    (fun best item => closest_visit (XorMetric location) (rc item.2) best)
    es best.

(** ** The entries [remove_stale_rcs] looks for *)

Definition stale (keep : gset RouterID) (cutoff : Z) (item : RouterID * Entry)
  : Prop :=
  insertedAt item.2 < cutoff ∧ pubkey (rc item.2) ∉ keep.

#[global] Instance stale_dec keep cutoff item : Decision (stale keep cutoff item).
Proof. unfold stale. apply _. Defined.

(** The identities of the stale entries of a table. *)
Definition stale_ids (keep : gset RouterID) (cutoff : Z)
    (es : list (RouterID * Entry)) : gset RouterID :=
  list_to_set (map (fun item => pubkey (rc item.2)) (filter (stale keep cutoff) es)).

(** ** The loader, file by file

    What the visitor of [load_from_disk] does with one path, as a function of
    the files and the clock; the scan is shown below to be the fold of these
    decisions. *)

Inductive Verdict : Type :=
| NotCandidate
| Purge
| Skip
| Admit (c : RouterContact).

Definition file_verdict `{RouterContactOps} (fsys : Filesystem) (now : Z)
    (f : path) : Verdict :=
  match fs_lookup f fsys with
  | Some (RegularFile content) =>
      if bool_decide (path_extension f = RC_FILE_EXT) then
        match BDecode content with
        | None => Purge
        | Some c =>
            if negb (FromOurNetwork c) then Skip
            else if IsExpired c now then Purge
            else if VerifySignature c then Admit c
            else Purge
        end
      else NotCandidate
  | _ => NotCandidate
  end.

Definition visit_pure `{RouterContactOps} (fsys : Filesystem) (now : Z)
    (f : path) (st : gset path * list (RouterID * Entry))
  : gset path * list (RouterID * Entry) :=
  match file_verdict fsys now f with
  | NotCandidate | Skip => st
  | Purge => ({[f]} ∪ st.1, st.2)
  | Admit c => (st.1, table_emplace (pubkey c) (mkEntry c now) st.2)
  end.

(** The paths the scan visits, in order: the entries of the sixteen shard
    directories. *)
Definition scanned_paths (root : path) (fsys : Filesystem) : list path :=
  flat_map (fun ch =>
              if Ascii.eqb ch zero then []
              else dir_entries (path_div root (String ch EmptyString)) fsys)
           skiplist_subdirs.

(** A candidate contact file: a regular file named [*.signed] in one of the
    sixteen shard directories. *)
Definition candidate_file (w : World) (f : path) (content : list byte) : Prop :=
  ∃ ch name,
    ch ∈ hex_lut
    ∧ f = m_Root w ++ [String ch EmptyString; name]
    ∧ extension name = RC_FILE_EXT
    ∧ fs_lookup f (files_on_disk w) = Some (RegularFile content).

(** A contact that passes the checks of the loader at the time of [w]. *)
Definition loadable `{RouterContactOps} (w : World) (c : RouterContact) : Prop :=
  FromOurNetwork c = true
  ∧ IsExpired c (clock_ms w) = false
  ∧ VerifySignature c = true.

Definition loadable_file `{RouterContactOps} (w : World) (f : path)
    (c : RouterContact) : Prop :=
  ∃ content,
    candidate_file w f content ∧ BDecode content = Some c ∧ loadable w c.

(** The contact [c] did not enter the table between [w] and [w']: an entry
    of [w'] that holds it was an entry of [w]. *)
Definition not_admitted (w w' : World) (c : RouterContact) : Prop :=
  ∀ k e, table_find k (entries w') = Some e → rc e = c →
         table_find k (entries w) = Some e.

(** The purge set and the table after the scan of the paths [fs], started
    from [st]. *)
Definition scan_state `{RouterContactOps} (w : World) (fs : list path)
    (st : gset path * list (RouterID * Entry))
  : gset path * list (RouterID * Entry) :=
  fold_left (fun st f => visit_pure (files_on_disk w) (clock_ms w) f st) fs st.

(** ** An instance of the contact methods

    Used to run the operations on concrete contacts and files. *)

Definition OUR_NETID : string := "lokinet".

(** Modelled from the spec: [RouterContact::OtherIsNewer] (router_contact.hpp
    is not part of the sources).  Of two contacts for one identity the one
    with the later timestamp wins: [b] is newer than [a]. *)
Definition timestamp_OtherIsNewer (a b : RouterContact) : bool :=
  last_updated a <? last_updated b.

(** Modelled from the spec: [RouterContact::IsExpired] (router_contact.hpp is
    not part of the sources): the expiry time has been reached. *)
Definition timestamp_IsExpired (c : RouterContact) (now : Z) : bool :=
  expires_at c <=? now.

(** Modelled from the spec: [RouterContact::FromOurNetwork]
    (router_contact.hpp is not part of the sources): the network tag is the
    local one. *)
Definition tag_FromOurNetwork (c : RouterContact) : bool :=
  bool_decide (netID c = OUR_NETID).

(** A stand-in for the wire format, which the spec leaves opaque: six bytes
    (key byte, timestamp, expiry, network, address, signature). *)
Definition sample_BDecode (content : list byte) : option RouterContact :=
  match content with
  | [k; t; e; n; a; s] =>
      Some (mkRC (repeat k PUBKEYSIZE)
              [String (ascii_of_N (Byte.to_N a)) EmptyString]
              0 (Z.of_N (Byte.to_N t)) (Z.of_N (Byte.to_N e))
              (if decide (n = x00) then OUR_NETID else "testnet") [s])
  | _ => None
  end.

(** A stand-in for the signature check, which the spec leaves opaque. *)
Definition sample_VerifySignature (c : RouterContact) : bool :=
  bool_decide (signature c = [x01]).

Definition sample_ops : RouterContactOps :=
  {| BDecode := sample_BDecode;
     FromOurNetwork := tag_FromOurNetwork;
     IsExpired := timestamp_IsExpired;
     VerifySignature := sample_VerifySignature;
     OtherIsNewer := timestamp_OtherIsNewer |}.

(** ** Concrete data for the examples *)

(** The identifier whose 32 bytes all equal [b]. *)
Definition key_of (b : byte) : RouterID := repeat b PUBKEYSIZE.

Definition nodedb_root : path := ["var"; "lib"; "lokinet"; "nodedb"].

(** A NodeDB on [root] with an empty table, nothing queued, the files
    [fsys] on disk and the clock at [now]. *)
Definition fresh_world (root : path) (fsys : Filesystem) (now : Z) : World :=
  mkWorld root [] (now + FlushInterval) [] fsys now.

(** A contact of our network for the key [key_of k], last updated at [t],
    reachable at [addr]. *)
Definition contact (k : byte) (t : Z) (addr : string) : RouterContact :=
  mkRC (key_of k) [addr] 0 t (t + 1000) OUR_NETID [x01].

Definition contact_A : RouterContact := contact xaa 5 "10.0.0.1:1090".

(** Same identity as [contact_A], updated later. *)
Definition contact_B : RouterContact := contact xaa 9 "10.0.0.2:1090".

(** Same identity and timestamp as [contact_A], another address. *)
Definition contact_A_tie : RouterContact := contact xaa 5 "10.0.0.3:1090".

Definition world0 : World := fresh_world nodedb_root [] 100.

(** Two entries inserted at times 100 and 300. *)
Definition world_two_entries : World :=
  mkWorld nodedb_root
    [(key_of x11, mkEntry (contact x11 5 "10.0.0.1:1090") 100);
     (key_of x22, mkEntry (contact x22 5 "10.0.0.2:1090") 300)]
    400000 [] [] 1000.

(** The identifier whose bytes are zero but for the last one. *)
Definition key_last (b : byte) : RouterID := repeat x00 31 ++ [b].

Definition contact_last (b : byte) : RouterContact :=
  mkRC (key_last b) [] 0 5 1005 OUR_NETID [x01].

(** The table of the spec's nearest-neighbour example: identifiers ending
    in the bit patterns 1111, 0001 and 0010. *)
Definition world_three_keys : World :=
  mkWorld nodedb_root
    [(key_last x0f, mkEntry (contact_last x0f) 100);
     (key_last x01, mkEntry (contact_last x01) 100);
     (key_last x02, mkEntry (contact_last x02) 100)]
    400000 [] [] 1000.

(** A table that holds a contact under the all-zero identifier, which the
    scan visits first. *)
Definition world_zero_key : World :=
  mkWorld nodedb_root
    [(key_of x00, mkEntry (contact x00 5 "10.0.0.1:1090") 100);
     (key_of x0f, mkEntry (contact x0f 5 "10.0.0.2:1090") 100)]
    400000 [] [] 1000.

(** ** Files for the loader examples *)

(** A well-formed file of our network for the key [key_of k], with
    timestamp [t], expiry [e] and address byte [a]. *)
Definition rc_file (k t e a : byte) : FileNode :=
  RegularFile [k; t; e; x00; a; x01].

(** The same for a foreign network. *)
Definition foreign_rc_file (k t e a : byte) : FileNode :=
  RegularFile [k; t; e; x01; a; x01].

Definition shard_file (shard name : string) : path :=
  nodedb_root ++ [shard; name].

(** Two files that carry the identity aa..aa with different addresses, and
    a contact of a foreign network that expired at time 5 (the clock is at
    100). *)
Definition world_with_files : World :=
  fresh_world nodedb_root
    [(nodedb_root, DirectoryNode);
     (shard_file "a" "first.signed", rc_file xaa x05 xff x01);
     (shard_file "b" "second.signed", rc_file xaa x05 xff x02);
     (shard_file "c" "foreign.signed", foreign_rc_file xcc x01 x05 x01);
     (shard_file "d" "junk.signed", RegularFile [x00]);
     (shard_file "e" "notes.txt", RegularFile [x00])]
    100.

(** The contacts that the files first.signed, second.signed and
    foreign.signed of [world_with_files] decode to. *)
Definition first_contact : RouterContact :=
  mkRC (key_of xaa) [String (ascii_of_N 1) EmptyString] 0 5 255 OUR_NETID [x01].

Definition second_contact : RouterContact :=
  mkRC (key_of xaa) [String (ascii_of_N 2) EmptyString] 0 5 255 OUR_NETID [x01].

Definition foreign_contact : RouterContact :=
  mkRC (key_of xcc) [String (ascii_of_N 1) EmptyString] 0 1 5 "testnet" [x01].

(** An archive that holds one contact file. *)
Definition world_one_file : World :=
  fresh_world nodedb_root
    [(shard_file "a" "first.signed", rc_file xaa x05 xff x01)] 100.

(** ** The archive initialiser: EnsureSkiplist and the constructor

    [EnsureSkiplist] works on the file system alone and can throw; it is a
    computation of [FS]. *)

(** [fs::exists(p)] *)
Definition fs_exists (p : path) : FS bool :=
  fun fsys =>
    (Returned (match fs_lookup p fsys with Some _ => true | None => false end),
     fsys).

(** [fs::is_directory(p)] *)
Definition fs_is_directory (p : path) : FS bool :=
  fun fsys =>
    (Returned (match fs_lookup p fsys with
               | Some DirectoryNode => true
               | _ => false
               end),
     fsys).

(** [p.parent_path()] *)
Definition parent_path (p : path) : path := removelast p.

(** The directory that would hold [p] is there: the base directory, or a
    directory of the file system. *)
Definition parent_is_directory (p : path) (fsys : Filesystem) : bool :=
  match parent_path p with
  | [] => true
  | parent =>
      match fs_lookup parent fsys with
      | Some DirectoryNode => true
      | _ => false
      end
  end.

(** [fs::create_directory(p)], the throwing overload: [false] and no change
    when [p] is a directory already; an error when [p] is the empty path,
    names something that is not a directory, or has no parent directory. *)
Definition fs_create_directory (p : path) : FS bool :=
  fun fsys =>
    match p with
    | [] => (Thrown (filesystem_error "create_directory" p), fsys)
    | _ =>
        match fs_lookup p fsys with
        | Some DirectoryNode => (Returned false, fsys)
        | Some _ => (Thrown (filesystem_error "create_directory" p), fsys)
        | None =>
            if parent_is_directory p fsys
            then (Returned true, fsys ++ [(p, DirectoryNode)])
            else (Thrown (filesystem_error "create_directory" p), fsys)
        end
    end.

(** [old] is [p] or an ancestor of [p]. *)
Definition path_under (old p : path) : bool :=
  bool_decide (take (length old) p = old).

(** The path [p] after [old] has become [new]. *)
Definition rename_path (old new p : path) : path :=
  if path_under old p then new ++ drop (length old) p else p.

(** [fs::rename(old, new)]: the node [old] and all below it move to [new].
    An error when [old] is not there, when [new] is the empty path, has no
    parent directory or lies below [old], when a directory would replace a
    file or a directory that is not empty, or a file a directory. *)
Definition fs_rename (old new : path) : FS unit :=
  fun fsys =>
    let failed := (Thrown (filesystem_error "rename" old), fsys) in
    match fs_lookup old fsys with
    | None => failed
    | Some moved =>
        if decide (old = new) then (Returned tt, fsys)
        else if path_empty new || negb (parent_is_directory new fsys)
                || path_under old new
        then failed
        else
          let others := filter (fun node => node.1 ≠ new) fsys in
          let renamed :=
            map (fun node => (rename_path old new node.1, node.2)) others in
          match fs_lookup new fsys, moved with
          | None, _ => (Returned tt, renamed)
          | Some DirectoryNode, DirectoryNode =>
              if decide (dir_entries new fsys = [])
              then (Returned tt, renamed) else failed
          | Some DirectoryNode, _ => failed
          | Some _, DirectoryNode => failed
          | Some _, _ => (Returned tt, renamed)
          end
    end.

(** The text of a path, for messages. *)
Fixpoint path_string (p : path) : string :=
  match p with
  | [] => EmptyString
  | [c] => c
  | c :: rest => c +:+ "/" +:+ path_string rest
  end.

(** The body of that loop for the character [ch]. *)
Definition create_shard (nodedbDir : path) (ch : ascii) : FS unit :=
  if Ascii.eqb ch zero then mret tt
  else
    let sub := path_div nodedbDir (String ch EmptyString) in
    fs_create_directory sub;; mret tt.

Definition EnsureSkiplist (nodedbDir : path) : FS unit :=
  present ← fs_exists nodedbDir;
  (if negb present then
     let parent := parent_path nodedbDir in
     let old := path_div parent "netdb" in
     old_present ← fs_exists old;
     if (old_present : bool) then fs_rename old nodedbDir
     else (fs_create_directory nodedbDir;; mret tt : FS unit)
   else (mret tt : FS unit));;
  is_dir ← fs_is_directory nodedbDir;
  (if negb is_dir
   then fs_throw (runtime_error
                    ("nodedb " +:+ path_string nodedbDir +:+ " is not a directory"))
   else (mret tt : FS unit));;
  for_each_FS skiplist_subdirs (create_shard nodedbDir).

(** [NodeDB::NodeDB(root, diskCaller, r)], run at the time [now] on the files
    [fsys]: the table is empty, the first flush is due one interval from
    now, and the body calls [EnsureSkiplist].  When that throws there is no
    NodeDB. *)
Definition NodeDB_ctor (root : path) (now : Z) : FS World :=
  let next_flush := now + FlushInterval in
  (EnsureSkiplist root : FS unit);;
  ((fun fsys => (Returned (mkWorld root [] next_flush [] fsys now), fsys))
   : FS World).

(** A file system in which every path names one node and every node lies in
    a directory. *)
Definition fs_wf (fsys : Filesystem) : Prop :=
  NoDup (map fst fsys)
  ∧ Forall (fun node => node.1 ≠ [] ∧ parent_is_directory node.1 fsys = true) fsys.

(** The archive is laid out: the root and its sixteen shard directories are
    directories. *)
Definition archive_ready (root : path) (fsys : Filesystem) : Prop :=
  fs_lookup root fsys = Some DirectoryNode
  ∧ ∀ ch, ch ∈ hex_lut →
          fs_lookup (path_div root (String ch EmptyString)) fsys
          = Some DirectoryNode.

(** ** Writing contacts: save_to_disk and the disk thread *)

(** The encoding half of [rc.Write(file)]; its body is not in nodedb.cpp. *)
Class RouterContactEncoder : Type := {
  BEncode : RouterContact -> list byte
}.

(** Opening [f] for writing and storing [content]: a regular file is
    overwritten, a new file needs its directory, and nothing happens when [f]
    is the empty path or names a directory or a special file. *)
Definition fs_write_file (f : path) (content : list byte) (fsys : Filesystem)
  : bool * Filesystem :=
  match fs_lookup f fsys with
  | Some (RegularFile _) =>
      (true,
       map (fun node => if decide (node.1 = f) then (f, RegularFile content)
                        else node) fsys)
  | Some _ => (false, fsys)
  | None =>
      if negb (path_empty f) && parent_is_directory f fsys
      then (true, fsys ++ [(f, RegularFile content)])
      else (false, fsys)
  end.

(** Modelled from the spec: [RouterContact::Write] (router_contact.hpp is not
    part of the sources): one file write of the encoded contact; the answer
    tells whether the file was written. *)
Definition RouterContact_Write `{RouterContactEncoder} (value : RouterContact)
    (f : path) : M bool :=
  fun w =>
    let r := fs_write_file f (BEncode value) (files_on_disk w) in
    (r.1, set_files r.2 w).

(** [NodeDB::save_to_disk]: the task handed to [router.loop()->call]. *)
Definition save_to_disk `{RouterContactEncoder} : M unit :=
  root ← gets m_Root;
  if path_empty root then mret tt
  else
    es ← gets entries;
    foldM (fun item _ =>
             path ← gets (fun w => get_path_by_pubkey w item.1);
             RouterContact_Write (rc item.2) path;; mret tt)
          es tt.

(** The disk thread runs a job it was handed: the lambda of [Tick] writes
    each copied contact to the path of its public key, the lambda of
    [remove_many_from_disk_async] removes each file, and an exception of
    [fs::remove] leaves it. *)
Definition run_disk_job `{RouterContactEncoder} (job : DiskJob)
  : M (Outcome unit) :=
  match job with
  | WriteContacts data =>
      foldM (fun value _ =>
               path ← gets (fun w => get_path_by_pubkey w (pubkey value));
               RouterContact_Write value path;; mret tt)
            data tt;;
      mret (Returned tt)
  | RemoveFiles files => on_files (remove_files (elements files))
  end.

(** A stand-in for the wire format that [sample_BDecode] reads back. *)
Definition sample_BEncode (c : RouterContact) : list byte :=
  [List.hd x00 (pubkey c);
   default x00 (Byte.of_N (Z.to_N (last_updated c)));
   default x00 (Byte.of_N (Z.to_N (expires_at c)));
   (if decide (netID c = OUR_NETID) then x00 else x01);
   match addrs c with
   | [String a EmptyString] => default x00 (Byte.of_N (N_of_ascii a))
   | _ => x00
   end;
   List.hd x00 (signature c)].

Definition sample_encoder : RouterContactEncoder :=
  {| BEncode := sample_BEncode |}.

(** The first block of [EnsureSkiplist], as a function of the files: nothing
    when [nodedbDir] is there, else the legacy directory is renamed or a
    new directory is made. *)
Definition adopt_or_create (nodedbDir : path) (fsys : Filesystem)
  : Outcome unit * Filesystem :=
  match fs_lookup nodedbDir fsys with
  | Some _ => (Returned tt, fsys)
  | None =>
      let old := path_div (parent_path nodedbDir) "netdb" in
      match fs_lookup old fsys with
      | Some _ => fs_rename old nodedbDir fsys
      | None =>
          match (fs_create_directory nodedbDir fsys).1 with
          | Returned _ => (Returned tt, (fs_create_directory nodedbDir fsys).2)
          | Thrown e => (Thrown e, (fs_create_directory nodedbDir fsys).2)
          end
      end
  end.

Definition not_a_directory (nodedbDir : path) : Exception :=
  runtime_error ("nodedb " +:+ path_string nodedbDir +:+ " is not a directory").

(** A legacy archive: the directory netdb with one shard and one contact
    file in it, next to a file that has nothing to do with it. *)
Definition legacy_files : Filesystem :=
  [(["netdb"], DirectoryNode);
   (["netdb"; "a"], DirectoryNode);
   (["netdb"; "a"; "first.signed"], rc_file xaa x05 xff x01);
   (["other"], RegularFile [])].

(** The files after writing each contact of [l] to the path of the key it
    is listed under, in order. *)
Definition write_all `{RouterContactEncoder} (w : World)
    (l : list (RouterID * RouterContact)) (fsys : Filesystem) : Filesystem :=
  fold_left
    (fun fsys kv =>
       (fs_write_file (get_path_by_pubkey w kv.1) (BEncode kv.2) fsys).2)
    l fsys.

(** The path [f] can take a contact file: it is free or holds a regular
    file. *)
Definition writable (f : path) (fsys : Filesystem) : Prop :=
  fs_lookup f fsys = None ∨ ∃ content, fs_lookup f fsys = Some (RegularFile content).

(** A constructed archive with two contacts in the table and nothing in the
    shard directories. *)
Definition world_ready : World :=
  mkWorld ["nodedb"]
    [(key_of xaa, mkEntry first_contact 100);
     (key_of x22, mkEntry (mkRC (key_of x22) [String (ascii_of_N 2) EmptyString]
                             0 7 255 OUR_NETID [x01]) 300)]
    400000 [] (EnsureSkiplist ["nodedb"] []).2 150.


(** * Properties *)

(** Unfolds the monad down to pairs and projections. *)
Ltac run_M :=
  cbv [exec eval mbind mret M_bind M_ret gets modify time_now_ms Entry_ctor
       entries_find entries_erase entries_emplace disk] in *;
  cbn [fst snd] in *.

(** ** The shard path *)

Lemma to_hex_length (bs : list byte) :
  String.length (to_hex bs) = (2 * length bs)%nat.
Proof.
  induction bs as [|b bs IH]; cbn [to_hex String.length length]; lia.
Qed.

Lemma hex_digit_lower (n : N) : (n < 16)%N → is_lower_hex (hex_digit n) = true.
Proof.
  intros Hn. unfold hex_digit.
  assert (Hlt : (N.to_nat n < 16)%nat) by lia.
  revert Hlt. generalize (N.to_nat n) as i. intros i Hi.
  do 16 (destruct i as [|i]; [reflexivity|]). lia.
Qed.

Lemma to_hex_lower (bs : list byte) :
  forallb is_lower_hex (list_ascii_of_string (to_hex bs)) = true.
Proof.
  induction bs as [|b bs IH]; [reflexivity|].
  cbn [to_hex list_ascii_of_string forallb].
  pose proof (Byte.to_N_bounded b) as Hb.
  rewrite !hex_digit_lower, IH; [reflexivity | |].
  - apply N.mod_lt. lia.
  - apply N.Div0.div_lt_upper_bound. lia.
Qed.

(** C1. For every 32-byte identifier the path of its contact file is
    [<root>/<c>/<hex>.signed], where [hex] is the 64-character lower-case
    hexadecimal text of the identifier and [c], the shard directory, is its
    first character (the high nibble of the first byte); the path is a
    function of the root and the identifier alone, whatever the table, the
    disk queue, the files and the clock hold. *)
Theorem get_path_by_pubkey_shard_path (w w' : World) (id : RouterID) :
  length id = PUBKEYSIZE →
  m_Root w' = m_Root w →
  get_path_by_pubkey w' id = get_path_by_pubkey w id
  ∧ String.length (to_hex id) = 64%nat
  ∧ forallb is_lower_hex (list_ascii_of_string (to_hex id)) = true
  ∧ ∃ (b : byte) (bs : list byte) (rest : string),
      id = b :: bs
      ∧ to_hex id = String (hex_digit (Byte.to_N b / 16)) rest
      ∧ get_path_by_pubkey w id
        = m_Root w ++ [String (hex_digit (Byte.to_N b / 16)) EmptyString;
                       to_hex id +:+ ".signed"].
Proof.
  intros Hlen Hroot. split; [|split; [|split]].
  - unfold get_path_by_pubkey. by rewrite Hroot.
  - rewrite to_hex_length, Hlen. reflexivity.
  - apply to_hex_lower.
  - destruct id as [|b bs]; [discriminate|].
    exists b, bs. eexists. split; [reflexivity|]. split; [reflexivity|].
    unfold get_path_by_pubkey, path_div, RouterID_ToString, RC_FILE_EXT.
    cbn [to_hex string_front]. by rewrite <- app_assoc.
Qed.

(** ** The table *)

Lemma table_find_erase_eq (k : RouterID) (es : list (RouterID * Entry)) :
  table_find k (table_erase k es) = None.
Proof.
  unfold table_erase. induction es as [|item es IH]; [reflexivity|].
  rewrite filter_cons. destruct (decide (item.1 ≠ k)) as [Hne|Heq]; [|exact IH].
  cbn [table_find]. by rewrite decide_False.
Qed.

Lemma table_find_erase_ne (k k' : RouterID) (es : list (RouterID * Entry)) :
  k' ≠ k → table_find k' (table_erase k es) = table_find k' es.
Proof.
  intros Hk. unfold table_erase. induction es as [|item es IH]; [reflexivity|].
  rewrite filter_cons. cbn [table_find].
  destruct (decide (item.1 ≠ k)) as [Hne|Heq].
  - cbn [table_find]. by rewrite IH.
  - apply dec_stable in Heq. rewrite decide_False by congruence. exact IH.
Qed.

Lemma table_find_snoc (k k' : RouterID) (e : Entry) (es : list (RouterID * Entry)) :
  table_find k' (es ++ [(k, e)])
  = match table_find k' es with
    | Some e' => Some e'
    | None => if decide (k = k') then Some e else None
    end.
Proof.
  induction es as [|item es IH]; [reflexivity|].
  cbn [app table_find]. by destruct (decide (item.1 = k')).
Qed.

Lemma table_find_emplace (k k' : RouterID) (e : Entry) (es : list (RouterID * Entry)) :
  table_find k' (table_emplace k e es)
  = match table_find k' es with
    | Some e' => Some e'
    | None => if decide (k = k') then Some e else None
    end.
Proof.
  unfold table_emplace. destruct (table_find k es) as [e0|] eqn:Hk.
  - destruct (table_find k' es) eqn:Hk'; [reflexivity|].
    destruct (decide (k = k')) as [->|]; [congruence | reflexivity].
  - apply table_find_snoc.
Qed.

Lemma table_erase_idemp (k : RouterID) (es : list (RouterID * Entry)) :
  table_erase k (table_erase k es) = table_erase k es.
Proof.
  unfold table_erase. rewrite list_filter_filter.
  apply list_filter_iff. tauto.
Qed.

Lemma table_erase_snoc_eq (k : RouterID) (e : Entry) (es : list (RouterID * Entry)) :
  table_erase k (es ++ [(k, e)]) = table_erase k es.
Proof.
  unfold table_erase. rewrite filter_app, filter_cons_False, filter_nil.
  - apply app_nil_r.
  - cbn. tauto.
Qed.

Lemma put_rc_exec (value : RouterContact) (w : World) :
  exec (put_rc value) w
  = set_entries (table_erase (pubkey value) (entries w)
                 ++ [(pubkey value, mkEntry value (clock_ms w))]) w.
Proof.
  unfold put_rc. run_M. unfold set_entries; cbn.
  unfold table_emplace. by rewrite table_find_erase_eq.
Qed.

(** C9. [put_rc] replaces unconditionally: afterwards the table maps the
    identity key of the contact to that contact with the clock's current
    time as insertion time, whatever was stored under the key before; the
    entries of all other identities, and their order, are as before, and
    nothing else of the world changes. *)
Theorem put_rc_replaces (w : World) (value : RouterContact) :
  let w' := exec (put_rc value) w in
  table_find (pubkey value) (entries w')
  = Some (mkEntry value (clock_ms w))
  ∧ (∀ k, k ≠ pubkey value →
          table_find k (entries w') = table_find k (entries w))
  ∧ table_erase (pubkey value) (entries w')
    = table_erase (pubkey value) (entries w)
  ∧ m_Root w' = m_Root w ∧ m_NextFlushAt w' = m_NextFlushAt w
  ∧ disk_jobs w' = disk_jobs w ∧ files_on_disk w' = files_on_disk w
  ∧ clock_ms w' = clock_ms w.
Proof.
  cbn zeta. rewrite put_rc_exec. cbn [entries set_entries m_Root m_NextFlushAt
    disk_jobs files_on_disk clock_ms].
  split; [|split; [|split]]; [| | |done].
  - rewrite table_find_snoc, table_find_erase_eq. by rewrite decide_True.
  - intros k Hk. rewrite table_find_snoc, table_find_erase_ne by done.
    destruct (table_find k (entries w)); [done|]. by rewrite decide_False.
  - by rewrite table_erase_snoc_eq, table_erase_idemp.
Qed.

Lemma get_rc_eval (pk : RouterID) (w : World) :
  eval (get_rc pk) w = rc <$> table_find pk (entries w).
Proof.
  unfold get_rc. run_M. by destruct (table_find pk (entries w)).
Qed.

(** ** Freshness *)

Lemma put_rc_if_newer_exec `{RouterContactOps} (value : RouterContact) (w : World) :
  exec (put_rc_if_newer value) w
  = if match table_find (pubkey value) (entries w) with
       | None => true
       | Some e => OtherIsNewer (rc e) value
       end
    then exec (put_rc value) w
    else w.
Proof.
  rewrite put_rc_exec. unfold put_rc_if_newer. run_M.
  destruct (table_find (pubkey value) (entries w)) as [e|] eqn:Hf.
  - destruct (OtherIsNewer (rc e) value); [|reflexivity]. cbn.
    unfold set_entries; cbn. unfold table_emplace.
    by rewrite table_find_erase_eq.
  - cbn. unfold set_entries; cbn. unfold table_emplace. rewrite Hf.
    f_equal. f_equal. unfold table_erase.
    clear -Hf. induction (entries w) as [|item es IH]; [reflexivity|].
    cbn [table_find] in Hf. destruct (decide (item.1 = pubkey value)); [done|].
    rewrite filter_cons_True by done. f_equal. by apply IH.
Qed.

(** C2 (amended). [put_rc_if_newer] has the effect of [put_rc] when the
    table has no entry for the identity or the stored contact answers
    [OtherIsNewer] for the incoming one; in every other case, a tie included,
    the world is left as it was.  Hence, for contacts [A] and [B] of one
    identity with [B] strictly newer than [A]: after [put_rc A] then
    [put_rc_if_newer B] the stored contact is [B], and after [put_rc B] then
    [put_rc_if_newer A] it is still [B]. *)
Theorem put_rc_if_newer_admits `{RouterContactOps} (w : World) :
  (∀ value,
     exec (put_rc_if_newer value) w
     = if match table_find (pubkey value) (entries w) with
          | None => true
          | Some e => OtherIsNewer (rc e) value
          end
       then exec (put_rc value) w
       else w)
  ∧ (∀ A B t,
       pubkey A = pubkey B →
       OtherIsNewer A B = true →
       OtherIsNewer B A = false →
       eval (get_rc (pubkey A))
         (exec (put_rc_if_newer B) (set_clock t (exec (put_rc A) w)))
       = Some B
       ∧ eval (get_rc (pubkey A))
           (exec (put_rc_if_newer A) (set_clock t (exec (put_rc B) w)))
         = Some B).
Proof.
  split; [intros; apply put_rc_if_newer_exec|].
  intros A B t Hid HAB HBA.
  rewrite !put_rc_if_newer_exec, !put_rc_exec, !get_rc_eval.
  cbn [entries set_entries set_clock clock_ms].
  rewrite <- Hid, !table_find_snoc, !table_find_erase_eq.
  rewrite !decide_True by done. cbn [rc]. rewrite HAB, HBA.
  cbn [entries set_entries set_clock].
  rewrite !table_find_snoc, !table_find_erase_eq.
  by rewrite !decide_True by done.
Qed.

Lemma put_rc_if_newer_admits_witness :
  eval (get_rc (pubkey contact_A))
    (exec (@put_rc_if_newer sample_ops contact_B)
       (set_clock 200 (exec (put_rc contact_A) world0)))
  = Some contact_B
  ∧ eval (get_rc (pubkey contact_A))
      (exec (@put_rc_if_newer sample_ops contact_A)
         (set_clock 200 (exec (put_rc contact_B) world0)))
    = Some contact_B.
Proof.
  apply (proj2 (@put_rc_if_newer_admits sample_ops world0) contact_A contact_B 200);
    reflexivity.
Defined.

(** C2, as first stated, fails on a tie.  [contact_A] is stored, and
    [contact_A_tie] of the same identity and timestamp comes in: the stored
    contact is not newer than the incoming one, yet the incoming one is not
    admitted. *)
Lemma put_rc_if_newer_tie_counterexample :
  let w1 := set_clock 200 (exec (put_rc contact_A) world0) in
  ¬ ((∃ e, table_find (pubkey contact_A_tie) (entries w1) = Some e
           ∧ @OtherIsNewer sample_ops contact_A_tie (rc e) = false) →
     eval (get_rc (pubkey contact_A_tie))
       (exec (@put_rc_if_newer sample_ops contact_A_tie) w1)
     = Some contact_A_tie).
Proof.
  cbn zeta. intros Hclaim.
  assert (Hstored : eval (get_rc (pubkey contact_A_tie))
            (exec (@put_rc_if_newer sample_ops contact_A_tie)
               (set_clock 200 (exec (put_rc contact_A) world0)))
          = Some contact_A) by reflexivity.
  rewrite Hclaim in Hstored.
  - discriminate Hstored.
  - exists (mkEntry contact_A 100). split; reflexivity.
Qed.

(** ** Removal *)

Lemma get_path_by_pubkey_root (w w' : World) (pk : RouterID) :
  m_Root w' = m_Root w → get_path_by_pubkey w' pk = get_path_by_pubkey w pk.
Proof. intros Hroot. unfold get_path_by_pubkey. by rewrite Hroot. Qed.

Lemma remove_many_from_disk_async_exec (remove : gset RouterID) (w : World) :
  exec (remove_many_from_disk_async remove) w
  = if path_empty (m_Root w) then w
    else set_disk_jobs
           (disk_jobs w
            ++ [RemoveFiles (set_map (get_path_by_pubkey w) remove)]) w.
Proof.
  unfold remove_many_from_disk_async. run_M.
  by destruct (path_empty (m_Root w)).
Qed.

Lemma path_empty_true (p : path) : path_empty p = true ↔ p = [].
Proof. by destruct p. Qed.

Lemma path_empty_false (p : path) : path_empty p = false ↔ p ≠ [].
Proof. by destruct p. Qed.

Lemma remove_router_exec (pk : RouterID) (w : World) :
  exec (remove_router pk) w
  = let w1 := set_entries (table_erase pk (entries w)) w in
    if path_empty (m_Root w) then w1
    else set_disk_jobs
           (disk_jobs w ++ [RemoveFiles {[get_path_by_pubkey w pk]}]) w1.
Proof.
  unfold remove_router.
  change (exec (entries_erase pk;; remove_many_from_disk_async {[pk]}) w)
    with (exec (remove_many_from_disk_async {[pk]})
            (set_entries (table_erase pk (entries w)) w)).
  rewrite remove_many_from_disk_async_exec. cbn [m_Root set_entries disk_jobs].
  destruct (path_empty (m_Root w)); [reflexivity|].
  rewrite set_map_singleton_L. reflexivity.
Qed.

(** C8. [remove_router] is total and idempotent on the table.  The root
    path of a NodeDB is never empty: the constructor alone sets [m_Root],
    and it returns only when [EnsureSkiplist] did, which throws for the
    empty path ([NodeDB_ctor_root], [m_Root_constant]).  On every such
    NodeDB, for every table and every identifier, stored or not, or removed
    by the preceding call: the table has no entry for it afterwards, the
    entries of other identifiers are as they were, a second call leaves the
    table of the first, and each call, the second too, queues one job that
    removes the file of the identifier, whether or not it was in the
    table. *)
Theorem remove_router_idempotent (w : World) (pk : RouterID) :
  m_Root w ≠ [] →
  let w1 := exec (remove_router pk) w in
  let w2 := exec (remove_router pk) w1 in
  let job := RemoveFiles {[get_path_by_pubkey w pk]} in
  table_find pk (entries w1) = None
  ∧ (∀ k, k ≠ pk → table_find k (entries w1) = table_find k (entries w))
  ∧ entries w2 = entries w1
  ∧ disk_jobs w1 = disk_jobs w ++ [job]
  ∧ disk_jobs w2 = disk_jobs w1 ++ [job]
  ∧ m_Root w1 = m_Root w ∧ m_NextFlushAt w1 = m_NextFlushAt w
  ∧ files_on_disk w1 = files_on_disk w ∧ clock_ms w1 = clock_ms w.
Proof.
  intros Hroot. apply path_empty_false in Hroot.
  cbn zeta. rewrite !remove_router_exec. cbn zeta.
  cbn [m_Root set_entries entries]. rewrite Hroot.
  cbn [m_Root set_entries set_disk_jobs entries disk_jobs m_NextFlushAt
       files_on_disk clock_ms]. rewrite ?Hroot.
  cbn [m_Root set_entries set_disk_jobs entries disk_jobs].
  repeat split; auto using table_find_erase_eq, table_find_erase_ne,
    table_erase_idemp.
Qed.

Lemma remove_router_idempotent_witness :
  table_find (key_of xaa) (entries (exec (remove_router (key_of xaa)) world_ready))
  = None
  ∧ disk_jobs (exec (remove_router (key_of xaa)) world_ready)
    = disk_jobs world_ready
      ++ [RemoveFiles {[get_path_by_pubkey world_ready (key_of xaa)]}].
Proof.
  pose proof (remove_router_idempotent world_ready (key_of xaa)
                ltac:(discriminate)) as (Hgone & _ & _ & Hjob & _).
  by split.
Defined.

(** ** Pruning *)

Lemma stale_scan_spec (keep : gset RouterID) (cutoff : Z)
    (es : list (RouterID * Entry)) (removed : gset RouterID) :
  stale_scan keep cutoff es removed
  = (filter (fun item => ¬ stale keep cutoff item) es,
     stale_ids keep cutoff es ∪ removed).
Proof.
  unfold stale_ids. revert removed.
  induction es as [|item es IH]; intros removed.
  - cbn. by rewrite union_empty_l_L.
  - cbn [stale_scan]. rewrite !filter_cons.
    destruct (decide (stale keep cutoff item)) as [Hs|Hs].
    + destruct Hs as [Ht Hk].
      rewrite !bool_decide_eq_true_2 by done. cbn [andb].
      rewrite decide_False by (unfold stale; tauto).
      rewrite IH. f_equal. cbn [map]. rewrite list_to_set_cons.
      rewrite (assoc_L (∪)). f_equal. apply (comm_L (∪)).
    + rewrite decide_True by done.
      assert (bool_decide (insertedAt item.2 < cutoff)
              && bool_decide (pubkey (rc item.2) ∉ keep) = false) as ->.
      { apply not_true_is_false. intros Hb. apply Hs.
        apply andb_prop in Hb as [H1 H2].
        apply bool_decide_eq_true_1 in H1, H2. by split. }
      rewrite IH. reflexivity.
Qed.

Lemma remove_stale_rcs_exec (keep : gset RouterID) (cutoff : Z) (w : World) :
  exec (remove_stale_rcs keep cutoff) w
  = let w1 := set_entries
                (filter (fun item => ¬ stale keep cutoff item) (entries w)) w in
    if decide (stale_ids keep cutoff (entries w) = ∅) then w1
    else if path_empty (m_Root w) then w1
    else set_disk_jobs
           (disk_jobs w
            ++ [RemoveFiles (set_map (get_path_by_pubkey w)
                               (stale_ids keep cutoff (entries w)))]) w1.
Proof.
  unfold remove_stale_rcs.
  change (exec _ w) with
    (exec (if decide ((stale_scan keep cutoff (entries w) ∅).2 = ∅)
           then mret tt
           else remove_many_from_disk_async
                  (stale_scan keep cutoff (entries w) ∅).2)
       (set_entries (stale_scan keep cutoff (entries w) ∅).1 w)).
  rewrite stale_scan_spec. cbn [fst snd]. rewrite union_empty_r_L.
  cbn zeta. destruct (decide (stale_ids keep cutoff (entries w) = ∅)).
  - reflexivity.
  - rewrite remove_many_from_disk_async_exec. reflexivity.
Qed.

(** C4. On every NodeDB (its root path is never empty, see
    [NodeDB_ctor_root] and [m_Root_constant]), [remove_stale_rcs] removes
    exactly the entries inserted strictly before [cutoff] whose identity is
    not in [keep]; every other entry stays as it was, in its place.  When
    at least one entry is removed, the files of the removed identities are
    handed to [disk] as one job; when nothing is removed, nothing is
    queued. *)
Theorem remove_stale_rcs_prunes (w : World) (keep : gset RouterID) (cutoff : Z) :
  m_Root w ≠ [] →
  let w1 := exec (remove_stale_rcs keep cutoff) w in
  let removed := stale_ids keep cutoff (entries w) in
  entries w1
  = filter (fun item => ¬ (insertedAt item.2 < cutoff
                           ∧ pubkey (rc item.2) ∉ keep)) (entries w)
  ∧ (∀ id, id ∈ removed ↔
         ∃ item, item ∈ entries w ∧ pubkey (rc item.2) = id
                 ∧ insertedAt item.2 < cutoff ∧ id ∉ keep)
  ∧ (removed ≠ ∅ →
     disk_jobs w1
     = disk_jobs w ++ [RemoveFiles (set_map (get_path_by_pubkey w) removed)])
  ∧ (removed = ∅ → disk_jobs w1 = disk_jobs w)
  ∧ m_Root w1 = m_Root w ∧ m_NextFlushAt w1 = m_NextFlushAt w
  ∧ files_on_disk w1 = files_on_disk w ∧ clock_ms w1 = clock_ms w.
Proof.
  intros Hroot. apply path_empty_false in Hroot.
  cbn zeta. rewrite remove_stale_rcs_exec. cbn zeta. rewrite Hroot.
  split; [|split; [|split; [|split]]].
  - by destruct (decide (stale_ids keep cutoff (entries w) = ∅)).
  - intros id. unfold stale_ids. rewrite elem_of_list_to_set, list_elem_of_fmap.
    split.
    + intros (item & -> & Hin). apply list_elem_of_filter in Hin as [[Ht Hk] Hin].
      by exists item.
    + intros (item & Hin & <- & Ht & Hk). exists item. split; [done|].
      apply list_elem_of_filter. by split.
  - intros Hne. by rewrite decide_False.
  - intros He. by rewrite decide_True.
  - by destruct (decide (stale_ids keep cutoff (entries w) = ∅)).
Qed.

Lemma remove_stale_rcs_prunes_witness :
  disk_jobs (exec (remove_stale_rcs ∅ 200) world_two_entries)
  = disk_jobs world_two_entries
    ++ [RemoveFiles (set_map (get_path_by_pubkey world_two_entries)
                       (stale_ids ∅ 200 (entries world_two_entries)))].
Proof.
  pose proof (remove_stale_rcs_prunes world_two_entries ∅ 200
                ltac:(discriminate)) as (_ & Hids & Hjob & _).
  apply Hjob. intros Hempty.
  assert (Hin : key_of x11 ∈ stale_ids ∅ 200 (entries world_two_entries)).
  { apply Hids.
    eexists. split; [apply list_elem_of_here|].
    cbn. split; [reflexivity|]. split; [lia|]. apply not_elem_of_empty. }
  rewrite Hempty in Hin. by apply not_elem_of_empty in Hin.
Defined.

Lemma put_rc_replaces_witness :
  table_find (key_of x11) (entries (exec (put_rc contact_A) world_two_entries))
  = table_find (key_of x11) (entries world_two_entries).
Proof.
  apply (put_rc_replaces world_two_entries contact_A). by vm_compute.
Defined.

(** ** The flush scheduler *)

Lemma fold_left_push_back {A B : Type} (f : A → B) (l : list A) (acc : list B) :
  fold_left (fun copy item => copy ++ [f item]) l acc = acc ++ map f l.
Proof.
  revert acc. induction l as [|a l IH]; intros acc; cbn.
  - by rewrite app_nil_r.
  - by rewrite IH, <- app_assoc.
Qed.

Lemma Tick_exec (now : Z) (w : World) :
  exec (Tick now) w
  = if decide (m_NextFlushAt w = 0) then w
    else if decide (now > m_NextFlushAt w) then
      set_disk_jobs
        (disk_jobs w ++ [WriteContacts (map (fun item => rc item.2) (entries w))])
        (set_NextFlushAt (m_NextFlushAt w + FlushInterval) w)
    else w.
Proof.
  unfold Tick. run_M.
  destruct (decide (m_NextFlushAt w = 0)); [reflexivity|].
  destruct (decide (now > m_NextFlushAt w)); [|reflexivity].
  cbn. by rewrite fold_left_push_back.
Qed.

(** C5. With the deadline at the sentinel 0 (flushing disabled) no
    sequence of ticks, whatever their times, changes the world: in
    particular nothing is queued.  With flushing enabled and [now] past the
    deadline, one [Tick] queues exactly one job, the bulk write of the
    contacts of all entries of the table, and moves the deadline forward by
    exactly five minutes, however far [now] lies beyond it; the table itself
    is not changed.  A tick at or before the deadline does nothing. *)
Theorem Tick_flush_gating (w : World) :
  (∀ nows : list Z,
     m_NextFlushAt w = 0 →
     fold_left (fun w' now => exec (Tick now) w') nows w = w)
  ∧ (∀ now : Z,
       m_NextFlushAt w ≠ 0 →
       now > m_NextFlushAt w →
       let w' := exec (Tick now) w in
       disk_jobs w'
       = disk_jobs w ++ [WriteContacts (map (fun item => rc item.2) (entries w))]
       ∧ m_NextFlushAt w' = m_NextFlushAt w + 5 * 60 * 1000
       ∧ entries w' = entries w ∧ m_Root w' = m_Root w
       ∧ files_on_disk w' = files_on_disk w ∧ clock_ms w' = clock_ms w)
  ∧ (∀ now : Z, now ≤ m_NextFlushAt w → exec (Tick now) w = w).
Proof.
  split; [|split].
  - intros nows Hoff. induction nows as [|now nows IH]; [reflexivity|].
    cbn [fold_left]. rewrite Tick_exec, decide_True by done. exact IH.
  - intros now Hon Hpast. cbn zeta. rewrite Tick_exec.
    rewrite decide_False, decide_True by done. done.
  - intros now Hle. rewrite Tick_exec.
    destruct (decide (m_NextFlushAt w = 0)); [reflexivity|].
    rewrite decide_False by lia. reflexivity.
Qed.

Lemma Tick_flush_gating_witness :
  fold_left (fun w' now => exec (Tick now) w') [1; 400001; 9000000]
    (set_NextFlushAt 0 world_two_entries)
  = set_NextFlushAt 0 world_two_entries
  ∧ (let w' := exec (Tick 2000000) world_two_entries in
     disk_jobs w'
     = disk_jobs world_two_entries
       ++ [WriteContacts
             (map (fun item => rc item.2) (entries world_two_entries))]
     ∧ m_NextFlushAt w' = m_NextFlushAt world_two_entries + 5 * 60 * 1000
     ∧ entries w' = entries world_two_entries
     ∧ m_Root w' = m_Root world_two_entries
     ∧ files_on_disk w' = files_on_disk world_two_entries
     ∧ clock_ms w' = clock_ms world_two_entries).
Proof.
  split.
  - apply (proj1 (Tick_flush_gating (set_NextFlushAt 0 world_two_entries))).
    reflexivity.
  - apply (proj1 (proj2 (Tick_flush_gating world_two_entries)) 2000000);
      [discriminate | reflexivity].
Defined.

(** ** The queries *)

Lemma has_router_eval (pk : RouterID) (w : World) :
  eval (has_router pk) w
  = match table_find pk (entries w) with Some _ => true | None => false end.
Proof. reflexivity. Qed.

(** C10. The queries [has_router], [get_rc], [num_loaded],
    [find_closest_to] and [find_many_closest_to] leave the world, and so the
    table, exactly as it was, for every world and every argument.  [get_rc]
    returns the contact stored under the key and [has_router] answers true
    exactly when [get_rc] returns a contact; [num_loaded] is the number of
    entries. *)
Theorem queries_leave_table_unchanged (w : World) (pk : RouterID)
    (location : Key_t) (numRouters : nat) :
  exec (has_router pk) w = w
  ∧ exec (get_rc pk) w = w
  ∧ exec num_loaded w = w
  ∧ exec (find_closest_to location) w = w
  ∧ exec (find_many_closest_to location numRouters) w = w
  ∧ eval (get_rc pk) w = rc <$> table_find pk (entries w)
  ∧ eval (has_router pk) w
    = match eval (get_rc pk) w with Some _ => true | None => false end
  ∧ eval num_loaded w = length (entries w).
Proof.
  repeat split.
  - unfold get_rc. run_M. by destruct (table_find pk (entries w)).
  - apply get_rc_eval.
  - rewrite get_rc_eval, has_router_eval.
    by destruct (table_find pk (entries w)).
Qed.

(** ** The nearest contact *)

Lemma find_closest_to_eval (location : Key_t) (w : World) :
  eval (find_closest_to location) w
  = closest_scan location (entries w) RouterContact_default.
Proof. reflexivity. Qed.

Section Closest.
Variable location : Key_t.

Local Abbreviation d :=
  (fun c : RouterContact => xor_distance location (pubkey c)).

(** Once the local [rc] holds a contact with a non-zero key, the scan keeps
    a nearest one of those seen. *)
Lemma closest_scan_invariant (es : list (RouterID * Entry)) (best : RouterContact) :
  Forall (fun item => IsZero (pubkey (rc item.2)) = false) es →
  IsZero (pubkey best) = false →
  (closest_scan location es best = best
   ∨ ∃ item, item ∈ es ∧ rc item.2 = closest_scan location es best)
  ∧ (d (closest_scan location es best) ≤ d best)%N
  ∧ Forall (fun item => (d (closest_scan location es best) ≤ d (rc item.2))%N) es.
Proof.
  revert best. induction es as [|item es IH]; intros best Hnz Hbest.
  - cbn. split; [by left|]. split; [lia | constructor].
  - apply Forall_cons in Hnz as [Hitem Hnz].
    change (closest_scan location (item :: es) best)
      with (closest_scan location es
              (closest_visit (XorMetric location) (rc item.2) best)).
    unfold closest_visit. rewrite Hbest. unfold XorMetric.
    destruct (N.ltb_spec (d (rc item.2)) (d best)) as [Hlt|Hge].
    + destruct (IH (rc item.2) Hnz Hitem) as (Hin & Hle & Hall).
      split; [|split].
      * right. destruct Hin as [->|(it & Hit & Heq)].
        -- exists item. split; [apply list_elem_of_here | reflexivity].
        -- exists it. split; [by apply list_elem_of_further | done].
      * cbv beta in *. lia.
      * constructor; [done|]. exact Hall.
    + destruct (IH best Hnz Hbest) as (Hin & Hle & Hall).
      split; [|split].
      * destruct Hin as [->|(it & Hit & Heq)]; [by left|].
        right. exists it. split; [by apply list_elem_of_further | done].
      * done.
      * constructor; [cbv beta in *; lia|]. exact Hall.
Qed.
End Closest.

(** C6 (amended). For the empty table [find_closest_to] returns the
    default contact.  For every table that is not empty and stores no contact
    under the all-zero identifier (the value that marks the local result as
    not yet set), and for every target, it returns the contact of an entry
    whose XOR distance to the target is the least over all entries. *)
Theorem find_closest_to_minimal (w : World) (location : Key_t) :
  (entries w = [] → eval (find_closest_to location) w = RouterContact_default)
  ∧ (entries w ≠ [] →
     (∀ item, item ∈ entries w → IsZero (pubkey (rc item.2)) = false) →
     let best := eval (find_closest_to location) w in
     (∃ item, item ∈ entries w ∧ rc item.2 = best)
     ∧ ∀ item, item ∈ entries w →
         (xor_distance location (pubkey best)
          ≤ xor_distance location (pubkey (rc item.2)))%N).
Proof.
  rewrite find_closest_to_eval. split.
  - by intros ->.
  - intros Hne Hnz. apply Forall_forall in Hnz.
    destruct (entries w) as [|item es]; [done|]. clear Hne.
    apply Forall_cons in Hnz as [Hitem Hnz].
    change (closest_scan location (item :: es) RouterContact_default)
      with (closest_scan location es (rc item.2)).
    destruct (closest_scan_invariant location es (rc item.2) Hnz Hitem)
      as (Hin & Hle & Hall).
    cbn zeta. split.
    + destruct Hin as [->|(it & Hit & Heq)].
      * exists item. split; [apply list_elem_of_here | reflexivity].
      * exists it. split; [by apply list_elem_of_further | done].
    + intros it [->|Hit]%elem_of_cons; [exact Hle|].
      by apply (proj1 (Forall_forall _ _) Hall).
Qed.

Lemma find_closest_to_minimal_witness :
  let best := eval (find_closest_to (key_last x00)) world_three_keys in
  (∃ item, item ∈ entries world_three_keys ∧ rc item.2 = best)
  ∧ ∀ item, item ∈ entries world_three_keys →
      (xor_distance (key_last x00) (pubkey best)
       ≤ xor_distance (key_last x00) (pubkey (rc item.2)))%N.
Proof.
  apply (proj2 (find_closest_to_minimal world_three_keys (key_last x00))).
  - discriminate.
  - intros item Hin. cbn [entries world_three_keys] in Hin.
    repeat (apply elem_of_cons in Hin as [->|Hin]; [reflexivity|]).
    by apply elem_of_nil in Hin.
Defined.

(** The spec's example: among 1111, 0001 and 0010 the nearest to 0000 is
    0001. *)
Example find_closest_to_spec_example :
  eval (find_closest_to (key_last x00)) world_three_keys = contact_last x01.
Proof. reflexivity. Qed.

(** C6, as first stated, fails when a contact is stored under the all-zero
    identifier and the scan visits it before another entry: the next contact
    visited replaces it without a comparison.  For the target 00..00 the
    entry 00..00 is at distance 0, yet the contact returned is the one at
    0f..0f. *)
Lemma find_closest_to_zero_key_counterexample :
  let best := eval (find_closest_to (key_of x00)) world_zero_key in
  best = contact x0f 5 "10.0.0.2:1090"
  ∧ ¬ ∀ item, item ∈ entries world_zero_key →
        (xor_distance (key_of x00) (pubkey best)
         ≤ xor_distance (key_of x00) (pubkey (rc item.2)))%N.
Proof.
  cbn zeta. split; [reflexivity|].
  intros Hmin.
  specialize (Hmin (key_of x00, mkEntry (contact x00 5 "10.0.0.1:1090") 100)
                (list_elem_of_here _ _)).
  vm_compute in Hmin. by apply Hmin.
Qed.

(** ** The k nearest contacts *)

Section PartialSort.
Context {A : Type} (d : A → N) (lt : A → A → bool).
Hypothesis lt_by_distance : ∀ a b, lt a b = (d a <? d b)%N.

Lemma extract_min_length (x : A) (l : list A) :
  length (extract_min lt x l).2 = length l.
Proof.
  revert x. induction l as [|y l IH]; intros x; [reflexivity|].
  cbn [extract_min]. destruct (lt y x); cbn [snd length]; by rewrite IH.
Qed.

Lemma extract_min_perm (x : A) (l : list A) :
  (extract_min lt x l).1 :: (extract_min lt x l).2 ≡ₚ x :: l.
Proof.
  revert x. induction l as [|y l IH]; intros x; [reflexivity|].
  cbn [extract_min]. destruct (lt y x); cbn [fst snd].
  - rewrite Permutation_swap, (IH y). reflexivity.
  - rewrite Permutation_swap, (IH x). apply Permutation_swap.
Qed.

Lemma extract_min_least (x : A) (l : list A) :
  (d (extract_min lt x l).1 ≤ d x)%N
  ∧ Forall (fun y => (d (extract_min lt x l).1 ≤ d y)%N) l.
Proof.
  revert x. induction l as [|y l IH]; intros x.
  - cbn. split; [lia | constructor].
  - cbn [extract_min]. destruct (lt y x) eqn:Hyx; cbn [fst];
      rewrite lt_by_distance in Hyx.
    + apply N.ltb_lt in Hyx.
      destruct (IH y) as [Hy Hall]. split; [lia|]. by constructor.
    + apply N.ltb_ge in Hyx.
      destruct (IH x) as [Hx Hall]. split; [done|]. constructor; [lia | done].
Qed.

Lemma partial_sort_perm (mid : nat) (l : list A) :
  partial_sort lt mid l ≡ₚ l.
Proof.
  revert l. induction mid as [|n IH]; intros [|x l]; try reflexivity.
  cbn [partial_sort]. rewrite IH. apply extract_min_perm.
Qed.

(** What [std::partial_sort] promises. *)
Lemma partial_sort_sorted (mid : nat) (l : list A) :
  (mid ≤ length l)%nat →
  StronglySorted (fun a b => (d a ≤ d b)%N) (take mid (partial_sort lt mid l))
  ∧ ∀ a b, a ∈ take mid (partial_sort lt mid l) →
           b ∈ drop mid (partial_sort lt mid l) → (d a ≤ d b)%N.
Proof.
  revert l. induction mid as [|n IH]; intros l Hlen.
  - rewrite take_0. split; [constructor|]. intros a b Ha. by apply elem_of_nil in Ha.
  - destruct l as [|x l]; [cbn in Hlen; lia|].
    cbn [partial_sort take drop].
    pose proof (extract_min_perm x l) as Hperm.
    pose proof (extract_min_least x l) as [Hx Hall].
    set (m := (extract_min lt x l).1) in *.
    set (r := (extract_min lt x l).2) in *.
    assert (Hr : ∀ y, y ∈ r → (d m ≤ d y)%N).
    { intros y Hy.
      assert (Hin : y ∈ x :: l) by (rewrite <- Hperm; by apply list_elem_of_further).
      apply elem_of_cons in Hin as [->|Hin]; [done|].
      by apply (proj1 (Forall_forall _ _) Hall). }
    assert (Hlenr : (n ≤ length r)%nat).
    { unfold r. rewrite extract_min_length. cbn in Hlen. lia. }
    destruct (IH r Hlenr) as [Hsorted Hcross].
    assert (Hps : ∀ y, y ∈ partial_sort lt n r → (d m ≤ d y)%N).
    { intros y Hy. apply Hr. by rewrite <- (partial_sort_perm n r). }
    split.
    + constructor; [done|]. apply Forall_forall. intros y Hy.
      apply Hps. by apply (subseteq_take n).
    + intros a b [->|Ha]%elem_of_cons Hb.
      * apply Hps. by apply (subseteq_drop n).
      * by apply Hcross.
Qed.
End PartialSort.

Lemma find_many_closest_to_eval (location : Key_t) (numRouters : nat) (w : World) :
  eval (find_many_closest_to location numRouters) w
  = let all := map (fun item => rc item.2) (entries w) in
    let mid := Nat.min numRouters (length all) in
    take mid (partial_sort (XorMetric_rc location) mid all).
Proof.
  unfold find_many_closest_to. run_M. rewrite fold_left_push_back.
  cbn [app]. cbn zeta.
  destruct (Nat.ltb_spec numRouters (length (map (fun item => rc item.2) (entries w))));
    [by rewrite Nat.min_l by lia | by rewrite Nat.min_r by lia].
Qed.

(** C7. For every table, target and count [numRouters],
    [find_many_closest_to] returns [min numRouters (table size)] contacts;
    together with some others they are exactly the contacts of the table,
    every contact returned is at an XOR distance to the target no greater than
    that of every contact not returned, and the contacts returned are in
    ascending order of distance.  When the table has no more than
    [numRouters] entries, all its contacts are returned. *)
Theorem find_many_closest_to_sorted (w : World) (location : Key_t)
    (numRouters : nat) :
  let all := map (fun item => rc item.2) (entries w) in
  let closest := eval (find_many_closest_to location numRouters) w in
  let d := fun c => xor_distance location (pubkey c) in
  length closest = Nat.min numRouters (length (entries w))
  ∧ (∃ others, closest ++ others ≡ₚ all
               ∧ ∀ c o, c ∈ closest → o ∈ others → (d c ≤ d o)%N)
  ∧ StronglySorted (fun a b => (d a ≤ d b)%N) closest
  ∧ ((length (entries w) ≤ numRouters)%nat → closest ≡ₚ all).
Proof.
  cbn zeta. rewrite find_many_closest_to_eval. cbn zeta.
  set (all := map (fun item => rc item.2) (entries w)).
  set (d := fun c => xor_distance location (pubkey c)).
  set (mid := Nat.min numRouters (length all)).
  assert (Hall : length all = length (entries w)) by apply length_map.
  assert (Hmid : (mid ≤ length all)%nat) by (unfold mid; lia).
  pose proof (partial_sort_perm (XorMetric_rc location) mid all) as Hperm.
  pose proof (partial_sort_sorted d (XorMetric_rc location)
                (fun _ _ => eq_refl) mid all Hmid) as [Hsorted Hcross].
  split; [|split; [|split]].
  - rewrite length_take, (Permutation_length Hperm). unfold mid. lia.
  - exists (drop mid (partial_sort (XorMetric_rc location) mid all)).
    split; [by rewrite take_drop | exact Hcross].
  - exact Hsorted.
  - intros Hfew. rewrite take_ge; [exact Hperm|].
    rewrite (Permutation_length Hperm). unfold mid. lia.
Qed.

Lemma find_many_closest_to_sorted_witness :
  eval (find_many_closest_to (key_last x00) 5) world_three_keys
  ≡ₚ map (fun item => rc item.2) (entries world_three_keys).
Proof.
  apply (find_many_closest_to_sorted world_three_keys (key_last x00) 5).
  cbn. lia.
Defined.

(** The spec's example: the two nearest to 0000 among 1111, 0001 and 0010
    are 0001 and 0010, in this order. *)
Example find_many_closest_to_spec_example :
  eval (find_many_closest_to (key_last x00) 2) world_three_keys
  = [contact_last x01; contact_last x02].
Proof. reflexivity. Qed.

Lemma get_path_by_pubkey_shard_path_witness :
  get_path_by_pubkey world_two_entries (key_of xaa)
  = get_path_by_pubkey world0 (key_of xaa)
  ∧ String.length (to_hex (key_of xaa)) = 64%nat
  ∧ forallb is_lower_hex (list_ascii_of_string (to_hex (key_of xaa))) = true
  ∧ ∃ (b : byte) (bs : list byte) (rest : string),
      key_of xaa = b :: bs
      ∧ to_hex (key_of xaa) = String (hex_digit (Byte.to_N b / 16)) rest
      ∧ get_path_by_pubkey world0 (key_of xaa)
        = m_Root world0 ++ [String (hex_digit (Byte.to_N b / 16)) EmptyString;
                            to_hex (key_of xaa) +:+ ".signed"].
Proof.
  apply (get_path_by_pubkey_shard_path world0 world_two_entries (key_of xaa));
    reflexivity.
Defined.

Example get_path_by_pubkey_example :
  get_path_by_pubkey world0 (key_of xaa)
  = ["var"; "lib"; "lokinet"; "nodedb"; "a";
     "aaaaaaaaaaaaaaaaaaaaaaaaaaaaaaaaaaaaaaaaaaaaaaaaaaaaaaaaaaaaaaaa.signed"].
Proof. reflexivity. Qed.

(** ** The disk loader *)

Lemma set_entries_id (w : World) : set_entries (entries w) w = w.
Proof. by destruct w. Qed.

Lemma set_files_id (w : World) : set_files (files_on_disk w) w = w.
Proof. by destruct w. Qed.

Section Loader.
Context `{ops : RouterContactOps}.

Lemma load_visit_run (f : path) (purge : gset path) (w : World) :
  load_visit f purge w
  = ((visit_pure (files_on_disk w) (clock_ms w) f (purge, entries w)).1,
     set_entries
       (visit_pure (files_on_disk w) (clock_ms w) f (purge, entries w)).2 w).
Proof.
  unfold load_visit, visit_pure, file_verdict, fs_is_regular_file,
    RouterContact_Read. run_M.
  destruct (fs_lookup f (files_on_disk w)) as [[content| |]|] eqn:Hlook;
    cbn [andb negb fst snd]; rewrite ?Hlook, ?set_entries_id;
    try reflexivity.
  destruct (bool_decide (path_extension f = RC_FILE_EXT));
    cbn [andb negb fst snd]; rewrite ?Hlook, ?set_entries_id;
    try reflexivity.
  destruct (BDecode content) as [c|];
    cbn [andb negb fst snd]; rewrite ?set_entries_id; try reflexivity.
  destruct (FromOurNetwork c);
    cbn [andb negb fst snd]; rewrite ?set_entries_id; try reflexivity.
  destruct (IsExpired c (clock_ms w));
    cbn [andb negb fst snd]; rewrite ?set_entries_id; try reflexivity.
  destruct (VerifySignature c);
    cbn [andb negb fst snd]; rewrite ?set_entries_id; reflexivity.
Qed.

(** The scan of a list of paths is the fold of the decisions; it touches
    nothing but the table. *)
Lemma foldM_load_visit (fs : list path) (purge : gset path) (w : World) :
  foldM load_visit fs purge w
  = let st := fold_left
                (fun st f => visit_pure (files_on_disk w) (clock_ms w) f st)
                fs (purge, entries w) in
    (st.1, set_entries st.2 w).
Proof.
  cbn zeta. revert purge w.
  induction fs as [|f fs IH]; intros purge w.
  - cbn. by rewrite set_entries_id.
  - cbn [foldM fold_left].
    change ((s' ← load_visit f purge; foldM load_visit fs s') w)
      with (foldM load_visit fs (load_visit f purge w).1 (load_visit f purge w).2).
    rewrite load_visit_run. cbn [fst snd]. rewrite IH.
    cbn [files_on_disk clock_ms entries set_entries].
    by rewrite <- surjective_pairing.
Qed.
End Loader.

Lemma bind_run {A B : Type} (m : M A) (k : A → M B) (w : World) :
  (m ≫= k) w = k (m w).1 (m w).2.
Proof. reflexivity. Qed.

Section LoaderScan.
Context `{ops : RouterContactOps}.

Lemma shard_loop_run (root : path) (chs : list ascii) (purge : gset path)
    (w : World) :
  foldM (fun ch purge =>
           if Ascii.eqb ch zero then mret purge
           else IterDir (path_div root (String ch EmptyString)) load_visit purge)
        chs purge w
  = let st :=
      scan_state w
        (flat_map (fun ch =>
                     if Ascii.eqb ch zero then []
                     else dir_entries (path_div root (String ch EmptyString))
                            (files_on_disk w)) chs)
        (purge, entries w) in
    (st.1, set_entries st.2 w).
Proof.
  cbn zeta. unfold scan_state. revert purge w.
  induction chs as [|ch chs IH]; intros purge w.
  - cbn. by rewrite set_entries_id.
  - cbn [foldM flat_map]. rewrite fold_left_app, bind_run.
    assert (Hstep :
      (if Ascii.eqb ch zero then mret purge
       else IterDir (path_div root (String ch EmptyString)) load_visit purge) w
      = let st := fold_left
                    (fun st f => visit_pure (files_on_disk w) (clock_ms w) f st)
                    (if Ascii.eqb ch zero then []
                     else dir_entries (path_div root (String ch EmptyString))
                            (files_on_disk w)) (purge, entries w) in
        (st.1, set_entries st.2 w)).
    { destruct (Ascii.eqb ch zero).
      - cbn. by rewrite set_entries_id.
      - unfold IterDir. rewrite bind_run. apply foldM_load_visit. }
    rewrite Hstep. cbn zeta. cbn [fst snd]. rewrite IH.
    cbn [files_on_disk clock_ms entries set_entries].
    by rewrite <- surjective_pairing.
Qed.

Lemma load_scan_run (root : path) (w : World) :
  load_scan root w
  = let st := scan_state w (scanned_paths root (files_on_disk w)) (∅, entries w) in
    (st.1, set_entries st.2 w).
Proof. apply shard_loop_run. Qed.

Lemma filter_all {A : Type} (P : A → Prop) `{∀ x, Decision (P x)} (l : list A) :
  (∀ x, x ∈ l → P x) → filter P l = l.
Proof.
  induction l as [|a l IH]; intros Hall; [reflexivity|].
  rewrite filter_cons_True by (apply Hall; apply list_elem_of_here).
  f_equal. apply IH. intros x Hx. apply Hall. by apply list_elem_of_further.
Qed.

End LoaderScan.

(** *** What the scan leaves in the purge set and in the table *)

Section ScanFacts.
Context `{ops : RouterContactOps}.
Variable w : World.

Local Abbreviation verdict := (file_verdict (files_on_disk w) (clock_ms w)).

Lemma scan_state_purge (fs : list path)
    (st : gset path * list (RouterID * Entry)) (f : path) :
  f ∈ (scan_state w fs st).1 ↔ f ∈ st.1 ∨ (f ∈ fs ∧ verdict f = Purge).
Proof.
  unfold scan_state. revert st.
  induction fs as [|f0 fs IH]; intros st; cbn [fold_left].
  - split; [by left|]. intros [?|[Hin _]]; [done|]. by apply elem_of_nil in Hin.
  - rewrite IH. unfold visit_pure.
    rewrite elem_of_cons.
    destruct (verdict f0) eqn:Hv; cbn [fst snd];
      rewrite ?elem_of_union, ?elem_of_singleton;
      split; intros Hcase; try (intuition congruence).
Qed.

Lemma scan_state_keeps (fs : list path)
    (st : gset path * list (RouterID * Entry)) (k : RouterID) (e : Entry) :
  table_find k st.2 = Some e → table_find k (scan_state w fs st).2 = Some e.
Proof.
  unfold scan_state. revert st.
  induction fs as [|f0 fs IH]; intros st Hfind; cbn [fold_left]; [done|].
  apply IH. unfold visit_pure.
  destruct (file_verdict (files_on_disk w) (clock_ms w) f0); cbn [snd]; try done.
  by rewrite table_find_emplace, Hfind.
Qed.

Lemma scan_state_admits (fs : list path)
    (st : gset path * list (RouterID * Entry)) (f : path) (c : RouterContact) :
  f ∈ fs → verdict f = Admit c →
  is_Some (table_find (pubkey c) (scan_state w fs st).2).
Proof.
  unfold scan_state. revert st.
  induction fs as [|f0 fs IH]; intros st Hin Hv; cbn [fold_left].
  - by apply elem_of_nil in Hin.
  - apply elem_of_cons in Hin as [->|Hin]; [|by apply IH].
    assert (Hnow : is_Some (table_find (pubkey c)
              (visit_pure (files_on_disk w) (clock_ms w) f0 st).2)).
    { unfold visit_pure. rewrite Hv. cbn [snd].
      rewrite table_find_emplace.
      destruct (table_find (pubkey c) st.2); [by eexists|].
      rewrite decide_True by done. by eexists. }
    destruct Hnow as [e He]. exists e.
    by apply (scan_state_keeps fs _ _ _ He).
Qed.

Lemma scan_state_origin (fs : list path)
    (st : gset path * list (RouterID * Entry)) (k : RouterID) (e : Entry) :
  table_find k (scan_state w fs st).2 = Some e →
  table_find k st.2 = Some e
  ∨ ∃ f c, f ∈ fs ∧ verdict f = Admit c ∧ k = pubkey c
           ∧ e = mkEntry c (clock_ms w).
Proof.
  unfold scan_state. revert st.
  induction fs as [|f0 fs IH]; intros st Hfind; cbn [fold_left] in Hfind.
  - by left.
  - apply IH in Hfind as [Hfind|(f & c & Hin & Hv & Hk & He)].
    + unfold visit_pure in Hfind.
      destruct (verdict f0) as [| | |c] eqn:Hv; cbn [snd] in Hfind;
        try by left.
      rewrite table_find_emplace in Hfind.
      destruct (table_find k st.2) as [e'|]; [by left|].
      destruct (decide (pubkey c = k)) as [Hk|]; [|done].
      right. exists f0, c. split; [apply list_elem_of_here|].
      split; [done|]. split; congruence.
    + right. exists f, c. split; [by apply list_elem_of_further | done].
Qed.
End ScanFacts.

(** *** Removing the purged files *)

Lemma fs_lookup_removed (f q : path) (fsys : Filesystem) :
  fs_lookup q (filter (fun node => node.1 ≠ f) fsys)
  = if decide (q = f) then None else fs_lookup q fsys.
Proof.
  induction fsys as [|n fsys IH]; cbn [fs_lookup].
  - rewrite filter_nil. by destruct (decide (q = f)).
  - rewrite filter_cons. destruct (decide (n.1 ≠ f)) as [Hn|Hn].
    + cbn [fs_lookup]. rewrite IH.
      destruct (decide (n.1 = q)) as [<-|]; [by rewrite decide_False|done].
    + apply dec_stable in Hn. rewrite IH.
      destruct (decide (q = f)) as [->|]; [done|].
      by rewrite decide_False by congruence.
Qed.

Lemma filter_absent (f : path) (fsys : Filesystem) :
  fs_lookup f fsys = None → filter (fun node => node.1 ≠ f) fsys = fsys.
Proof.
  induction fsys as [|n fsys IH]; cbn [fs_lookup]; [done|].
  destruct (decide (n.1 = f)) as [|Hn]; [done|].
  intros Hl. rewrite filter_cons_True by done. by rewrite IH.
Qed.

(** [fs::remove] of a path that does not name a directory. *)
Lemma fs_remove_file (f : path) (fsys : Filesystem) :
  fs_lookup f fsys ≠ Some DirectoryNode →
  fs_remove f fsys
  = (Returned (match fs_lookup f fsys with Some _ => true | None => false end),
     filter (fun node => node.1 ≠ f) fsys).
Proof.
  intros Hnd. unfold fs_remove.
  destruct (fs_lookup f fsys) as [[content| |]|] eqn:Hlook; try done.
  by rewrite filter_absent.
Qed.

(** The loop [for (const auto& fpath : purge) fs::remove(fpath)] over paths
    none of which names a directory: it returns, and the files named are
    gone. *)
Lemma remove_files_run (l : list path) (fsys : Filesystem) :
  (∀ f, f ∈ l → fs_lookup f fsys ≠ Some DirectoryNode) →
  remove_files l fsys
  = (Returned tt, filter (fun node => node.1 ∉ l) fsys).
Proof.
  unfold remove_files. revert fsys.
  induction l as [|a l IH]; intros fsys Hfiles.
  - rewrite filter_all; [reflexivity|]. intros x _. apply not_elem_of_nil.
  - cbn [for_each_FS].
    pose proof (fs_remove_file a fsys (Hfiles a (list_elem_of_here _ _))) as Hrm.
    cbv [mbind FS_bind mret FS_ret] in *. rewrite Hrm. cbn [fst snd].
    rewrite IH.
    + f_equal. rewrite list_filter_filter. apply list_filter_iff.
      intros node. rewrite not_elem_of_cons. tauto.
    + intros f Hin. rewrite fs_lookup_removed.
      destruct (decide (f = a)); [done|].
      apply Hfiles. by apply list_elem_of_further.
Qed.

Section LoaderRun.
Context `{ops : RouterContactOps}.

(** What the scan marks for removal is a regular file. *)
Lemma purged_regular_file (w : World) (fs : list path) (f : path) :
  f ∈ (scan_state w fs (∅, entries w)).1 →
  ∃ content, fs_lookup f (files_on_disk w) = Some (RegularFile content).
Proof.
  intros [Hin|[_ Hv]]%scan_state_purge; [by apply not_elem_of_empty in Hin|].
  unfold file_verdict in Hv.
  destruct (fs_lookup f (files_on_disk w)) as [[content| |]|];
    try discriminate Hv.
  by exists content.
Qed.

Lemma load_from_disk_run (w : World) :
  m_Root w ≠ [] →
  load_from_disk w
  = let st := scan_state w (scanned_paths (m_Root w) (files_on_disk w))
                (∅, entries w) in
    (Returned tt,
     set_files (filter (fun node => node.1 ∉ st.1) (files_on_disk w))
       (set_entries st.2 w)).
Proof.
  intros Hroot. apply path_empty_false in Hroot.
  unfold load_from_disk. rewrite bind_run.
  change (gets m_Root w) with (m_Root w, w). cbn [fst snd].
  rewrite Hroot, bind_run, load_scan_run. cbn zeta. cbn [fst snd].
  set (st := scan_state w (scanned_paths (m_Root w) (files_on_disk w)) (∅, entries w)).
  destruct (decide (st.1 = ∅)) as [Hempty|Hne].
  - rewrite Hempty. cbn [files_on_disk set_entries].
    rewrite filter_all by (intros; apply not_elem_of_empty).
    change (files_on_disk w) with (files_on_disk (set_entries st.2 w)).
    by rewrite set_files_id.
  - unfold on_files. cbn [files_on_disk set_entries].
    rewrite remove_files_run.
    + cbn [fst snd]. do 2 f_equal.
      apply list_filter_iff. intros node. by rewrite elem_of_elements.
    + intros f Hin%elem_of_elements.
      destruct (purged_regular_file w _ f Hin) as [content ->]. discriminate.
Qed.

Lemma load_from_disk_exec (w : World) :
  m_Root w ≠ [] →
  exec load_from_disk w
  = let st := scan_state w (scanned_paths (m_Root w) (files_on_disk w))
                (∅, entries w) in
    set_files (filter (fun node => node.1 ∉ st.1) (files_on_disk w))
      (set_entries st.2 w).
Proof. intros Hroot. unfold exec. by rewrite load_from_disk_run. Qed.

(** [load_from_disk] never throws: it removes regular files only. *)
Lemma load_from_disk_returns (w : World) :
  eval load_from_disk w = Returned tt.
Proof.
  destruct (decide (m_Root w = [])) as [Hroot|Hroot].
  - unfold eval, load_from_disk. rewrite bind_run.
    change (gets m_Root w) with (m_Root w, w). cbn [fst snd].
    apply path_empty_true in Hroot. by rewrite Hroot.
  - unfold eval. by rewrite load_from_disk_run.
Qed.
End LoaderRun.

Lemma fs_lookup_Some_elem (f : path) (fsys : Filesystem) (node : FileNode) :
  fs_lookup f fsys = Some node → f ∈ map fst fsys.
Proof.
  induction fsys as [|n fsys IH]; cbn [fs_lookup map]; [done|].
  destruct (decide (n.1 = f)) as [<-|].
  - intros _. apply list_elem_of_here.
  - intros Hl. apply list_elem_of_further. by apply IH.
Qed.

Lemma fs_lookup_purged (purge : gset path) (f : path) (fsys : Filesystem) :
  fs_lookup f (filter (fun node => node.1 ∉ purge) fsys)
  = if decide (f ∈ purge) then None else fs_lookup f fsys.
Proof.
  induction fsys as [|n fsys IH]; [by destruct (decide (f ∈ purge))|].
  rewrite filter_cons. cbn [fs_lookup].
  destruct (decide (n.1 ∉ purge)) as [Hn|Hn]; cbn [fs_lookup].
  - destruct (decide (n.1 = f)) as [<-|]; [by rewrite decide_False | exact IH].
  - apply dec_stable in Hn. rewrite IH.
    destruct (decide (f ∈ purge)) as [|Hf]; [done|].
    destruct (decide (n.1 = f)) as [Heq|]; [|done].
    by rewrite Heq in Hn.
Qed.

Lemma dir_entries_elem (sub f : path) (fsys : Filesystem) :
  f ∈ dir_entries sub fsys ↔ in_directory sub f ∧ f ∈ map fst fsys.
Proof.
  unfold dir_entries.
  change (map fst) with (fmap (M:=list) (@fst path FileNode)).
  rewrite !list_elem_of_fmap. split.
  - intros (node & -> & [Hdir Hin]%list_elem_of_filter). split; [done|].
    by exists node.
  - intros (Hdir & node & -> & Hin). exists node. split; [done|].
    by apply list_elem_of_filter.
Qed.

Lemma shard_char (ch : ascii) :
  ch ∈ hex_lut ↔ ch ∈ skiplist_subdirs ∧ Ascii.eqb ch zero = false.
Proof.
  change skiplist_subdirs with (hex_lut ++ [zero]).
  rewrite elem_of_app, list_elem_of_singleton. split.
  - intros Hin. split; [by left|]. apply Ascii.eqb_neq. intros ->.
    revert Hin. by apply (bool_decide_unpack (zero ∉ hex_lut)).
  - intros [[Hin| ->] Hz]; [done|]. by rewrite Ascii.eqb_refl in Hz.
Qed.

Lemma scanned_paths_elem (root f : path) (fsys : Filesystem) :
  f ∈ scanned_paths root fsys
  ↔ ∃ ch, ch ∈ hex_lut
          ∧ in_directory (path_div root (String ch EmptyString)) f
          ∧ f ∈ map fst fsys.
Proof.
  unfold scanned_paths. rewrite list_elem_of_In, in_flat_map. split.
  - intros (ch & Hch & Hin). apply list_elem_of_In in Hch, Hin.
    destruct (Ascii.eqb ch zero) eqn:Hz; [by apply elem_of_nil in Hin|].
    apply dir_entries_elem in Hin as [Hdir Hf].
    exists ch. split; [|done]. apply shard_char. by split.
  - intros (ch & Hch & Hdir & Hf). apply shard_char in Hch as [Hch Hz].
    exists ch. split; [by apply list_elem_of_In|]. rewrite Hz.
    apply list_elem_of_In, dir_entries_elem. by split.
Qed.

Section DecisionTable.
Context `{ops : RouterContactOps}.
Variable w : World.

Lemma candidate_scanned (f : path) (content : list byte) :
  candidate_file w f content →
  f ∈ scanned_paths (m_Root w) (files_on_disk w)
  ∧ path_extension f = RC_FILE_EXT.
Proof.
  intros (ch & name & Hch & -> & Hext & Hlook). split.
  - apply scanned_paths_elem. exists ch. split; [done|]. split.
    + unfold in_directory, path_div. split; [by destruct (m_Root w)|].
      change [String ch EmptyString; name]
        with ([String ch EmptyString] ++ [name]).
      by rewrite app_assoc, removelast_last.
    + by apply fs_lookup_Some_elem in Hlook.
  - unfold path_extension.
    change [String ch EmptyString; name]
      with ([String ch EmptyString] ++ [name]).
    by rewrite app_assoc, last_last.
Qed.

Lemma candidate_verdict (f : path) (content : list byte) :
  candidate_file w f content →
  file_verdict (files_on_disk w) (clock_ms w) f
  = match BDecode content with
    | None => Purge
    | Some c =>
        if negb (FromOurNetwork c) then Skip
        else if IsExpired c (clock_ms w) then Purge
        else if VerifySignature c then Admit c
        else Purge
    end.
Proof.
  intros Hcand. destruct (candidate_scanned f content Hcand) as [_ Hext].
  destruct Hcand as (ch & name & _ & _ & _ & Hlook).
  unfold file_verdict. by rewrite Hlook, bool_decide_eq_true_2.
Qed.

Lemma admit_loadable (f : path) (c : RouterContact) :
  f ∈ scanned_paths (m_Root w) (files_on_disk w) →
  file_verdict (files_on_disk w) (clock_ms w) f = Admit c →
  loadable_file w f c.
Proof.
  intros (ch & Hch & [Hne Hdir] & _)%scanned_paths_elem Hv.
  unfold file_verdict in Hv.
  destruct (fs_lookup f (files_on_disk w)) as [[content| |]|] eqn:Hlook;
    try discriminate Hv.
  destruct (bool_decide (path_extension f = RC_FILE_EXT)) eqn:Hext;
    [|discriminate Hv].
  apply bool_decide_eq_true_1 in Hext.
  destruct (BDecode content) as [c'|] eqn:Hdec; [|discriminate Hv].
  destruct (FromOurNetwork c') eqn:Hnet; [|discriminate Hv].
  destruct (IsExpired c' (clock_ms w)) eqn:Hexp; [discriminate Hv|].
  destruct (VerifySignature c') eqn:Hsig; [|discriminate Hv].
  cbn in Hv. injection Hv as ->.
  exists content. split; [|done].
  exists ch, (List.last f EmptyString). split; [done|].
  split; [|done].
  rewrite (app_removelast_last EmptyString Hne) at 1.
  rewrite Hdir. unfold path_div. by rewrite <- app_assoc.
Qed.

(** The world after the loader, file by file. *)
Lemma load_from_disk_file (f : path) :
  m_Root w ≠ [] →
  let st := scan_state w (scanned_paths (m_Root w) (files_on_disk w))
              (∅, entries w) in
  entries (exec load_from_disk w) = st.2
  ∧ fs_lookup f (files_on_disk (exec load_from_disk w))
    = if decide (f ∈ st.1) then None else fs_lookup f (files_on_disk w).
Proof.
  intros Hroot. rewrite load_from_disk_exec by done. cbn zeta.
  cbn [entries files_on_disk set_files set_entries]. split; [done|].
  apply fs_lookup_purged.
Qed.

Lemma rejected_not_admitted (c : RouterContact) :
  m_Root w ≠ [] → ¬ loadable w c → not_admitted w (exec load_from_disk w) c.
Proof.
  intros Hroot Hrej k e Hfind Hrc.
  destruct (load_from_disk_file [] Hroot) as [Hentries _].
  rewrite Hentries in Hfind.
  apply scan_state_origin in Hfind as [Hold|(f & c' & Hin & Hv & _ & ->)];
    [done|].
  cbn in Hrc. subst c'. destruct Hrej.
  by destruct (admit_loadable f c Hin Hv) as (content & _ & _ & Hload).
Qed.
End DecisionTable.

(** C3 (amended). For every candidate contact file, that is a regular file
    named [*.signed] in one of the sixteen shard directories, the loader
    decides in this order.  If the file does not decode, it is removed from
    the disk.  Else, if the contact is not from our network, the file stays
    on disk and the contact is not admitted, whether or not it is expired or
    its signature is valid.  Else, if the contact is expired at the current
    time or its signature is invalid, the file is removed from the disk and
    the contact is not admitted.  Otherwise the file stays on disk and the
    table holds an entry under the identity key of the contact: the contact
    itself, inserted at the current time, when the table had no entry under
    that key and no other loadable file carries another contact of that
    identity. *)
Theorem load_from_disk_decision_table `{RouterContactOps} (w : World)
    (f : path) (content : list byte) :
  m_Root w ≠ [] →
  candidate_file w f content →
  let w' := exec load_from_disk w in
  let purged := fs_lookup f (files_on_disk w') = None in
  let left_on_disk :=
    fs_lookup f (files_on_disk w') = Some (RegularFile content) in
  match BDecode content with
  | None => purged
  | Some c =>
      if FromOurNetwork c then
        if IsExpired c (clock_ms w) || negb (VerifySignature c)
        then purged ∧ not_admitted w w' c
        else
          left_on_disk
          ∧ ∃ e, table_find (pubkey c) (entries w') = Some e
                 ∧ (table_find (pubkey c) (entries w) = None →
                    (∀ f' c', loadable_file w f' c' →
                              pubkey c' = pubkey c → c' = c) →
                    e = mkEntry c (clock_ms w))
      else left_on_disk ∧ not_admitted w w' c
  end.
Proof.
  intros Hroot Hcand. cbn zeta.
  destruct (load_from_disk_file w f Hroot) as [Hentries Hfile].
  destruct (candidate_scanned w f content Hcand) as [Hscan _].
  pose proof (candidate_verdict w f content Hcand) as Hv.
  assert (Hlook : fs_lookup f (files_on_disk w) = Some (RegularFile content))
    by (by destruct Hcand as (? & ? & _ & _ & _ & ?)).
  rewrite Hfile, Hlook.
  set (st := scan_state w (scanned_paths (m_Root w) (files_on_disk w))
               (∅, entries w)) in *.
  assert (Hpurge : f ∈ st.1 ↔
            file_verdict (files_on_disk w) (clock_ms w) f = Purge).
  { unfold st. rewrite scan_state_purge. cbn [fst].
    split; [intros [Hin|[_ ?]]; [by apply not_elem_of_empty in Hin | done]|].
    intros Hp. right. by split. }
  destruct (BDecode content) as [c|] eqn:Hdec.
  - destruct (FromOurNetwork c) eqn:Hnet; cbn [negb] in Hv.
    + destruct (IsExpired c (clock_ms w)) eqn:Hexp; cbn [orb].
      * split; [by rewrite decide_True by (by apply Hpurge)|].
        apply rejected_not_admitted; [done|]. intros (_ & Hne & _). congruence.
      * destruct (VerifySignature c) eqn:Hsig; cbn [negb].
        -- split; [rewrite decide_False; [done|]; rewrite Hpurge; congruence|].
           destruct (scan_state_admits w _ (∅, entries w) f c Hscan Hv)
             as [e He].
           fold st in He. exists e. rewrite Hentries. split; [done|].
           intros Hnone Huniq.
           apply scan_state_origin in He as [Hold|(f' & c' & Hin & Hv' & Hk & ->)];
             [cbn [snd] in Hold; congruence|].
           f_equal. apply (Huniq f'); [by apply admit_loadable | done].
        -- split; [by rewrite decide_True by (by apply Hpurge)|].
           apply rejected_not_admitted; [done|]. intros (_ & _ & Hne). congruence.
    + split; [rewrite decide_False; [done|]; rewrite Hpurge; congruence|].
      apply rejected_not_admitted; [done|]. intros (Hne & _). congruence.
  - by rewrite decide_True by (by apply Hpurge).
Qed.

Lemma world_with_files_candidate (shard : ascii) (name : string)
    (content : list byte) :
  shard ∈ hex_lut →
  extension name = RC_FILE_EXT →
  fs_lookup (shard_file (String shard EmptyString) name)
    (files_on_disk world_with_files) = Some (RegularFile content) →
  candidate_file world_with_files
    (shard_file (String shard EmptyString) name) content.
Proof. intros Hshard Hext Hlook. by exists shard, name. Qed.

Lemma load_from_disk_decision_table_witness :
  (let w' := exec (@load_from_disk sample_ops) world_with_files in
   fs_lookup (shard_file "d" "junk.signed") (files_on_disk w') = None
   ∧ fs_lookup (shard_file "a" "first.signed") (files_on_disk w')
     = Some (rc_file xaa x05 xff x01))
  ∧ table_find (key_of xaa)
      (entries (exec (@load_from_disk sample_ops) world_one_file))
    = Some (mkEntry first_contact 100).
Proof.
  split; [split|].
  - apply (@load_from_disk_decision_table sample_ops world_with_files
             (shard_file "d" "junk.signed") [x00]); [discriminate|].
    apply (world_with_files_candidate "d" "junk.signed"); [|reflexivity..].
    apply list_elem_of_In. cbn. tauto.
  - apply (@load_from_disk_decision_table sample_ops world_with_files
             (shard_file "a" "first.signed") [xaa; x05; xff; x00; x01; x01]);
      [discriminate|].
    apply (world_with_files_candidate "a" "first.signed"); [|reflexivity..].
    apply list_elem_of_In. cbn. tauto.
  - assert (Hcand : candidate_file world_one_file
                      (shard_file "a" "first.signed")
                      [xaa; x05; xff; x00; x01; x01]).
    { exists "a"%char, "first.signed". split; [|done].
      apply list_elem_of_In. cbn. tauto. }
    destruct (@load_from_disk_decision_table sample_ops world_one_file
                (shard_file "a" "first.signed") [xaa; x05; xff; x00; x01; x01]
                ltac:(discriminate) Hcand) as [_ (e & He & Hentry)].
    change (pubkey _) with (key_of xaa) in He. rewrite He. f_equal.
    apply Hentry; [reflexivity|].
    intros f' c' (content & (ch & name & _ & _ & _ & Hlook) & Hdec & _) _.
    cbn in Hlook. destruct (decide (_ = f')); [|discriminate Hlook].
    injection Hlook as <-. cbn in Hdec. by injection Hdec as <-.
Defined.

(** C3, as first stated, fails twice on the files of [world_with_files].
    The contact of foreign.signed is expired at the current time, yet its
    file is left on disk: the network check comes first.  The contact of
    second.signed decodes, is of our network, is not expired and has a valid
    signature, yet the table does not hold it: [emplace] does not replace
    the entry that first.signed left under the same identity key. *)
Lemma load_from_disk_decision_table_counterexample :
  let w := world_with_files in
  let w' := exec (@load_from_disk sample_ops) w in
  (candidate_file w (shard_file "c" "foreign.signed")
     [xcc; x01; x05; x01; x01; x01]
   ∧ @BDecode sample_ops [xcc; x01; x05; x01; x01; x01] = Some foreign_contact
   ∧ @IsExpired sample_ops foreign_contact (clock_ms w) = true
   ∧ fs_lookup (shard_file "c" "foreign.signed") (files_on_disk w')
     = Some (foreign_rc_file xcc x01 x05 x01))
  ∧ (candidate_file w (shard_file "b" "second.signed")
       [xaa; x05; xff; x00; x02; x01]
     ∧ @BDecode sample_ops [xaa; x05; xff; x00; x02; x01] = Some second_contact
     ∧ @loadable sample_ops w second_contact
     ∧ entries w' = [(key_of xaa, mkEntry first_contact 100)]
     ∧ first_contact ≠ second_contact).
Proof.
  cbn zeta. split.
  - split; [|by split].
    apply (world_with_files_candidate "c" "foreign.signed"); [|reflexivity..].
    apply list_elem_of_In. cbn. tauto.
  - split; [|split; [reflexivity|split; [by repeat split|split; [reflexivity|discriminate]]]].
    apply (world_with_files_candidate "b" "second.signed"); [|reflexivity..].
    apply list_elem_of_In. cbn. tauto.
Qed.

(** ** The table invariant

    The tables that the mutation operations build have unique keys, and each
    contact is filed under its own public key. *)

Lemma table_find_None_keys (k : RouterID) (es : list (RouterID * Entry)) :
  table_find k es = None ↔ k ∉ map fst es.
Proof.
  induction es as [|item es IH]; cbn [table_find map].
  - split; [intros _; apply not_elem_of_nil | done].
  - rewrite not_elem_of_cons. destruct (decide (item.1 = k)) as [<-|Hne].
    + split; [done | tauto].
    + rewrite IH. split; [by split | tauto].
Qed.

Lemma table_erase_wf (k : RouterID) (es : list (RouterID * Entry)) :
  table_wf es → table_wf (table_erase k es).
Proof.
  unfold table_wf, table_erase. intros [Hnodup Hkeys]. split.
  - induction es as [|item es IH]; [constructor|].
    cbn [map] in Hnodup. apply NoDup_cons in Hnodup as [Hnotin Hnodup].
    rewrite filter_cons. destruct (decide (item.1 ≠ k)); [|by apply IH; [|eapply Forall_inv_tail]].
    cbn [map]. apply NoDup_cons. split.
    + intros Hin. apply Hnotin.
      change (map fst) with (fmap (M:=list) (@fst RouterID Entry)) in *.
      apply list_elem_of_fmap in Hin as (x & -> & Hx%list_elem_of_filter).
      apply list_elem_of_fmap. exists x. tauto.
    + apply IH; [done | by eapply Forall_inv_tail].
  - apply Forall_forall. intros item [_ Hin]%list_elem_of_filter.
    by apply (proj1 (Forall_forall _ _) Hkeys).
Qed.

Lemma table_emplace_wf (value : RouterContact) (t : Z)
    (es : list (RouterID * Entry)) :
  table_wf es → table_wf (table_emplace (pubkey value) (mkEntry value t) es).
Proof.
  unfold table_wf, table_emplace. intros [Hnodup Hkeys].
  destruct (table_find (pubkey value) es) eqn:Hfind; [done|].
  apply table_find_None_keys in Hfind. split.
  - rewrite map_app. apply NoDup_app. split; [done|]. split.
    + intros k Hk [->|Hin]%elem_of_cons; [done|]. by apply elem_of_nil in Hin.
    + apply NoDup_singleton.
  - apply Forall_app. split; [done|]. by constructor.
Qed.

(** [put_rc], [put_rc_if_newer], [remove_router] and [remove_stale_rcs] keep
    the table well formed. *)
Lemma mutations_keep_table_wf `{RouterContactOps} (w : World)
    (value : RouterContact) (pk : RouterID) (keep : gset RouterID) (cutoff : Z) :
  table_wf (entries w) →
  table_wf (entries (exec (put_rc value) w))
  ∧ table_wf (entries (exec (put_rc_if_newer value) w))
  ∧ table_wf (entries (exec (remove_router pk) w))
  ∧ table_wf (entries (exec (remove_stale_rcs keep cutoff) w)).
Proof.
  intros Hwf.
  assert (Hput : table_wf (entries (exec (put_rc value) w))).
  { unfold put_rc. run_M. cbn [entries set_entries].
    by apply table_emplace_wf, table_erase_wf. }
  split; [done|]. split; [|split].
  - rewrite put_rc_if_newer_exec.
    by destruct (match table_find (pubkey value) (entries w) with
                 | Some e => OtherIsNewer (rc e) value
                 | None => true
                 end).
  - rewrite remove_router_exec. cbn zeta.
    destruct (path_empty (m_Root w)); cbn [entries set_entries set_disk_jobs];
      by apply table_erase_wf.
  - rewrite remove_stale_rcs_exec. cbn zeta.
    assert (Hfilter : table_wf
              (filter (fun item => ¬ stale keep cutoff item) (entries w))).
    { destruct Hwf as [Hnodup Hkeys]. split.
      - change (map fst) with (fmap (M:=list) (@fst RouterID Entry)) in *.
        apply (NoDup_fmap_2_strong fst).
        + intros x y [_ Hx]%list_elem_of_filter [_ Hy]%list_elem_of_filter Hxy.
          revert x y Hx Hy Hxy. clear -Hnodup.
          induction (entries w) as [|a es IH]; intros x y Hx Hy Hxy.
          { by apply elem_of_nil in Hx. }
          cbn in Hnodup. apply NoDup_cons in Hnodup as [Ha Hnodup].
          apply elem_of_cons in Hx as [->|Hx], Hy as [->|Hy]; auto.
          * destruct Ha. rewrite Hxy. apply list_elem_of_fmap. by exists y.
          * destruct Ha. rewrite <- Hxy. apply list_elem_of_fmap. by exists x.
        + apply NoDup_filter. eapply NoDup_fmap_1. exact Hnodup.
      - apply Forall_forall. intros item [_ Hin]%list_elem_of_filter.
        by apply (proj1 (Forall_forall _ _) Hkeys). }
    destruct (decide (stale_ids keep cutoff (entries w) = ∅)); [done|].
    by destruct (path_empty (m_Root w)).
Qed.

(** * Further properties of the operations *)

(** ** Putting, removing and counting *)

Lemma table_erase_length (k : RouterID) (es : list (RouterID * Entry)) :
  NoDup (map fst es) →
  (length (table_erase k es)
   + match table_find k es with Some _ => 1 | None => 0 end = length es)%nat.
Proof.
  unfold table_erase. induction es as [|item es IH]; intros Hnodup; [reflexivity|].
  cbn [map] in Hnodup. apply NoDup_cons in Hnodup as [Hnotin Hnodup].
  rewrite filter_cons. cbn [table_find length].
  destruct (decide (item.1 ≠ k)) as [Hne|Heq].
  - rewrite decide_False by done. cbn [length]. specialize (IH Hnodup). lia.
  - apply dec_stable in Heq. rewrite decide_True by done.
    rewrite filter_all; [lia|].
    intros x Hx Hxk. apply Hnotin.
    change (map fst) with (fmap (M:=list) (@fst RouterID Entry)).
    apply list_elem_of_fmap. exists x. split; [congruence | done].
Qed.

(** X1. Putting a contact and then removing its identity leaves the table
    that removing alone would leave, and removing an identity before putting
    a contact for it changes nothing about the result of the put. *)
Theorem put_rc_remove_router_cancel (w : World) (value : RouterContact) :
  entries (exec (remove_router (pubkey value)) (exec (put_rc value) w))
  = entries (exec (remove_router (pubkey value)) w)
  ∧ eval (get_rc (pubkey value))
      (exec (remove_router (pubkey value)) (exec (put_rc value) w)) = None
  ∧ entries (exec (put_rc value) (exec (remove_router (pubkey value)) w))
    = entries (exec (put_rc value) w).
Proof.
  rewrite get_rc_eval, !remove_router_exec, !put_rc_exec. cbn zeta.
  cbn [m_Root set_entries entries].
  destruct (path_empty (m_Root w));
    cbn [m_Root set_entries set_disk_jobs entries clock_ms];
    rewrite ?table_erase_snoc_eq, ?table_erase_idemp, ?table_find_erase_eq;
    done.
Qed.

(** X2. In a table with unique keys, [put_rc] adds one entry when the
    identity is new and keeps the count when it replaces, and
    [remove_router] takes one entry away when the identity is stored and
    none otherwise. *)
Theorem num_loaded_put_remove (w : World) (value : RouterContact) (pk : RouterID) :
  NoDup (map fst (entries w)) →
  eval num_loaded (exec (put_rc value) w)
  = (if eval (has_router (pubkey value)) w
     then eval num_loaded w else S (eval num_loaded w))
  ∧ eval num_loaded (exec (remove_router pk) w)
    = (if eval (has_router pk) w
       then Nat.pred (eval num_loaded w) else eval num_loaded w).
Proof.
  intros Hnodup. rewrite !has_router_eval, put_rc_exec, remove_router_exec.
  change (eval num_loaded ?x) with (length (entries x)). cbn zeta.
  pose proof (table_erase_length (pubkey value) (entries w) Hnodup) as Hv.
  pose proof (table_erase_length pk (entries w) Hnodup) as Hpk.
  split.
  - cbn [entries set_entries]. rewrite length_app. cbn [length].
    destruct (table_find (pubkey value) (entries w)); lia.
  - destruct (path_empty (m_Root w)); cbn [entries set_entries set_disk_jobs];
      destruct (table_find pk (entries w)); lia.
Qed.

Lemma num_loaded_put_remove_witness :
  eval num_loaded (exec (put_rc contact_A) world_two_entries) = 3%nat
  ∧ eval num_loaded (exec (remove_router (key_of x11)) world_two_entries) = 1%nat.
Proof.
  apply (num_loaded_put_remove world_two_entries contact_A (key_of x11)).
  cbn. repeat constructor; rewrite ?elem_of_cons, ?elem_of_nil;
    intros Hin; repeat destruct Hin as [Hin|Hin]; try discriminate Hin; done.
Defined.

(** X3. [put_rc_if_newer] never loses an identity: afterwards the identity
    of the incoming contact is stored, with the incoming contact or with the
    one that was there, every other identity has the contact it had, and in
    a table with unique keys the count does not go down. *)
Theorem put_rc_if_newer_never_drops `{RouterContactOps} (w : World)
    (value : RouterContact) :
  let w' := exec (put_rc_if_newer value) w in
  (eval (get_rc (pubkey value)) w' = Some value
   ∨ (eval (get_rc (pubkey value)) w' = eval (get_rc (pubkey value)) w
      ∧ eval (has_router (pubkey value)) w = true))
  ∧ (∀ k, k ≠ pubkey value → eval (get_rc k) w' = eval (get_rc k) w)
  ∧ (NoDup (map fst (entries w)) →
     (eval num_loaded w ≤ eval num_loaded w')%nat).
Proof.
  cbn zeta. rewrite put_rc_if_newer_exec, has_router_eval.
  destruct (table_find (pubkey value) (entries w)) as [e|] eqn:Hfind.
  - destruct (OtherIsNewer (rc e) value).
    + rewrite put_rc_exec. split; [|split].
      * left. rewrite get_rc_eval. cbn [entries set_entries].
        rewrite table_find_snoc, table_find_erase_eq. by rewrite decide_True.
      * intros k Hk. rewrite !get_rc_eval. cbn [entries set_entries].
        rewrite table_find_snoc, table_find_erase_ne by done.
        destruct (table_find k (entries w)); [done|]. by rewrite decide_False.
      * intros Hnodup.
        pose proof (table_erase_length (pubkey value) (entries w) Hnodup) as Hv.
        change (eval num_loaded ?x) with (length (entries x)).
        cbn [entries set_entries]. rewrite length_app. cbn [length].
        rewrite Hfind in Hv. lia.
    + split; [by right|]. split; [done | lia].
  - rewrite put_rc_exec. split; [|split].
    + left. rewrite get_rc_eval. cbn [entries set_entries].
      rewrite table_find_snoc, table_find_erase_eq. by rewrite decide_True.
    + intros k Hk. rewrite !get_rc_eval. cbn [entries set_entries].
      rewrite table_find_snoc, table_find_erase_ne by done.
      destruct (table_find k (entries w)); [done|]. by rewrite decide_False.
    + intros Hnodup.
      pose proof (table_erase_length (pubkey value) (entries w) Hnodup) as Hv.
      change (eval num_loaded ?x) with (length (entries x)).
      cbn [entries set_entries]. rewrite length_app. cbn [length].
      rewrite Hfind in Hv. lia.
Qed.

Lemma put_rc_if_newer_never_drops_witness :
  eval (get_rc (key_of x11))
    (exec (@put_rc_if_newer sample_ops contact_A) world_two_entries)
  = eval (get_rc (key_of x11)) world_two_entries.
Proof.
  apply (@put_rc_if_newer_never_drops sample_ops world_two_entries contact_A).
  by vm_compute.
Defined.

(** ** Pruning again *)

Lemma filter_none {A : Type} (P : A → Prop) `{∀ x, Decision (P x)} (l : list A) :
  (∀ x, x ∈ l → ¬ P x) → filter P l = [].
Proof.
  induction l as [|a l IH]; intros Hall; [reflexivity|].
  rewrite filter_cons_False by (apply Hall; apply list_elem_of_here).
  apply IH. intros x Hx. apply Hall. by apply list_elem_of_further.
Qed.

Lemma table_find_filter (P : RouterID * Entry → Prop) `{∀ x, Decision (P x)}
    (k : RouterID) (e : Entry) (es : list (RouterID * Entry)) :
  table_find k es = Some e → (∀ k', P (k', e)) →
  table_find k (filter P es) = Some e.
Proof.
  intros Hfind HP. induction es as [|item es IH]; [done|].
  cbn [table_find] in Hfind. rewrite filter_cons.
  destruct (decide (item.1 = k)) as [Hk|Hk].
  - injection Hfind as <-. rewrite decide_True by (destruct item; apply HP).
    cbn [table_find]. by rewrite decide_True.
  - destruct (decide (P item)); [|by apply IH].
    cbn [table_find]. rewrite decide_False by done. by apply IH.
Qed.

(** X4. Pruning is idempotent: a second [remove_stale_rcs] with the same
    keep set and cutoff changes nothing, and in particular hands no second
    job to the disk thread. *)
Theorem remove_stale_rcs_idempotent (w : World) (keep : gset RouterID)
    (cutoff : Z) :
  exec (remove_stale_rcs keep cutoff)
    (exec (remove_stale_rcs keep cutoff) w)
  = exec (remove_stale_rcs keep cutoff) w.
Proof.
  set (kept := filter (fun item => ¬ stale keep cutoff item) (entries w)).
  assert (Hentries : entries (exec (remove_stale_rcs keep cutoff) w) = kept).
  { rewrite remove_stale_rcs_exec. cbn zeta.
    destruct (decide (stale_ids keep cutoff (entries w) = ∅)); [done|].
    by destruct (path_empty (m_Root w)). }
  rewrite (remove_stale_rcs_exec keep cutoff (exec (remove_stale_rcs keep cutoff) w)).
  cbn zeta. rewrite Hentries.
  assert (Hnone : stale_ids keep cutoff kept = ∅).
  { unfold stale_ids, kept. rewrite filter_none; [done|].
    by intros x [Hx _]%list_elem_of_filter. }
  rewrite decide_True by done.
  assert (Hsame : filter (fun item => ¬ stale keep cutoff item) kept = kept).
  { unfold kept. apply filter_all. by intros x [Hx _]%list_elem_of_filter. }
  rewrite Hsame, <- Hentries. apply set_entries_id.
Qed.

(** X5. What pruning spares: an entry whose contact's identity is in the
    keep set, or that was inserted at or after the cutoff, is still found
    under its key; so a contact put at the current time survives every
    pruning whose cutoff is not in the future, and a contact whose identity
    is in the keep set survives every pruning. *)
Theorem remove_stale_rcs_spares (w : World) (keep : gset RouterID) (cutoff : Z) :
  (∀ k e, table_find k (entries w) = Some e →
          cutoff ≤ insertedAt e ∨ pubkey (rc e) ∈ keep →
          table_find k (entries (exec (remove_stale_rcs keep cutoff) w)) = Some e)
  ∧ (∀ value,
       cutoff ≤ clock_ms w ∨ pubkey value ∈ keep →
       eval (get_rc (pubkey value))
         (exec (remove_stale_rcs keep cutoff) (exec (put_rc value) w))
       = Some value).
Proof.
  assert (Hspare : ∀ w0 k e,
            table_find k (entries w0) = Some e →
            cutoff ≤ insertedAt e ∨ pubkey (rc e) ∈ keep →
            table_find k (entries (exec (remove_stale_rcs keep cutoff) w0))
            = Some e).
  { intros w0 k e Hfind Hsafe.
    assert (Hentries : entries (exec (remove_stale_rcs keep cutoff) w0)
              = filter (fun item => ¬ stale keep cutoff item) (entries w0)).
    { rewrite remove_stale_rcs_exec. cbn zeta.
      destruct (decide (stale_ids keep cutoff (entries w0) = ∅)); [done|].
      by destruct (path_empty (m_Root w0)). }
    rewrite Hentries. apply table_find_filter; [done|].
    intros k' [Ht Hk]. cbn [snd] in Ht, Hk. destruct Hsafe; [lia | done]. }
  split; [apply Hspare|].
  intros value Hsafe. rewrite get_rc_eval.
  rewrite (Hspare (exec (put_rc value) w) (pubkey value)
             (mkEntry value (clock_ms w))); [done | | done].
  rewrite put_rc_exec. cbn [entries set_entries].
  rewrite table_find_snoc, table_find_erase_eq. by rewrite decide_True.
Qed.

Lemma remove_stale_rcs_spares_witness :
  eval (get_rc (pubkey contact_A))
    (exec (remove_stale_rcs ∅ 1000) (exec (put_rc contact_A) world_two_entries))
  = Some contact_A.
Proof.
  apply (proj2 (remove_stale_rcs_spares world_two_entries ∅ 1000) contact_A).
  left. cbn. lia.
Defined.

(** ** The flush deadline catches up one interval per tick *)

Lemma Tick_iter_step (now : Z) (n : nat) (w : World) :
  Nat.iter (S n) (exec (Tick now)) w = exec (Tick now) (Nat.iter n (exec (Tick now)) w).
Proof. reflexivity. Qed.

(** X6. With a positive deadline that [now] has passed, repeated ticks at
    the same time [now] flush once each and move the deadline by one
    interval each, until the deadline has reached [now]: after [n] ticks the
    number of flush jobs queued and the number of intervals added are both
    the smaller of [n] and the number of intervals the deadline was behind.
    The table is never changed. *)
Theorem Tick_catches_up (w : World) (now : Z) (n : nat) :
  0 < m_NextFlushAt w →
  let behind :=
    Z.to_nat ((now - m_NextFlushAt w + FlushInterval - 1) / FlushInterval) in
  let wn := Nat.iter n (exec (Tick now)) w in
  m_NextFlushAt wn
  = m_NextFlushAt w + FlushInterval * Z.of_nat (Nat.min n behind)
  ∧ length (disk_jobs wn) = (length (disk_jobs w) + Nat.min n behind)%nat
  ∧ entries wn = entries w.
Proof.
  intros Hpos. cbn zeta.
  set (next := m_NextFlushAt w) in *.
  set (q := (now - next + FlushInterval - 1) / FlushInterval).
  assert (HI : FlushInterval = 300000) by reflexivity.
  assert (Hq1 : FlushInterval * q ≤ now - next + FlushInterval - 1).
  { unfold q. apply Z.mul_div_le. lia. }
  assert (Hq2 : now - next + FlushInterval - 1 < FlushInterval * q + FlushInterval).
  { unfold q. pose proof (Z.mul_succ_div_gt (now - next + FlushInterval - 1)
                            FlushInterval ltac:(lia)). lia. }
  induction n as [|n IH]; [cbn; split; [lia|split; [lia|done]]|].
  rewrite Tick_iter_step, Tick_exec.
  destruct IH as (Hnext & Hjobs & Hentries).
  set (wn := Nat.iter n (exec (Tick now)) w) in *.
  assert (Hnz : m_NextFlushAt wn ≠ 0) by lia.
  rewrite decide_False by done.
  destruct (decide (now > m_NextFlushAt wn)) as [Hpast|Hnot].
  - cbn [m_NextFlushAt set_NextFlushAt set_disk_jobs disk_jobs entries].
    rewrite length_app. cbn [length].
    assert (Hlt : (n < Z.to_nat q)%nat) by lia.
    split; [|split]; [lia | lia | done].
  - assert (Hge : (Z.to_nat q ≤ n)%nat) by lia.
    split; [|split]; [lia | lia | done].
Qed.

Lemma Tick_catches_up_witness :
  let wn := Nat.iter 5 (exec (Tick 1000001)) world_two_entries in
  m_NextFlushAt wn = 400000 + FlushInterval * 3
  ∧ length (disk_jobs wn) = 3%nat
  ∧ entries wn = entries world_two_entries.
Proof.
  apply (Tick_catches_up world_two_entries 1000001 5). reflexivity.
Defined.

(** ** The two nearest-neighbour queries agree *)

Lemma closest_scan_from_default (location : Key_t) (es : list (RouterID * Entry)) :
  es ≠ [] →
  Forall (fun item => IsZero (pubkey (rc item.2)) = false) es →
  (∃ item, item ∈ es
           ∧ rc item.2 = closest_scan location es RouterContact_default)
  ∧ Forall (fun item =>
              (xor_distance location
                 (pubkey (closest_scan location es RouterContact_default))
               ≤ xor_distance location (pubkey (rc item.2)))%N) es.
Proof.
  intros Hne Hnz. destruct es as [|item es]; [done|]. clear Hne.
  apply Forall_cons in Hnz as [Hitem Hnz].
  change (closest_scan location (item :: es) RouterContact_default)
    with (closest_scan location es (rc item.2)).
  destruct (closest_scan_invariant location es (rc item.2) Hnz Hitem)
    as (Hin & Hle & Hall).
  split.
  - destruct Hin as [->|(it & Hit & Heq)].
    + exists item. split; [apply list_elem_of_here | reflexivity].
    + exists it. split; [by apply list_elem_of_further | done].
  - by constructor.
Qed.

(** X7. [find_many_closest_to] with a count of zero returns nothing.  With
    a positive count, on a table that is not empty and stores no all-zero
    key, its first contact is as near to the target as the contact that
    [find_closest_to] returns. *)
Theorem find_many_closest_to_head (w : World) (location : Key_t)
    (numRouters : nat) :
  eval (find_many_closest_to location 0) w = []
  ∧ (entries w ≠ [] →
     (∀ item, item ∈ entries w → IsZero (pubkey (rc item.2)) = false) →
     (0 < numRouters)%nat →
     ∃ c rest,
       eval (find_many_closest_to location numRouters) w = c :: rest
       ∧ xor_distance location (pubkey c)
         = xor_distance location (pubkey (eval (find_closest_to location) w))).
Proof.
  split; [by rewrite find_many_closest_to_eval|].
  intros Hne Hnz Hpos. apply Forall_forall in Hnz.
  destruct (closest_scan_from_default location (entries w) Hne Hnz)
    as ((best_item & Hbest_in & Hbest) & Hbest_min).
  rewrite find_closest_to_eval, find_many_closest_to_eval. cbn zeta.
  set (all := map (fun item => rc item.2) (entries w)).
  set (d := fun c => xor_distance location (pubkey c)).
  set (mid := Nat.min numRouters (length all)).
  assert (Hlen : (0 < length all)%nat).
  { unfold all. rewrite length_map. destruct (entries w); [done | cbn; lia]. }
  assert (Hmid : (mid ≤ length all)%nat) by (unfold mid; lia).
  pose proof (partial_sort_perm (XorMetric_rc location) mid all) as Hperm.
  pose proof (partial_sort_sorted d (XorMetric_rc location)
                (fun _ _ => eq_refl) mid all Hmid) as [Hsorted Hcross].
  set (sorted := partial_sort (XorMetric_rc location) mid all) in *.
  destruct (take mid sorted) as [|c rest] eqn:Htake.
  { apply (f_equal length) in Htake. rewrite length_take in Htake.
    rewrite (Permutation_length Hperm) in Htake. cbn in Htake. lia. }
  exists c, rest. split; [done|].
  assert (Hc_in : c ∈ all).
  { rewrite <- Hperm, <- (take_drop mid sorted), Htake.
    apply elem_of_app. left. apply list_elem_of_here. }
  assert (Hc_min : ∀ x, x ∈ all → (d c ≤ d x)%N).
  { intros x Hx. rewrite <- Hperm, <- (take_drop mid sorted), Htake in Hx.
    apply elem_of_app in Hx as [Hx|Hx].
    - apply elem_of_cons in Hx as [->|Hx]; [lia|].
      apply StronglySorted_inv in Hsorted as [_ Hhd].
      by apply (proj1 (Forall_forall _ _) Hhd).
    - apply Hcross; [apply list_elem_of_here | done]. }
  apply N.le_antisymm.
  - apply Hc_min. unfold all. rewrite <- Hbest.
    change (map (fun item => rc item.2) (entries w))
      with ((fun item : RouterID * Entry => rc item.2) <$> entries w).
    apply list_elem_of_fmap. by exists best_item.
  - unfold all in Hc_in.
    change (map (fun item => rc item.2) (entries w))
      with ((fun item : RouterID * Entry => rc item.2) <$> entries w) in Hc_in.
    apply list_elem_of_fmap in Hc_in as (item & -> & Hitem).
    by apply (proj1 (Forall_forall _ _) Hbest_min).
Qed.

Lemma find_many_closest_to_head_witness :
  ∃ c rest,
    eval (find_many_closest_to (key_last x03) 2) world_three_keys = c :: rest
    ∧ xor_distance (key_last x03) (pubkey c)
      = xor_distance (key_last x03)
          (pubkey (eval (find_closest_to (key_last x03)) world_three_keys)).
Proof.
  apply (proj2 (find_many_closest_to_head world_three_keys (key_last x03) 2)).
  - discriminate.
  - intros item Hin. cbn [entries world_three_keys] in Hin.
    repeat (apply elem_of_cons in Hin as [->|Hin]; [reflexivity|]).
    by apply elem_of_nil in Hin.
  - lia.
Defined.

(** ** An exact match is the nearest *)

Lemma be_value_acc_zero (l : list N) (acc : N) :
  fold_left (fun acc x => (acc * 256 + x)%N) l acc = 0%N
  ↔ acc = 0%N ∧ Forall (fun x => x = 0%N) l.
Proof.
  revert acc. induction l as [|x l IH]; intros acc; cbn [fold_left].
  - split; [by split | by intros []].
  - rewrite IH, Forall_cons. split.
    + intros [Hacc Hl]. split; [lia|]. split; [lia | done].
    + intros (-> & -> & Hl). by split.
Qed.

Lemma byte_to_N_inj (a b : byte) : Byte.to_N a = Byte.to_N b → a = b.
Proof.
  intros Heq. pose proof (Byte.of_to_N a) as Ha.
  rewrite Heq, Byte.of_to_N in Ha. by injection Ha.
Qed.

(** The distance is zero exactly between a key and itself. *)
Lemma xor_distance_zero (a b : Key_t) :
  length a = length b → (xor_distance a b = 0%N ↔ a = b).
Proof.
  unfold xor_distance, be_value, xor_bytes. rewrite be_value_acc_zero.
  revert b. induction a as [|x a IH]; intros [|y b] Hlen; try discriminate Hlen.
  - split; [done | by split].
  - cbn [zip_with]. rewrite Forall_cons. injection Hlen as Hlen.
    specialize (IH b Hlen). split.
    + intros (_ & Hx & Hl). apply N.lxor_eq in Hx. apply byte_to_N_inj in Hx.
      f_equal; [done|]. apply IH. by split.
    + intros [= -> ->]. split; [done|]. split; [apply N.lxor_nilpotent|].
      by apply IH.
Qed.

(** X8. When the target is the key of a stored contact, in a table whose
    keys have the length of the target and are not all-zero,
    [find_closest_to] returns a contact with exactly that key; in a
    well-formed table it is the contact that [get_rc] returns for the
    target. *)
Theorem find_closest_to_exact_match (w : World) (location : Key_t) :
  (∀ item, item ∈ entries w →
           IsZero (pubkey (rc item.2)) = false
           ∧ length (pubkey (rc item.2)) = length location) →
  (∃ item, item ∈ entries w ∧ pubkey (rc item.2) = location) →
  pubkey (eval (find_closest_to location) w) = location
  ∧ (table_wf (entries w) →
     eval (get_rc location) w = Some (eval (find_closest_to location) w)).
Proof.
  intros Hkeys (hit & Hhit_in & Hhit).
  assert (Hne : entries w ≠ []) by (intros Hnil; rewrite Hnil in Hhit_in;
                                     by apply elem_of_nil in Hhit_in).
  assert (Hnz : Forall (fun item => IsZero (pubkey (rc item.2)) = false) (entries w)).
  { apply Forall_forall. intros item Hin. by apply Hkeys. }
  destruct (closest_scan_from_default location (entries w) Hne Hnz)
    as ((best_item & Hbest_in & Hbest) & Hbest_min).
  rewrite find_closest_to_eval, <- Hbest.
  assert (Hkey : pubkey (rc best_item.2) = location).
  { symmetry. apply xor_distance_zero.
    - symmetry. by apply Hkeys.
    - pose proof (proj1 (Forall_forall _ _) Hbest_min hit Hhit_in) as Hle.
      cbv beta in Hle. rewrite <- Hbest, Hhit in Hle.
      rewrite (proj2 (xor_distance_zero location location eq_refl) eq_refl) in Hle.
      lia. }
  split; [done|].
  intros [Hnodup Hfiled]. rewrite get_rc_eval.
  assert (Hfind : table_find best_item.1 (entries w) = Some best_item.2).
  { clear -Hnodup Hbest_in. induction (entries w) as [|item es IH].
    - by apply elem_of_nil in Hbest_in.
    - cbn [map] in Hnodup. apply NoDup_cons in Hnodup as [Hnotin Hnodup].
      cbn [table_find]. apply elem_of_cons in Hbest_in as [->|Hin].
      + by rewrite decide_True.
      + rewrite decide_False; [by apply IH|].
        intros Heq. apply Hnotin. rewrite Heq.
        change (map fst) with (fmap (M:=list) (@fst RouterID Entry)).
        apply list_elem_of_fmap. by exists best_item. }
  rewrite <- Hkey.
  rewrite <- (proj1 (Forall_forall _ _) Hfiled best_item Hbest_in).
  by rewrite Hfind.
Qed.

Lemma find_closest_to_exact_match_witness :
  pubkey (eval (find_closest_to (key_last x02)) world_three_keys) = key_last x02.
Proof.
  apply (find_closest_to_exact_match world_three_keys (key_last x02)).
  - intros item Hin. cbn [entries world_three_keys] in Hin.
    repeat (apply elem_of_cons in Hin as [->|Hin]; [by split|]).
    by apply elem_of_nil in Hin.
  - exists (key_last x02, mkEntry (contact_last x02) 100).
    split; [|reflexivity].
    cbn [entries world_three_keys]. apply list_elem_of_further,
      list_elem_of_further, list_elem_of_here.
Defined.

(** ** More about the loader *)

Section LoaderMore.
Context `{ops : RouterContactOps}.

Lemma scan_state_wf (w : World) (fs : list path)
    (st : gset path * list (RouterID * Entry)) :
  table_wf st.2 → table_wf (scan_state w fs st).2.
Proof.
  unfold scan_state. revert st.
  induction fs as [|f fs IH]; intros st Hwf; cbn [fold_left]; [done|].
  apply IH. unfold visit_pure.
  destruct (file_verdict (files_on_disk w) (clock_ms w) f); cbn [snd]; try done.
  by apply table_emplace_wf.
Qed.

(** A scan that meets no file to purge and only contacts whose identity is
    already in the table changes nothing. *)
Lemma scan_state_fixed (w : World) (fs : list path) (purge : gset path)
    (es : list (RouterID * Entry)) :
  (∀ f, f ∈ fs →
        file_verdict (files_on_disk w) (clock_ms w) f ≠ Purge
        ∧ ∀ c, file_verdict (files_on_disk w) (clock_ms w) f = Admit c →
               is_Some (table_find (pubkey c) es)) →
  scan_state w fs (purge, es) = (purge, es).
Proof.
  unfold scan_state. induction fs as [|f fs IH]; intros Hfs; [done|].
  cbn [fold_left].
  destruct (Hfs f (list_elem_of_here _ _)) as [Hnp Hadm].
  assert (Hstep : visit_pure (files_on_disk w) (clock_ms w) f (purge, es)
                  = (purge, es)).
  { unfold visit_pure.
    destruct (file_verdict (files_on_disk w) (clock_ms w) f) as [| | |c];
      try done.
    cbn [fst snd]. destruct (Hadm c eq_refl) as [e He].
    unfold table_emplace. by rewrite He. }
  rewrite Hstep. apply IH. intros f' Hf'. apply Hfs. by apply list_elem_of_further.
Qed.
End LoaderMore.

(** X9. What [load_from_disk] never does.  It hands nothing to the disk
    thread and leaves the root, the flush deadline and the clock alone; it
    never replaces or drops an entry that the table holds; it never creates
    a file; and it never removes a node that is not a regular file, does not
    have the extension [.signed], or lies outside the sixteen shard
    directories.  With an empty root path it does nothing at all. *)
Theorem load_from_disk_frame `{RouterContactOps} (w : World) :
  let w' := exec load_from_disk w in
  (m_Root w' = m_Root w ∧ m_NextFlushAt w' = m_NextFlushAt w
   ∧ disk_jobs w' = disk_jobs w ∧ clock_ms w' = clock_ms w)
  ∧ (∀ k e, table_find k (entries w) = Some e →
            table_find k (entries w') = Some e)
  ∧ (∀ f, fs_lookup f (files_on_disk w) = None →
          fs_lookup f (files_on_disk w') = None)
  ∧ (∀ f node,
       fs_lookup f (files_on_disk w) = Some node →
       (∀ content, node ≠ RegularFile content)
       ∨ path_extension f ≠ RC_FILE_EXT
       ∨ (∀ ch, ch ∈ hex_lut →
                ¬ in_directory (path_div (m_Root w) (String ch EmptyString)) f) →
       fs_lookup f (files_on_disk w') = Some node)
  ∧ (m_Root w = [] → w' = w).
Proof.
  cbn zeta. destruct (m_Root w) as [|c0 root] eqn:Hroot.
  { assert (Hsame : exec load_from_disk w = w).
    { unfold load_from_disk, exec. rewrite bind_run.
      change (gets m_Root w) with (m_Root w, w). cbn [fst snd].
      by rewrite Hroot. }
    rewrite Hsame, Hroot. repeat split; auto. }
  assert (Hne : m_Root w ≠ []) by (by rewrite Hroot).
  rewrite <- Hroot. rewrite load_from_disk_exec by done. cbn zeta.
  set (st := scan_state w (scanned_paths (m_Root w) (files_on_disk w))
               (∅, entries w)).
  cbn [m_Root m_NextFlushAt disk_jobs clock_ms entries files_on_disk
       set_files set_entries].
  split; [done|]. split; [|split; [|split]].
  - intros k e Hfind. by apply scan_state_keeps.
  - intros f Hnone. rewrite fs_lookup_purged, Hnone. by destruct (decide (f ∈ st.1)).
  - intros f node Hlook Hwhy. rewrite fs_lookup_purged, Hlook.
    rewrite decide_False; [done|].
    unfold st. rewrite scan_state_purge. cbn [fst].
    intros [Hin|[Hscan Hv]]; [by apply not_elem_of_empty in Hin|].
    unfold file_verdict in Hv. rewrite Hlook in Hv.
    destruct Hwhy as [Hnode|[Hext|Hdir]].
    + destruct node as [content| |]; try discriminate Hv. by destruct (Hnode content).
    + destruct node as [content| |]; try discriminate Hv.
      by rewrite bool_decide_eq_false_2 in Hv.
    + apply scanned_paths_elem in Hscan as (ch & Hch & Hin & _).
      by apply (Hdir ch).
  - intros Hempty. by rewrite Hempty in Hne.
Qed.

Lemma load_from_disk_frame_witness :
  fs_lookup (shard_file "e" "notes.txt")
    (files_on_disk (exec (@load_from_disk sample_ops) world_with_files))
  = Some (RegularFile [x00]).
Proof.
  apply (@load_from_disk_frame sample_ops world_with_files); [reflexivity|].
  right. left. by vm_compute.
Defined.

(** X10. After [load_from_disk] on an empty table every stored contact has
    passed the checks: it is of our network, not expired at the time of the
    load and carries a valid signature; it is stored under its own public
    key with the time of the load as insertion time, and it was decoded from
    a candidate file that is still on disk. *)
Theorem load_from_disk_only_valid `{RouterContactOps} (w : World)
    (k : RouterID) (e : Entry) :
  entries w = [] →
  table_find k (entries (exec load_from_disk w)) = Some e →
  loadable w (rc e)
  ∧ k = pubkey (rc e)
  ∧ insertedAt e = clock_ms w
  ∧ ∃ f content,
      candidate_file w f content
      ∧ BDecode content = Some (rc e)
      ∧ fs_lookup f (files_on_disk (exec load_from_disk w))
        = Some (RegularFile content).
Proof.
  intros Hempty Hfind.
  destruct (decide (m_Root w = [])) as [Hroot|Hroot].
  { assert (Hsame : exec load_from_disk w = w).
    { unfold load_from_disk, exec. rewrite bind_run.
      change (gets m_Root w) with (m_Root w, w). cbn [fst snd].
      by rewrite Hroot. }
    rewrite Hsame, Hempty in Hfind. discriminate Hfind. }
  destruct (load_from_disk_file w [] Hroot) as [Hentries _].
  rewrite Hentries in Hfind.
  apply scan_state_origin in Hfind as [Hold|(f & c & Hin & Hv & -> & ->)].
  { cbn [snd] in Hold. rewrite Hempty in Hold. discriminate Hold. }
  destruct (admit_loadable w f c Hin Hv) as (content & Hcand & Hdec & Hload).
  cbn [rc insertedAt]. split; [done|]. split; [done|]. split; [done|].
  exists f, content. split; [done|]. split; [done|].
  destruct (load_from_disk_file w f Hroot) as [_ Hfile].
  rewrite Hfile.
  assert (Hlook : fs_lookup f (files_on_disk w) = Some (RegularFile content))
    by (by destruct Hcand as (? & ? & _ & _ & _ & ?)).
  rewrite decide_False; [done|].
  rewrite scan_state_purge. cbn [fst].
  intros [Hp|[_ Hp]]; [by apply not_elem_of_empty in Hp | congruence].
Qed.

Lemma load_from_disk_only_valid_witness :
  @loadable sample_ops world_one_file first_contact.
Proof.
  apply (@load_from_disk_only_valid sample_ops world_one_file (key_of xaa)
           (mkEntry first_contact 100)); reflexivity.
Defined.

(** X11. [load_from_disk] keeps the table well formed (unique keys, every
    contact under its own public key), and loading twice with the clock
    unchanged is the same as loading once: the second pass finds nothing
    left to purge and no identity to add. *)
Theorem load_from_disk_idempotent `{RouterContactOps} (w : World) :
  (table_wf (entries w) → table_wf (entries (exec load_from_disk w)))
  ∧ exec load_from_disk (exec load_from_disk w) = exec load_from_disk w.
Proof.
  destruct (decide (m_Root w = [])) as [Hroot|Hroot].
  { assert (Hsame : exec load_from_disk w = w).
    { unfold load_from_disk, exec. rewrite bind_run.
      change (gets m_Root w) with (m_Root w, w). cbn [fst snd].
      by rewrite Hroot. }
    by rewrite !Hsame. }
  split.
  - intros Hwf. destruct (load_from_disk_file w [] Hroot) as [-> _].
    by apply scan_state_wf.
  - set (w' := exec load_from_disk w).
    assert (Hw' : w' = set_files
              (filter (fun node => node.1 ∉
                         (scan_state w (scanned_paths (m_Root w) (files_on_disk w))
                            (∅, entries w)).1) (files_on_disk w))
              (set_entries
                 (scan_state w (scanned_paths (m_Root w) (files_on_disk w))
                    (∅, entries w)).2 w))
      by (by apply load_from_disk_exec).
    set (st := scan_state w (scanned_paths (m_Root w) (files_on_disk w))
                 (∅, entries w)) in *.
    assert (Hroot' : m_Root w' = m_Root w) by (by rewrite Hw').
    assert (Hclock' : clock_ms w' = clock_ms w) by (by rewrite Hw').
    assert (Hfiles' : files_on_disk w'
              = filter (fun node => node.1 ∉ st.1) (files_on_disk w))
      by (by rewrite Hw').
    assert (Hentries' : entries w' = st.2) by (by rewrite Hw').
    rewrite (load_from_disk_exec w') by (by rewrite Hroot').
    cbn zeta. rewrite scan_state_fixed.
    + cbn [fst snd]. rewrite filter_all by (intros; apply not_elem_of_empty).
      by rewrite set_entries_id, set_files_id.
    + intros f Hf.
      apply scanned_paths_elem in Hf as (ch & Hch & Hdir & Hin).
      rewrite Hroot' in Hdir. rewrite Hfiles' in Hin.
      change (map fst) with (fmap (M:=list) (@fst path FileNode)) in Hin.
      apply list_elem_of_fmap in Hin as (node & -> & [Hkeep Hnode]%list_elem_of_filter).
      assert (Hscan : node.1 ∈ scanned_paths (m_Root w) (files_on_disk w)).
      { apply scanned_paths_elem. exists ch. split; [done|]. split; [done|].
        change (map fst) with (fmap (M:=list) (@fst path FileNode)).
        apply list_elem_of_fmap. by exists node. }
      assert (Hv : file_verdict (files_on_disk w') (clock_ms w') node.1
                   = file_verdict (files_on_disk w) (clock_ms w) node.1).
      { unfold file_verdict. rewrite Hfiles', Hclock', fs_lookup_purged.
        by rewrite decide_False. }
      rewrite Hv. split.
      * intros Hp. apply Hkeep. unfold st. apply scan_state_purge.
        right. by split.
      * intros c Hc. rewrite Hentries'. by apply scan_state_admits with node.1.
Qed.

Lemma load_from_disk_idempotent_witness :
  table_wf (entries (exec (@load_from_disk sample_ops) world_with_files)).
Proof.
  apply (@load_from_disk_idempotent sample_ops world_with_files).
  split; constructor.
Defined.

(** * The archive initialiser *)

(** Unfolds the file-system monad down to pairs and projections. *)
Ltac run_FS :=
  cbv [mbind mret FS_bind FS_ret fs_exists fs_is_directory fs_throw] in *;
  cbn [fst snd negb] in *.

Lemma FS_bind_run {A B : Type} (m : FS A) (k : A → FS B) (fsys : Filesystem) :
  (m ≫= k) fsys
  = match (m fsys).1 with
    | Returned a => k a (m fsys).2
    | Thrown e => (Thrown e, (m fsys).2)
    end.
Proof. reflexivity. Qed.

Lemma fs_lookup_snoc (q p : path) (node : FileNode) (fsys : Filesystem) :
  fs_lookup q (fsys ++ [(p, node)])
  = match fs_lookup q fsys with
    | Some n => Some n
    | None => if decide (p = q) then Some node else None
    end.
Proof.
  induction fsys as [|n fsys IH]; [reflexivity|].
  cbn [app fs_lookup]. by destruct (decide (n.1 = q)).
Qed.

(** [create_directory] either leaves the files alone or adds the directory
    it was asked for. *)
Lemma fs_create_directory_spec (p : path) (fsys : Filesystem) :
  (fs_create_directory p fsys).2 = fsys
  ∧ ((fs_create_directory p fsys).1 = Returned false
       ∧ fs_lookup p fsys = Some DirectoryNode
     ∨ ∃ e, (fs_create_directory p fsys).1 = Thrown e)
  ∨ fs_create_directory p fsys = (Returned true, fsys ++ [(p, DirectoryNode)])
    ∧ fs_lookup p fsys = None ∧ p ≠ [] ∧ parent_is_directory p fsys = true.
Proof.
  unfold fs_create_directory. destruct p as [|c p].
  { left. split; [done|]. right. by eexists. }
  destruct (fs_lookup (c :: p) fsys) as [[content| |]|] eqn:Hlook.
  - left. split; [done|]. right. by eexists.
  - left. split; [done|]. by left.
  - left. split; [done|]. right. by eexists.
  - destruct (parent_is_directory (c :: p) fsys) eqn:Hparent.
    + by right.
    + left. split; [done|]. right. by eexists.
Qed.

Section ShardLoop.
Variable nodedbDir : path.

(** One step of the loop: nothing changes, or the shard directory is added;
    when the step returns, the shard directory is a directory. *)
Lemma create_shard_spec (ch : ascii) (fsys : Filesystem) :
  Ascii.eqb ch zero = true ∧ create_shard nodedbDir ch fsys = (Returned tt, fsys)
  ∨ Ascii.eqb ch zero = false
    ∧ ((∃ e, create_shard nodedbDir ch fsys = (Thrown e, fsys))
       ∨ create_shard nodedbDir ch fsys = (Returned tt, fsys)
         ∧ fs_lookup (path_div nodedbDir (String ch EmptyString)) fsys
           = Some DirectoryNode
       ∨ create_shard nodedbDir ch fsys
         = (Returned tt,
            fsys ++ [(path_div nodedbDir (String ch EmptyString), DirectoryNode)])
         ∧ fs_lookup (path_div nodedbDir (String ch EmptyString)) fsys = None).
Proof.
  unfold create_shard. destruct (Ascii.eqb ch zero) eqn:Hz; [by left|].
  right. split; [done|]. cbn zeta. rewrite FS_bind_run.
  destruct (fs_create_directory_spec
              (path_div nodedbDir (String ch EmptyString)) fsys)
    as [[Hsame [[Hret Hdir]|[e He]]]|(Hmade & Hnone & _)].
  - right. left. rewrite Hret, Hsame. by split.
  - left. exists e. by rewrite He, Hsame.
  - right. right. rewrite Hmade. by split.
Qed.

(** The loop only adds shard directories: whatever its outcome, every node
    that was there is there afterwards, and every node that is there
    afterwards was there or is a shard directory. *)
Lemma shard_loop_adds (chs : list ascii) (fsys : Filesystem) :
  let r := for_each_FS chs (create_shard nodedbDir) fsys in
  (∀ q node, fs_lookup q fsys = Some node → fs_lookup q r.2 = Some node)
  ∧ (∀ q node, fs_lookup q r.2 = Some node →
       fs_lookup q fsys = Some node
       ∨ node = DirectoryNode
         ∧ ∃ ch, ch ∈ chs ∧ Ascii.eqb ch zero = false
                 ∧ q = path_div nodedbDir (String ch EmptyString)).
Proof.
  cbn zeta. revert fsys. induction chs as [|ch chs IH]; intros fsys.
  - cbn. split; [done|]. intros q node Hq. by left.
  - cbn [for_each_FS]. rewrite FS_bind_run.
    assert (Hlater : ∀ q node,
              (node = DirectoryNode
               ∧ ∃ c, c ∈ chs ∧ Ascii.eqb c zero = false
                      ∧ q = path_div nodedbDir (String c EmptyString)) →
              node = DirectoryNode
              ∧ ∃ c, c ∈ ch :: chs ∧ Ascii.eqb c zero = false
                     ∧ q = path_div nodedbDir (String c EmptyString)).
    { intros q node (-> & c & Hc & Hcz & ->). split; [done|]. exists c.
      split; [by apply list_elem_of_further | done]. }
    destruct (create_shard_spec ch fsys)
      as [[Hz ->]|[Hz [[e ->]|[[-> Hdir]|[-> Hnone]]]]]; cbn [fst snd].
    + destruct (IH fsys) as [Hkeep Hnew]. split; [done|].
      intros q node Hq. destruct (Hnew q node Hq); [by left | right; auto].
    + split; [done|]. intros q node Hq. by left.
    + destruct (IH fsys) as [Hkeep Hnew]. split; [done|].
      intros q node Hq. destruct (Hnew q node Hq); [by left | right; auto].
    + destruct (IH (fsys ++ [(path_div nodedbDir (String ch EmptyString),
                              DirectoryNode)])) as [Hkeep Hnew].
      split.
      * intros q node Hq. apply Hkeep. by rewrite fs_lookup_snoc, Hq.
      * intros q node Hq. destruct (Hnew q node Hq) as [Hold|Hl]; [|right; auto].
        rewrite fs_lookup_snoc in Hold.
        destruct (fs_lookup q fsys) as [n|] eqn:Hqf; [by left|].
        destruct (decide (path_div nodedbDir (String ch EmptyString) = q))
          as [<-|]; [|discriminate Hold].
        injection Hold as <-. right. split; [done|]. exists ch.
        split; [apply list_elem_of_here | done].
Qed.

(** When the loop returns, every shard directory it was asked for is a
    directory. *)
Lemma shard_loop_made (chs : list ascii) (fsys : Filesystem) :
  (for_each_FS chs (create_shard nodedbDir) fsys).1 = Returned tt →
  ∀ ch, ch ∈ chs → Ascii.eqb ch zero = false →
        fs_lookup (path_div nodedbDir (String ch EmptyString))
          (for_each_FS chs (create_shard nodedbDir) fsys).2 = Some DirectoryNode.
Proof.
  revert fsys. induction chs as [|c chs IH]; intros fsys Hret ch Hch Hz.
  { by apply elem_of_nil in Hch. }
  cbn [for_each_FS] in *. rewrite FS_bind_run in *.
  destruct (create_shard_spec c fsys)
    as [[Hcz Hc]|[Hcz [[e Hc]|[[Hc Hdir]|[Hc Hnone]]]]];
    rewrite Hc in *; cbn [fst snd] in *; try discriminate Hret.
  - apply elem_of_cons in Hch as [->|Hch]; [congruence | by apply IH].
  - apply elem_of_cons in Hch as [->|Hch]; [|by apply IH].
    by apply (proj1 (shard_loop_adds chs fsys)).
  - apply elem_of_cons in Hch as [->|Hch]; [|by apply IH].
    apply (proj1 (shard_loop_adds chs _)).
    rewrite fs_lookup_snoc, Hnone. by rewrite decide_True.
Qed.

(** On an archive that is laid out the loop does nothing. *)
Lemma shard_loop_ready (chs : list ascii) (fsys : Filesystem) :
  (∀ ch, ch ∈ chs → Ascii.eqb ch zero = false →
         fs_lookup (path_div nodedbDir (String ch EmptyString)) fsys
         = Some DirectoryNode) →
  for_each_FS chs (create_shard nodedbDir) fsys = (Returned tt, fsys).
Proof.
  induction chs as [|c chs IH]; intros Hready; [reflexivity|].
  cbn [for_each_FS]. rewrite FS_bind_run.
  assert (Hbody : create_shard nodedbDir c fsys = (Returned tt, fsys)).
  { destruct (create_shard_spec c fsys)
      as [[Hcz Hc]|[Hcz [[e Hc]|[[Hc Hdir]|[Hc Hnone]]]]]; try done.
    - specialize (Hready c (list_elem_of_here _ _) Hcz).
      unfold create_shard in Hc. rewrite Hcz in Hc. cbn zeta in Hc.
      rewrite FS_bind_run in Hc. unfold fs_create_directory in Hc.
      rewrite Hready in Hc. unfold path_div in Hc, Hready.
      destruct nodedbDir; cbn in Hc; cbv [mret FS_ret] in Hc; discriminate Hc.
    - specialize (Hready c (list_elem_of_here _ _) Hcz). congruence. }
  rewrite Hbody. cbn [fst snd]. apply IH.
  intros ch Hch. apply Hready. by apply list_elem_of_further.
Qed.
End ShardLoop.

Lemma EnsureSkiplist_run (nodedbDir : path) (fsys : Filesystem) :
  EnsureSkiplist nodedbDir fsys
  = let r := adopt_or_create nodedbDir fsys in
    match r.1 with
    | Thrown e => (Thrown e, r.2)
    | Returned _ =>
        match fs_lookup nodedbDir r.2 with
        | Some DirectoryNode =>
            for_each_FS skiplist_subdirs (create_shard nodedbDir) r.2
        | _ => (Thrown (not_a_directory nodedbDir), r.2)
        end
    end.
Proof.
  unfold EnsureSkiplist, adopt_or_create, not_a_directory.
  run_FS.
  destruct (fs_lookup nodedbDir fsys) as [node|] eqn:Hd; run_FS.
  - rewrite Hd. destruct node; reflexivity.
  - destruct (fs_lookup (path_div (parent_path nodedbDir) "netdb") fsys)
      as [moved|] eqn:Hold; run_FS.
    + destruct (fs_rename _ nodedbDir fsys) as [[[]|e] fs1] eqn:Hren; run_FS;
        [|reflexivity].
      destruct (fs_lookup nodedbDir fs1) as [[]|]; reflexivity.
    + destruct (fs_create_directory nodedbDir fsys) as [[b|e] fs1] eqn:Hmk;
        run_FS; [|reflexivity].
      destruct (fs_lookup nodedbDir fs1) as [[]|]; reflexivity.
Qed.

Lemma EnsureSkiplist_empty_path (fsys : Filesystem) :
  fs_lookup [] fsys = None →
  ∃ operation p,
    EnsureSkiplist [] fsys = (Thrown (filesystem_error operation p), fsys).
Proof.
  intros Hnone. rewrite EnsureSkiplist_run. unfold adopt_or_create.
  rewrite Hnone. cbn zeta.
  destruct (fs_lookup (path_div (parent_path []) "netdb") fsys) as [moved|]
    eqn:Hold.
  - unfold fs_rename. rewrite Hold.
    rewrite decide_False by done. cbn [path_empty orb fst snd]. by eexists _, _.
  - cbn [fs_create_directory fst snd]. by eexists _, _.
Qed.

(** X12. The fatal errors of [EnsureSkiplist].  When the archive path names
    something that is not a directory it throws the runtime error "nodedb
    ... is not a directory" and the files are as they were.  For the empty
    path it never returns: it throws a file-system error and the files are
    as they were. *)
Theorem EnsureSkiplist_fatal (fsys : Filesystem) :
  (∀ nodedbDir node,
     fs_lookup nodedbDir fsys = Some node → node ≠ DirectoryNode →
     EnsureSkiplist nodedbDir fsys
     = (Thrown (runtime_error
                  ("nodedb " +:+ path_string nodedbDir +:+ " is not a directory")),
        fsys))
  ∧ (fs_lookup [] fsys = None →
     ∃ operation p,
       EnsureSkiplist [] fsys = (Thrown (filesystem_error operation p), fsys)).
Proof.
  split.
  - intros d node Hd Hnode. rewrite EnsureSkiplist_run. unfold adopt_or_create.
    rewrite Hd. cbn [fst snd]. rewrite Hd. by destruct node.
  - apply EnsureSkiplist_empty_path.
Qed.

Lemma EnsureSkiplist_fatal_witness :
  EnsureSkiplist ["other"] legacy_files
  = (Thrown (runtime_error "nodedb other is not a directory"), legacy_files)
  ∧ ∃ operation p,
      EnsureSkiplist [] legacy_files
      = (Thrown (filesystem_error operation p), legacy_files).
Proof.
  split.
  - apply (proj1 (EnsureSkiplist_fatal legacy_files) ["other"] (RegularFile []));
      [reflexivity | discriminate].
  - apply (proj2 (EnsureSkiplist_fatal legacy_files)). reflexivity.
Defined.

Lemma EnsureSkiplist_returned (nodedbDir : path) (fsys fsys' : Filesystem) :
  EnsureSkiplist nodedbDir fsys = (Returned tt, fsys') →
  ∃ fs1,
    adopt_or_create nodedbDir fsys = (Returned tt, fs1)
    ∧ fs_lookup nodedbDir fs1 = Some DirectoryNode
    ∧ for_each_FS skiplist_subdirs (create_shard nodedbDir) fs1
      = (Returned tt, fsys').
Proof.
  rewrite EnsureSkiplist_run. cbn zeta.
  destruct (adopt_or_create nodedbDir fsys) as [[[]|e] fs1]; cbn [fst snd];
    [|discriminate].
  destruct (fs_lookup nodedbDir fs1) as [[]|] eqn:Hd; try discriminate.
  intros Hloop. by exists fs1.
Qed.

(** X13. When [EnsureSkiplist] returns, the archive is laid out: the
    archive path and its sixteen shard subdirectories are directories.
    Running it again on the result returns and changes nothing. *)
Theorem EnsureSkiplist_lays_out (nodedbDir : path) (fsys fsys' : Filesystem) :
  EnsureSkiplist nodedbDir fsys = (Returned tt, fsys') →
  archive_ready nodedbDir fsys'
  ∧ EnsureSkiplist nodedbDir fsys' = (Returned tt, fsys').
Proof.
  intros (fs1 & _ & Hd & Hloop)%EnsureSkiplist_returned.
  assert (Hready : archive_ready nodedbDir fsys').
  { split.
    - pose proof (proj1 (shard_loop_adds nodedbDir skiplist_subdirs fs1)
                    nodedbDir DirectoryNode Hd) as Hkeep.
      by rewrite Hloop in Hkeep.
    - intros ch [Hch Hz]%shard_char.
      pose proof (shard_loop_made nodedbDir skiplist_subdirs fs1) as Hmade.
      rewrite Hloop in Hmade. by apply Hmade. }
  split; [done|].
  destruct Hready as [Hroot Hshards].
  rewrite EnsureSkiplist_run. unfold adopt_or_create. rewrite Hroot.
  cbn [fst snd]. rewrite Hroot. apply shard_loop_ready.
  intros ch Hch Hz. apply Hshards. apply shard_char. by split.
Qed.

Lemma EnsureSkiplist_lays_out_witness :
  archive_ready ["nodedb"] (EnsureSkiplist ["nodedb"] legacy_files).2.
Proof.
  apply (EnsureSkiplist_lays_out ["nodedb"] legacy_files). reflexivity.
Defined.

(** X14. Unless it adopts the legacy directory, [EnsureSkiplist] only adds
    directories: when the archive path is there, or there is no sibling
    netdb, then whatever the outcome every node that was there is there
    unchanged, and every node that is there afterwards was there or is the
    archive directory or one of its shard directories. *)
Theorem EnsureSkiplist_only_adds (nodedbDir : path) (fsys : Filesystem) :
  fs_lookup nodedbDir fsys ≠ None
  ∨ fs_lookup (path_div (parent_path nodedbDir) "netdb") fsys = None →
  let fsys' := (EnsureSkiplist nodedbDir fsys).2 in
  (∀ q node, fs_lookup q fsys = Some node → fs_lookup q fsys' = Some node)
  ∧ (∀ q node, fs_lookup q fsys' = Some node →
       fs_lookup q fsys = Some node
       ∨ node = DirectoryNode
         ∧ (q = nodedbDir
            ∨ ∃ ch, ch ∈ hex_lut
                    ∧ q = path_div nodedbDir (String ch EmptyString))).
Proof.
  intros Hcase. cbn zeta. rewrite EnsureSkiplist_run. cbn zeta.
  assert (Hfirst :
    (∀ q node, fs_lookup q fsys = Some node →
               fs_lookup q (adopt_or_create nodedbDir fsys).2 = Some node)
    ∧ (∀ q node, fs_lookup q (adopt_or_create nodedbDir fsys).2 = Some node →
                 fs_lookup q fsys = Some node
                 ∨ node = DirectoryNode ∧ q = nodedbDir)).
  { unfold adopt_or_create.
    destruct (fs_lookup nodedbDir fsys) as [n|] eqn:Hd.
    { cbn [snd]. split; [done|]. intros q node Hq. by left. }
    destruct Hcase as [Hcase|Hold]; [done|]. cbn zeta. rewrite Hold.
    destruct (fs_create_directory_spec nodedbDir fsys)
      as [[Hsame _]|(Hmade & _)].
    - destruct ((fs_create_directory nodedbDir fsys).1); cbn [snd];
        rewrite Hsame; (split; [done|]); intros q node Hq; by left.
    - rewrite Hmade. cbn [fst snd]. split.
      + intros q node Hq. by rewrite fs_lookup_snoc, Hq.
      + intros q node Hq. rewrite fs_lookup_snoc in Hq.
        destruct (fs_lookup q fsys); [by left|].
        destruct (decide (nodedbDir = q)) as [<-|]; [|discriminate Hq].
        injection Hq as <-. by right. }
  destruct Hfirst as [Hkeep1 Hnew1].
  set (r := adopt_or_create nodedbDir fsys) in *.
  assert (Hloop :
    ∀ fsys2,
      (fsys2 = r.2
       ∨ fsys2 = (for_each_FS skiplist_subdirs (create_shard nodedbDir) r.2).2) →
      (∀ q node, fs_lookup q fsys = Some node → fs_lookup q fsys2 = Some node)
      ∧ (∀ q node, fs_lookup q fsys2 = Some node →
           fs_lookup q fsys = Some node
           ∨ node = DirectoryNode
             ∧ (q = nodedbDir
                ∨ ∃ ch, ch ∈ hex_lut
                        ∧ q = path_div nodedbDir (String ch EmptyString)))).
  { intros fsys2 [->| ->].
    - split; [done|]. intros q node Hq.
      destruct (Hnew1 q node Hq) as [?|[-> ->]]; [by left | right; auto].
    - destruct (shard_loop_adds nodedbDir skiplist_subdirs r.2) as [Hkeep2 Hnew2].
      split; [intros q node Hq; by apply Hkeep2, Hkeep1|].
      intros q node Hq.
      destruct (Hnew2 q node Hq) as [Hq1|(-> & ch & Hch & Hz & ->)].
      + destruct (Hnew1 q node Hq1) as [?|[-> ->]]; [by left | right; auto].
      + right. split; [done|]. right. exists ch. split; [|done].
        apply shard_char. by split. }
  destruct r.1 as [[]|e]; cbn [snd]; [|by apply Hloop; left].
  destruct (fs_lookup nodedbDir r.2) as [[]|]; cbn [snd];
    apply Hloop; auto.
Qed.

Lemma EnsureSkiplist_only_adds_witness :
  fs_lookup ["netdb"; "a"; "first.signed"]
    (EnsureSkiplist ["netdb"] legacy_files).2
  = Some (rc_file xaa x05 xff x01).
Proof.
  apply (EnsureSkiplist_only_adds ["netdb"] legacy_files); [|reflexivity].
  left. discriminate.
Defined.

(** ** The legacy directory is adopted whole *)

Lemma fs_lookup_None_elem (p : path) (fsys : Filesystem) :
  fs_lookup p fsys = None ↔ ∀ node, node ∈ fsys → node.1 ≠ p.
Proof.
  induction fsys as [|n fsys IH]; cbn [fs_lookup].
  - split; [intros _ node Hin; by apply elem_of_nil in Hin | done].
  - destruct (decide (n.1 = p)) as [Hnp|Hnp].
    + split; [done|]. intros Hall. destruct (Hall n (list_elem_of_here _ _) Hnp).
    + rewrite IH. split.
      * intros Hall node [->|Hin]%elem_of_cons; auto.
      * intros Hall node Hin. apply Hall. by apply list_elem_of_further.
Qed.

Lemma fs_lookup_Some_node (p : path) (fsys : Filesystem) (node : FileNode) :
  fs_lookup p fsys = Some node → (p, node) ∈ fsys.
Proof.
  induction fsys as [|n fsys IH]; cbn [fs_lookup]; [done|].
  destruct (decide (n.1 = p)) as [<-|].
  - intros [= <-]. destruct n. apply list_elem_of_here.
  - intros Hl. apply list_elem_of_further. by apply IH.
Qed.

(** Looking up through a renaming of the paths that does not confuse the
    path looked up with another one. *)
Lemma fs_lookup_renamed (g : path → path) (q : path) (fsys : Filesystem) :
  (∀ node, node ∈ fsys → g node.1 = g q → node.1 = q) →
  fs_lookup (g q) (map (fun node => (g node.1, node.2)) fsys) = fs_lookup q fsys.
Proof.
  induction fsys as [|n fsys IH]; intros Hinj; [reflexivity|].
  cbn [map fs_lookup fst snd].
  destruct (decide (n.1 = q)) as [Hnq|Hnq].
  - by rewrite decide_True by (by rewrite Hnq).
  - rewrite decide_False.
    + apply IH. intros node Hin. apply Hinj. by apply list_elem_of_further.
    + intros Hg. apply Hnq, Hinj; [apply list_elem_of_here | done].
Qed.

Lemma fs_lookup_renamed_None (g : path → path) (p : path) (fsys : Filesystem) :
  (∀ node, node ∈ fsys → g node.1 ≠ p) →
  fs_lookup p (map (fun node => (g node.1, node.2)) fsys) = None.
Proof.
  intros Hall. apply fs_lookup_None_elem. intros node Hin.
  apply list_elem_of_fmap in Hin as (n & -> & Hn). by apply Hall.
Qed.

Lemma path_under_spec (old p : path) :
  path_under old p = true ↔ ∃ rest, p = old ++ rest.
Proof.
  unfold path_under. rewrite bool_decide_eq_true. split.
  - intros Htake. exists (drop (length old) p).
    by rewrite <- Htake at 1; rewrite take_drop.
  - intros [rest ->]. apply take_app_length.
Qed.

(** In a well-formed file system nothing lies below a path that names
    nothing. *)
Lemma fs_wf_no_descendants (fsys : Filesystem) (p : path) :
  fs_wf fsys → p ≠ [] → fs_lookup p fsys = None →
  ∀ node, node ∈ fsys → path_under p node.1 = false.
Proof.
  intros [_ Hwf] Hp Hnone.
  assert (Hlen : ∀ k node, node ∈ fsys → (length node.1 ≤ k)%nat →
                           path_under p node.1 = false).
  { induction k as [|k IH]; intros node Hin Hk.
    - destruct (proj1 (Forall_forall _ _) Hwf node Hin) as [Hne _].
      destruct node.1; [done | cbn in Hk; lia].
    - apply not_true_is_false. intros [rest Hrest]%path_under_spec.
      destruct (proj1 (Forall_forall _ _) Hwf node Hin) as [Hne Hparent].
      assert (Hrest_ne : rest ≠ []).
      { intros ->. rewrite app_nil_r in Hrest.
        apply (proj1 (fs_lookup_None_elem p fsys) Hnone node Hin). done. }
      unfold parent_is_directory, parent_path in Hparent.
      assert (Hrl : removelast node.1 = p ++ removelast rest).
      { rewrite Hrest. by apply removelast_app. }
      rewrite Hrl in Hparent.
      destruct (p ++ removelast rest) as [|c pr] eqn:Hpr.
      { by destruct p. }
      destruct (fs_lookup (c :: pr) fsys) as [[]|] eqn:Hlook; try discriminate.
      apply fs_lookup_Some_node in Hlook.
      assert (Hunder : path_under p (c :: pr) = true).
      { apply path_under_spec. exists (removelast rest). by rewrite Hpr. }
      specialize (IH (c :: pr, DirectoryNode) Hlook). cbn [fst] in IH.
      rewrite IH in Hunder; [discriminate|].
      rewrite <- Hrl.
      assert (length (removelast node.1) = Nat.pred (length node.1)) as ->.
      { destruct node.1 as [|x xs] using rev_ind; [done|].
        rewrite removelast_last, length_app. cbn. lia. }
      lia. }
  intros node Hin. by apply (Hlen (length node.1)).
Qed.

(** X15. Adopting the legacy directory.  In a well-formed file system where
    the archive path names nothing and its sibling netdb is there, a run of
    [EnsureSkiplist] that returns has moved netdb and everything below it to
    the archive path: each node is found under the new path, nothing is
    left under netdb, and the nodes outside netdb are as they were. *)
Theorem EnsureSkiplist_adopts_legacy (nodedbDir : path) (fsys fsys' : Filesystem)
    (moved : FileNode) :
  let old := path_div (parent_path nodedbDir) "netdb" in
  fs_wf fsys → nodedbDir ≠ [] →
  fs_lookup nodedbDir fsys = None →
  fs_lookup old fsys = Some moved →
  EnsureSkiplist nodedbDir fsys = (Returned tt, fsys') →
  (∀ rest node, fs_lookup (old ++ rest) fsys = Some node →
                fs_lookup (nodedbDir ++ rest) fsys' = Some node)
  ∧ (∀ rest, fs_lookup (old ++ rest) fsys' = None)
  ∧ (∀ q node, fs_lookup q fsys = Some node → path_under old q = false →
               fs_lookup q fsys' = Some node).
Proof.
  intros old Hwf Hne Hnone Hold (fs1 & Hadopt & _ & Hloop)%EnsureSkiplist_returned.
  assert (Hdiff : old ≠ nodedbDir) by (intros Heq; congruence).
  assert (Hlen : length old = length nodedbDir).
  { unfold old, path_div, parent_path.
    rewrite (app_removelast_last EmptyString Hne) at 2.
    by rewrite !length_app. }
  pose proof (fs_wf_no_descendants fsys nodedbDir Hwf Hne Hnone) as Hbelow.
  (* the files after the rename *)
  assert (Hfs1 : fs1 = map (fun node => (rename_path old nodedbDir node.1, node.2))
                         fsys).
  { unfold adopt_or_create in Hadopt. rewrite Hnone in Hadopt. cbn zeta in Hadopt.
    fold old in Hadopt. rewrite Hold in Hadopt.
    unfold fs_rename in Hadopt. rewrite Hold, Hnone in Hadopt.
    rewrite decide_False in Hadopt by done.
    destruct (path_empty nodedbDir || negb (parent_is_directory nodedbDir fsys)
              || path_under old nodedbDir); [discriminate Hadopt|].
    rewrite filter_all in Hadopt
      by (by apply (proj1 (fs_lookup_None_elem nodedbDir fsys) Hnone)).
    by injection Hadopt as <-. }
  assert (Hg_under : ∀ rest, rename_path old nodedbDir (old ++ rest)
                             = nodedbDir ++ rest).
  { intros rest. unfold rename_path.
    rewrite (proj2 (path_under_spec old (old ++ rest))) by (by exists rest).
    by rewrite drop_app_length. }
  assert (Hg_other : ∀ q, path_under old q = false →
                          rename_path old nodedbDir q = q).
  { intros q Hq. unfold rename_path. by rewrite Hq. }
  assert (Hg_cases : ∀ q, (∃ rest, q = old ++ rest
                             ∧ rename_path old nodedbDir q = nodedbDir ++ rest)
                          ∨ (path_under old q = false
                             ∧ rename_path old nodedbDir q = q)).
  { intros q. destruct (path_under old q) eqn:Hq.
    - left. apply path_under_spec in Hq as [rest ->]. exists rest. by split.
    - right. split; [done | by apply Hg_other]. }
  assert (Hold_not_new : ∀ r1 r2, old ++ r1 ≠ nodedbDir ++ r2).
  { intros r1 r2 Heq. apply Hdiff.
    apply (f_equal (take (length old))) in Heq.
    rewrite take_app_length in Heq. rewrite Hlen, take_app_length in Heq. done. }
  (* lookups in the renamed files *)
  assert (Hmoved : ∀ rest, fs_lookup (nodedbDir ++ rest) fs1
                           = fs_lookup (old ++ rest) fsys).
  { intros rest. rewrite Hfs1, <- (Hg_under rest). apply fs_lookup_renamed.
    intros node Hin Hg. rewrite Hg_under in Hg.
    destruct (Hg_cases node.1) as [(r & Hr & Hgr)|[Hnot Hgr]].
    - rewrite Hgr in Hg. apply app_inv_head in Hg. by rewrite Hr, Hg.
    - rewrite Hgr in Hg. specialize (Hbelow node Hin).
      rewrite (proj2 (path_under_spec nodedbDir node.1)) in Hbelow
        by (by exists rest). discriminate Hbelow. }
  assert (Hgone : ∀ rest, fs_lookup (old ++ rest) fs1 = None).
  { intros rest. rewrite Hfs1. apply fs_lookup_renamed_None.
    intros node Hin Hg.
    destruct (Hg_cases node.1) as [(r & Hr & Hgr)|[Hnot Hgr]];
      rewrite Hgr in Hg.
    - by apply (Hold_not_new rest r).
    - rewrite (proj2 (path_under_spec old node.1)) in Hnot
        by (by exists rest). discriminate Hnot. }
  assert (Hother : ∀ q node, fs_lookup q fsys = Some node →
                             path_under old q = false →
                             fs_lookup q fs1 = Some node).
  { intros q node Hq Hnot. rewrite Hfs1, <- (Hg_other q Hnot), <- Hq.
    apply fs_lookup_renamed. intros n Hin Hg. rewrite (Hg_other q Hnot) in Hg.
    destruct (Hg_cases n.1) as [(r & Hr & Hgr)|[Hn Hgr]]; rewrite Hgr in Hg;
      [|done].
    apply fs_lookup_Some_node in Hq. specialize (Hbelow (q, node) Hq).
    cbn [fst] in Hbelow.
    rewrite (proj2 (path_under_spec nodedbDir q)) in Hbelow by (by exists r).
    discriminate Hbelow. }
  (* the shard loop only adds shard directories *)
  destruct (shard_loop_adds nodedbDir skiplist_subdirs fs1) as [Hkeep Hnew].
  cbn zeta in Hkeep, Hnew. rewrite Hloop in Hkeep, Hnew. cbn [snd] in Hkeep, Hnew.
  split; [|split].
  - intros rest node Hq. apply Hkeep. by rewrite Hmoved.
  - intros rest. destruct (fs_lookup (old ++ rest) fsys') as [node|] eqn:Hq; [|done].
    destruct (Hnew _ _ Hq) as [Hq1|(_ & ch & _ & _ & Hsub)].
    + by rewrite Hgone in Hq1.
    + unfold path_div in Hsub. by apply Hold_not_new in Hsub.
  - intros q node Hq Hnot. by apply Hkeep, Hother.
Qed.

Lemma legacy_files_wf : fs_wf legacy_files.
Proof.
  split.
  - by apply (bool_decide_unpack (NoDup (map fst legacy_files))).
  - repeat constructor; discriminate.
Qed.

Lemma EnsureSkiplist_adopts_legacy_witness :
  fs_lookup (["nodedb"] ++ ["a"; "first.signed"])
    (EnsureSkiplist ["nodedb"] legacy_files).2
  = Some (rc_file xaa x05 xff x01).
Proof.
  apply (proj1 (EnsureSkiplist_adopts_legacy ["nodedb"] legacy_files
                  (EnsureSkiplist ["nodedb"] legacy_files).2 DirectoryNode
                  legacy_files_wf ltac:(discriminate) eq_refl eq_refl eq_refl)
           ["a"; "first.signed"]).
  reflexivity.
Defined.

(** ** The constructor *)

Lemma string_front_hex (id : RouterID) :
  id ≠ [] → string_front (to_hex id) ∈ hex_lut.
Proof.
  destruct id as [|b bs]; [done|]. intros _. cbn [to_hex string_front].
  pose proof (Byte.to_N_bounded b) as Hb.
  assert (Hlt : (Byte.to_N b / 16 < 16)%N)
    by (apply N.Div0.div_lt_upper_bound; lia).
  unfold hex_digit. revert Hlt. generalize (Byte.to_N b / 16)%N as n. intros n Hn.
  assert (Hi : (N.to_nat n < 16)%nat) by lia.
  revert Hi. generalize (N.to_nat n) as i. intros i Hi.
  do 16 (destruct i as [|i]; [apply list_elem_of_In; cbn; tauto|]). lia.
Qed.

(** X16. What a constructed NodeDB looks like.  When the constructor
    returns (on files in which the empty path names nothing), the root path
    is not empty, the archive is laid out, the table and the job queue are
    empty and the first flush is due five minutes after the construction.
    So the guard on an empty root is never taken: every [remove_router]
    queues its deletion job, and for every non-empty identifier the contact
    file lies in a shard directory that exists.  With a clock that is not
    negative, flushing is enabled and no tick up to the deadline does
    anything. *)
Theorem NodeDB_ctor_fresh (root : path) (now : Z) (fsys fsys' : Filesystem)
    (w : World) :
  fs_lookup [] fsys = None →
  NodeDB_ctor root now fsys = (Returned w, fsys') →
  (m_Root w = root ∧ root ≠ [] ∧ entries w = [] ∧ disk_jobs w = []
   ∧ files_on_disk w = fsys' ∧ clock_ms w = now
   ∧ m_NextFlushAt w = now + 5 * 60 * 1000)
  ∧ archive_ready root fsys'
  ∧ (∀ pk, disk_jobs (exec (remove_router pk) w)
           = [RemoveFiles {[get_path_by_pubkey w pk]}])
  ∧ (∀ id, id ≠ [] →
           fs_lookup (parent_path (get_path_by_pubkey w id)) fsys'
           = Some DirectoryNode)
  ∧ (0 ≤ now →
     m_NextFlushAt w ≠ 0
     ∧ ∀ t, t ≤ now + 5 * 60 * 1000 → exec (Tick t) w = w).
Proof.
  intros Hbase Hctor. unfold NodeDB_ctor in Hctor. cbn zeta in Hctor.
  rewrite FS_bind_run in Hctor.
  destruct (EnsureSkiplist root fsys) as [[[]|e] fs1] eqn:Hensure;
    cbn [fst snd] in Hctor; [|discriminate Hctor].
  injection Hctor as <- <-.
  assert (Hroot : root ≠ []).
  { intros ->. destruct (EnsureSkiplist_empty_path fsys Hbase) as (op & p & Hthrow).
    rewrite Hthrow in Hensure. discriminate Hensure. }
  assert (Hready : archive_ready root fs1).
  { apply EnsureSkiplist_returned in Hensure as (fs0 & _ & Hd & Hloop). split.
    - pose proof (proj1 (shard_loop_adds root skiplist_subdirs fs0)
                    root DirectoryNode Hd) as Hkeep.
      by rewrite Hloop in Hkeep.
    - intros ch [Hch Hz]%shard_char.
      pose proof (shard_loop_made root skiplist_subdirs fs0) as Hmade.
      rewrite Hloop in Hmade. by apply Hmade. }
  cbn [m_Root entries disk_jobs files_on_disk clock_ms m_NextFlushAt].
  split; [done|]. split; [done|]. split; [|split].
  - intros pk. rewrite remove_router_exec. cbn zeta. cbn [m_Root].
    apply path_empty_false in Hroot. rewrite Hroot. reflexivity.
  - intros id Hid. unfold get_path_by_pubkey, path_div, parent_path.
    cbn [m_Root]. rewrite removelast_last.
    apply (proj2 Hready). by apply string_front_hex.
  - intros Hnow. split; [unfold FlushInterval; lia|].
    intros t Ht. rewrite Tick_exec. cbn [m_NextFlushAt].
    rewrite decide_False by (unfold FlushInterval; lia).
    rewrite decide_False by (unfold FlushInterval; lia). reflexivity.
Qed.

Lemma NodeDB_ctor_fresh_witness :
  archive_ready ["nodedb"] (NodeDB_ctor ["nodedb"] 100 legacy_files).2.
Proof.
  apply (NodeDB_ctor_fresh ["nodedb"] 100 legacy_files
           (NodeDB_ctor ["nodedb"] 100 legacy_files).2
           (mkWorld ["nodedb"] [] (100 + FlushInterval) []
              (NodeDB_ctor ["nodedb"] 100 legacy_files).2 100));
    reflexivity.
Defined.

(** * Writing the table to disk *)

Lemma fs_lookup_overwrite (f q : path) (content : list byte) (fsys : Filesystem) :
  fs_lookup q
    (map (fun node => if decide (node.1 = f) then (f, RegularFile content)
                      else node) fsys)
  = if decide (q = f)
    then match fs_lookup f fsys with
         | Some _ => Some (RegularFile content)
         | None => None
         end
    else fs_lookup q fsys.
Proof.
  induction fsys as [|n fsys IH]; [by destruct (decide (q = f))|].
  cbn [map fs_lookup]. rewrite IH. clear IH.
  destruct (decide (n.1 = f)) as [Hnf|Hnf]; cbn [fst snd];
    destruct (decide (q = f)) as [Hqf|Hqf];
    repeat case_decide; try congruence; try done.
Qed.

(** One write: the other paths keep their nodes, directories stay
    directories, and a writable path in a directory holds the content
    afterwards. *)
Lemma fs_write_file_spec (f : path) (content : list byte) (fsys : Filesystem) :
  (∀ q, q ≠ f →
        fs_lookup q (fs_write_file f content fsys).2 = fs_lookup q fsys)
  ∧ (∀ q, fs_lookup q (fs_write_file f content fsys).2 = Some DirectoryNode
          ↔ fs_lookup q fsys = Some DirectoryNode)
  ∧ (f ≠ [] → parent_is_directory f fsys = true → writable f fsys →
     fs_lookup f (fs_write_file f content fsys).2 = Some (RegularFile content)).
Proof.
  unfold fs_write_file, writable.
  destruct (fs_lookup f fsys) as [[c0| |]|] eqn:Hf; cbn [snd].
  - split; [|split].
    + intros q Hq. by rewrite fs_lookup_overwrite, decide_False.
    + intros q. rewrite fs_lookup_overwrite.
      destruct (decide (q = f)) as [->|]; [|done]. rewrite Hf. split; congruence.
    + intros _ _ _. by rewrite fs_lookup_overwrite, decide_True, Hf.
  - split; [done|]. split; [done|]. intros _ _ [?|[? ?]]; congruence.
  - split; [done|]. split; [done|]. intros _ _ [?|[? ?]]; congruence.
  - destruct (negb (path_empty f) && parent_is_directory f fsys) eqn:Hok;
      cbn [snd].
    + split; [|split].
      * intros q Hq. rewrite fs_lookup_snoc.
        destruct (fs_lookup q fsys); [done|]. by rewrite decide_False.
      * intros q. rewrite fs_lookup_snoc.
        destruct (fs_lookup q fsys) eqn:Hq; [done|].
        destruct (decide (f = q)); split; congruence.
      * intros _ _ _. rewrite fs_lookup_snoc, Hf. by rewrite decide_True.
    + split; [done|]. split; [done|]. intros Hne Hpar _.
      rewrite Hpar in Hok. apply path_empty_false in Hne. by rewrite Hne in Hok.
Qed.

Lemma parent_is_directory_write (g f : path) (content : list byte)
    (fsys : Filesystem) :
  parent_is_directory g (fs_write_file f content fsys).2
  = parent_is_directory g fsys.
Proof.
  unfold parent_is_directory. destruct (parent_path g) as [|c p]; [done|].
  pose proof (proj1 (proj2 (fs_write_file_spec f content fsys)) (c :: p)) as Hdir.
  destruct (fs_lookup (c :: p) (fs_write_file f content fsys).2) as [[]|] eqn:H1;
    destruct (fs_lookup (c :: p) fsys) as [[]|] eqn:H2; try done;
    first [ pose proof (proj1 Hdir eq_refl) as X; discriminate X
          | pose proof (proj2 Hdir eq_refl) as X; discriminate X ].
Qed.

Section WriteAll.
Context `{enc : RouterContactEncoder}.
Variable w : World.

Local Abbreviation path_of := (get_path_by_pubkey w).

(** Writing a list of contacts to paths that are all different, writable
    and in a directory: each file holds its contact afterwards, and every
    other path has the node it had. *)
Lemma write_all_spec (l : list (RouterID * RouterContact)) (fsys : Filesystem) :
  NoDup (map (fun kv => path_of kv.1) l) →
  (∀ kv, kv ∈ l →
         path_of kv.1 ≠ [] ∧ parent_is_directory (path_of kv.1) fsys = true
         ∧ writable (path_of kv.1) fsys) →
  (∀ kv, kv ∈ l →
         fs_lookup (path_of kv.1) (write_all w l fsys)
         = Some (RegularFile (BEncode kv.2)))
  ∧ (∀ q, (∀ kv, kv ∈ l → q ≠ path_of kv.1) →
          fs_lookup q (write_all w l fsys) = fs_lookup q fsys).
Proof.
  unfold write_all. revert fsys.
  induction l as [|kv0 l IH]; intros fsys Hnodup Hok; cbn [fold_left].
  { split; [intros kv Hin; by apply elem_of_nil in Hin | done]. }
  cbn [map] in Hnodup. apply NoDup_cons in Hnodup as [Hfresh Hnodup].
  destruct (fs_write_file_spec (path_of kv0.1) (BEncode kv0.2) fsys)
    as (Hother & Hdirs & Hwritten).
  set (fs1 := (fs_write_file (path_of kv0.1) (BEncode kv0.2) fsys).2) in *.
  assert (Hdiff : ∀ kv, kv ∈ l → path_of kv.1 ≠ path_of kv0.1).
  { intros kv Hin Heq. apply Hfresh. rewrite <- Heq.
    change (map (fun kv => path_of kv.1) l)
      with ((fun kv : RouterID * RouterContact => path_of kv.1) <$> l).
    apply list_elem_of_fmap. by exists kv. }
  destruct (IH fs1 Hnodup) as [Hfiles Hrest].
  { intros kv Hin.
    destruct (Hok kv (list_elem_of_further _ _ _ Hin)) as (Hne & Hpar & Hwr).
    split; [done|]. split.
    - unfold fs1. by rewrite parent_is_directory_write.
    - unfold writable. by rewrite (Hother _ (Hdiff kv Hin)). }
  split.
  - intros kv [->|Hin]%elem_of_cons; [|by apply Hfiles].
    rewrite Hrest by (intros kv Hin Heq; by apply (Hdiff kv Hin)).
    destruct (Hok kv0 (list_elem_of_here _ _)) as (Hne & Hpar & Hwr).
    by apply Hwritten.
  - intros q Hq. rewrite Hrest.
    + apply Hother, Hq, list_elem_of_here.
    + intros kv Hin. apply Hq. by apply list_elem_of_further.
Qed.

(** The loop that writes, run in the monad. *)
Lemma foldM_write {X : Type} (key : X → RouterID) (val : X → RouterContact)
    (l : list X) (w0 : World) :
  m_Root w0 = m_Root w →
  foldM (fun x _ =>
           path ← gets (fun w1 => get_path_by_pubkey w1 (key x));
           RouterContact_Write (val x) path;; mret tt) l tt w0
  = (tt, set_files
           (write_all w (map (fun x => (key x, val x)) l) (files_on_disk w0)) w0).
Proof.
  unfold write_all. revert w0. induction l as [|x l IH]; intros w0 Hroot.
  - cbn. by rewrite set_files_id.
  - cbn [foldM map fold_left]. rewrite !bind_run.
    change (gets (fun w1 => get_path_by_pubkey w1 (key x)) w0)
      with (get_path_by_pubkey w0 (key x), w0).
    cbv [mret M_ret RouterContact_Write]. cbn [fst snd].
    rewrite (get_path_by_pubkey_root w w0) by done.
    rewrite IH by done. cbn [files_on_disk set_files]. unfold set_files; cbn.
    reflexivity.
Qed.
End WriteAll.

(** ** Every identity has a file of its own *)

Lemma string_length_append (a b : string) :
  String.length (a +:+ b) = (String.length a + String.length b)%nat.
Proof. induction a as [|c a IH]; simpl; [done | by f_equal]. Qed.

Lemma hex_digit_inj (n m : N) :
  (n < 16)%N → (m < 16)%N → hex_digit n = hex_digit m → n = m.
Proof.
  intros Hn Hm. unfold hex_digit.
  assert (Hi : (N.to_nat n < 16)%nat) by lia.
  assert (Hj : (N.to_nat m < 16)%nat) by lia.
  intros Heq. apply N2Nat.inj. revert Hi Hj Heq.
  generalize (N.to_nat n) as i, (N.to_nat m) as j. intros i j Hi Hj.
  do 16 (destruct i as [|i]; [do 16 (destruct j as [|j]; [by intros|]); lia|]).
  lia.
Qed.

Lemma to_hex_append_inj (a b : list byte) (s : string) :
  to_hex a +:+ s = to_hex b +:+ s → a = b.
Proof.
  revert b. induction a as [|x a IH]; intros [|y b] Heq.
  - done.
  - apply (f_equal String.length) in Heq.
    rewrite !string_length_append, !to_hex_length in Heq. cbn [length] in Heq. lia.
  - apply (f_equal String.length) in Heq.
    rewrite !string_length_append, !to_hex_length in Heq. cbn [length] in Heq. lia.
  - simpl in Heq. injection Heq as Hhi Hlo Htail.
    pose proof (Byte.to_N_bounded x) as Hx.
    pose proof (Byte.to_N_bounded y) as Hy.
    apply hex_digit_inj in Hhi;
      [|apply N.Div0.div_lt_upper_bound; lia..].
    apply hex_digit_inj in Hlo; [|apply N.mod_lt; lia..].
    f_equal; [|by apply IH].
    apply byte_to_N_inj.
    rewrite (N.div_mod (Byte.to_N x) 16), (N.div_mod (Byte.to_N y) 16) by lia.
    by rewrite Hhi, Hlo.
Qed.

Lemma get_path_by_pubkey_inj (w : World) (a b : RouterID) :
  get_path_by_pubkey w a = get_path_by_pubkey w b → a = b.
Proof.
  unfold get_path_by_pubkey, path_div, RouterID_ToString.
  intros Heq. apply app_inj_tail in Heq as [_ Hname].
  by apply to_hex_append_inj in Hname.
Qed.

Lemma hex_name_last_dot (bs : list byte) :
  last_dot_suffix (to_hex bs +:+ ".signed") = Some ".signed".
Proof.
  induction bs as [|b bs IH]; [reflexivity|].
  simpl. simpl in IH. by rewrite IH.
Qed.

(** The name that [get_path_by_pubkey] gives a contact file has the
    extension the loader looks for. *)
Lemma hex_name_extension (id : RouterID) :
  id ≠ [] → extension (RouterID_ToString id +:+ RC_FILE_EXT) = RC_FILE_EXT.
Proof.
  destruct id as [|b bs]; [done|]. intros _.
  unfold RouterID_ToString, RC_FILE_EXT, extension.
  cbn [to_hex].
  change (String ?c1 (String ?c2 ?s) +:+ ?t)
    with (String c1 (String c2 (s +:+ t))).
  rewrite decide_False.
  - pose proof (hex_name_last_dot bs) as Hdot.
    cbn [last_dot_suffix]. by rewrite Hdot.
  - intros [Heq|Heq]; [discriminate Heq|].
    injection Heq as _ _ Heq. apply (f_equal String.length) in Heq.
    rewrite string_length_append in Heq. cbn in Heq. lia.
Qed.

(** ** save_to_disk *)

Lemma save_to_disk_exec `{RouterContactEncoder} (w : World) :
  exec save_to_disk w
  = if path_empty (m_Root w) then w
    else set_files
           (write_all w (map (fun item => (item.1, rc item.2)) (entries w))
              (files_on_disk w)) w.
Proof.
  unfold save_to_disk, exec. rewrite bind_run.
  change (gets m_Root w) with (m_Root w, w). cbn [fst snd].
  destruct (path_empty (m_Root w)); [reflexivity|].
  rewrite bind_run. change (gets entries w) with (entries w, w). cbn [fst snd].
  by rewrite (foldM_write w (fun item => item.1) (fun item => rc item.2)).
Qed.

Lemma contact_path_ready (w : World) (fsys : Filesystem) (id : RouterID) :
  archive_ready (m_Root w) fsys → id ≠ [] →
  get_path_by_pubkey w id ≠ []
  ∧ parent_is_directory (get_path_by_pubkey w id) fsys = true.
Proof.
  intros [_ Hshards] Hid. unfold get_path_by_pubkey, path_div. split.
  - by destruct (m_Root w ++ [String (string_front (to_hex id)) EmptyString]).
  - unfold parent_is_directory, parent_path. rewrite removelast_last.
    pose proof (Hshards _ (string_front_hex id Hid)) as Hdir.
    unfold path_div in Hdir.
    destruct (m_Root w ++ [String (string_front (to_hex id)) EmptyString]);
      [done | by rewrite Hdir].
Qed.

Lemma NoDup_contact_paths (w : World) (es : list (RouterID * Entry)) :
  NoDup (map fst es) →
  NoDup (map (fun kv : RouterID * RouterContact => get_path_by_pubkey w kv.1)
           (map (fun item => (item.1, rc item.2)) es)).
Proof.
  induction es as [|item es IH]; cbn [map]; intros Hnodup; [constructor|].
  apply NoDup_cons in Hnodup as [Hfresh Hnodup].
  apply NoDup_cons. split; [|by apply IH].
  intros Hin. apply Hfresh. cbn [fst] in Hin.
  change (map ?f ?l) with (f <$> l) in Hin.
  apply list_elem_of_fmap in Hin as (kv & Hpath & Hin).
  apply list_elem_of_fmap in Hin as (it & -> & Hin). cbn [fst] in Hpath.
  apply get_path_by_pubkey_inj in Hpath. rewrite Hpath.
  change (map fst es) with (fst <$> es). apply list_elem_of_fmap. by exists it.
Qed.

(** X17. [save_to_disk] on an archive that is laid out.  In a table with
    unique, non-empty keys whose contact paths are free or hold regular
    files, every entry's contact is afterwards found, encoded, in the file
    of its key; every other path has the node it had; and the table, the job
    queue (the write is done in place, not handed to the disk thread), the
    root, the deadline and the clock are unchanged.  With an empty root path
    [save_to_disk] does nothing. *)
Theorem save_to_disk_writes `{RouterContactEncoder} (w : World) :
  let w' := exec save_to_disk w in
  (m_Root w = [] → w' = w)
  ∧ (m_Root w ≠ [] →
     archive_ready (m_Root w) (files_on_disk w) →
     NoDup (map fst (entries w)) →
     (∀ item, item ∈ entries w →
              item.1 ≠ []
              ∧ writable (get_path_by_pubkey w item.1) (files_on_disk w)) →
     (∀ item, item ∈ entries w →
              fs_lookup (get_path_by_pubkey w item.1) (files_on_disk w')
              = Some (RegularFile (BEncode (rc item.2))))
     ∧ (∀ q, (∀ item, item ∈ entries w → q ≠ get_path_by_pubkey w item.1) →
             fs_lookup q (files_on_disk w') = fs_lookup q (files_on_disk w))
     ∧ entries w' = entries w ∧ disk_jobs w' = disk_jobs w
     ∧ m_Root w' = m_Root w ∧ m_NextFlushAt w' = m_NextFlushAt w
     ∧ clock_ms w' = clock_ms w).
Proof.
  cbn zeta. rewrite save_to_disk_exec. split.
  { intros ->. reflexivity. }
  intros Hroot Hready Hnodup Hitems.
  apply path_empty_false in Hroot. rewrite Hroot.
  cbn [files_on_disk entries disk_jobs m_Root m_NextFlushAt clock_ms set_files].
  destruct (write_all_spec w (map (fun item => (item.1, rc item.2)) (entries w))
              (files_on_disk w)) as [Hfiles Hrest].
  { by apply NoDup_contact_paths. }
  { intros kv Hin.
    change (map ?f ?l) with (f <$> l) in Hin.
    apply list_elem_of_fmap in Hin as (item & -> & Hin). cbn [fst].
    destruct (Hitems item Hin) as [Hne Hwr].
    destruct (contact_path_ready w (files_on_disk w) item.1 Hready Hne). auto. }
  split; [|split; [|done]].
  - intros item Hin.
    apply (Hfiles (item.1, rc item.2)).
    change (map ?f ?l) with (f <$> l).
    apply list_elem_of_fmap. by exists item.
  - intros q Hq. apply Hrest. intros kv Hin.
    change (map ?f ?l) with (f <$> l) in Hin.
    apply list_elem_of_fmap in Hin as (item & -> & Hin). by apply Hq.
Qed.

Lemma world_ready_archive :
  archive_ready (m_Root world_ready) (files_on_disk world_ready).
Proof.
  split; [reflexivity|]. intros ch Hch. apply list_elem_of_In in Hch.
  cbn in Hch. repeat (destruct Hch as [<-|Hch]; [reflexivity|]). done.
Qed.

Lemma save_to_disk_writes_witness :
  fs_lookup (get_path_by_pubkey world_ready (key_of xaa))
    (files_on_disk (exec (@save_to_disk sample_encoder) world_ready))
  = Some (RegularFile (@BEncode sample_encoder first_contact)).
Proof.
  refine (proj1 (proj2 (@save_to_disk_writes sample_encoder world_ready) _ _ _ _)
            (key_of xaa, mkEntry first_contact 100) _).
  - discriminate.
  - apply world_ready_archive.
  - by apply (bool_decide_unpack (NoDup (map fst (entries world_ready)))).
  - intros item Hin. cbn [entries world_ready] in Hin.
    repeat (apply elem_of_cons in Hin as [->|Hin];
            [split; [discriminate | left; reflexivity]|]).
    by apply elem_of_nil in Hin.
  - apply list_elem_of_here.
Defined.

(** ** The jobs of the disk thread *)

Lemma run_write_job `{RouterContactEncoder} (data : list RouterContact) (w : World) :
  exec (run_disk_job (WriteContacts data)) w
  = set_files
      (write_all w (map (fun c => (pubkey c, c)) data) (files_on_disk w)) w.
Proof.
  unfold run_disk_job, exec. rewrite bind_run.
  by rewrite (foldM_write w pubkey (fun c => c)).
Qed.




Lemma run_remove_job `{RouterContactEncoder} (files : gset path) (w : World) :
  run_disk_job (RemoveFiles files) w
  = ((remove_files (elements files) (files_on_disk w)).1,
     set_files (remove_files (elements files) (files_on_disk w)).2 w).
Proof. reflexivity. Qed.


(** X18. The flush job does what [save_to_disk] does.  On a NodeDB with a
    root path whose contacts are filed under their own public keys, running
    the job that a due [Tick] queued leaves the files that [save_to_disk]
    would leave. *)
Theorem flush_job_saves_table `{RouterContactEncoder} (w : World) (now : Z) :
  m_Root w ≠ [] →
  Forall (fun item => item.1 = pubkey (rc item.2)) (entries w) →
  m_NextFlushAt w ≠ 0 → now > m_NextFlushAt w →
  ∃ job,
    disk_jobs (exec (Tick now) w) = disk_jobs w ++ [job]
    ∧ files_on_disk (exec (run_disk_job job) (exec (Tick now) w))
      = files_on_disk (exec save_to_disk w).
Proof.
  intros Hroot Hfiled Hon Hdue.
  exists (WriteContacts (map (fun item => rc item.2) (entries w))).
  rewrite Tick_exec, decide_False, decide_True by done.
  split; [done|].
  rewrite run_write_job, save_to_disk_exec.
  apply path_empty_false in Hroot. rewrite Hroot.
  cbn [files_on_disk set_files set_disk_jobs set_NextFlushAt].
  unfold write_all. rewrite map_map.
  assert (Hmap : map (fun x : RouterID * Entry => (pubkey (rc x.2), rc x.2)) (entries w)
                 = map (fun item => (item.1, rc item.2)) (entries w)).
  { induction Hfiled as [|item es Hitem _ IH]; [done|].
    cbn [map]. by rewrite IH, Hitem. }
  rewrite Hmap. reflexivity.
Qed.

Lemma flush_job_saves_table_witness :
  ∃ job,
    disk_jobs (exec (Tick 500000) world_ready) = disk_jobs world_ready ++ [job]
    ∧ files_on_disk (exec (@run_disk_job sample_encoder job)
                       (exec (Tick 500000) world_ready))
      = files_on_disk (exec (@save_to_disk sample_encoder) world_ready).
Proof.
  apply (@flush_job_saves_table sample_encoder world_ready 500000).
  - discriminate.
  - repeat constructor.
  - discriminate.
  - reflexivity.
Defined.



(** ** Saving and loading again *)

Lemma table_find_Some_elem (k : RouterID) (e : Entry) (es : list (RouterID * Entry)) :
  table_find k es = Some e → (k, e) ∈ es.
Proof.
  induction es as [|item es IH]; cbn [table_find]; [done|].
  destruct (decide (item.1 = k)) as [<-|].
  - intros [= <-]. destruct item. apply list_elem_of_here.
  - intros Hfind. by apply list_elem_of_further, IH.
Qed.

Lemma table_find_NoDup (item : RouterID * Entry) (es : list (RouterID * Entry)) :
  NoDup (map fst es) → item ∈ es → table_find item.1 es = Some item.2.
Proof.
  induction es as [|x es IH]; cbn [table_find map]; intros Hnodup Hin.
  - by apply elem_of_nil in Hin.
  - apply NoDup_cons in Hnodup as [Hfresh Hnodup].
    apply elem_of_cons in Hin as [->|Hin]; [by rewrite decide_True|].
    rewrite decide_False; [by apply IH|].
    intros Heq. apply Hfresh. rewrite Heq.
    change (map fst es) with (fst <$> es). apply list_elem_of_fmap. by exists item.
Qed.

(** A regular file named [*.signed] that the scan visits is a candidate
    contact file. *)
Lemma scanned_candidate (w : World) (f : path) (content : list byte) :
  f ∈ scanned_paths (m_Root w) (files_on_disk w) →
  fs_lookup f (files_on_disk w) = Some (RegularFile content) →
  path_extension f = RC_FILE_EXT →
  candidate_file w f content.
Proof.
  intros (ch & Hch & [Hne Hdir] & _)%scanned_paths_elem Hlook Hext.
  exists ch, (List.last f EmptyString). split; [done|].
  split; [|done].
  rewrite (app_removelast_last EmptyString Hne) at 1.
  rewrite Hdir. unfold path_div. by rewrite <- app_assoc.
Qed.

(** The files [save_to_disk] leaves. *)
Lemma saved_files `{RouterContactEncoder} (w : World) :
  m_Root w ≠ [] →
  archive_ready (m_Root w) (files_on_disk w) →
  NoDup (map fst (entries w)) →
  (∀ item, item ∈ entries w →
           item.1 ≠ []
           ∧ writable (get_path_by_pubkey w item.1) (files_on_disk w)) →
  (∀ item, item ∈ entries w →
           fs_lookup (get_path_by_pubkey w item.1)
             (files_on_disk (exec save_to_disk w))
           = Some (RegularFile (BEncode (rc item.2))))
  ∧ (∀ q, (∀ item, item ∈ entries w → q ≠ get_path_by_pubkey w item.1) →
          fs_lookup q (files_on_disk (exec save_to_disk w))
          = fs_lookup q (files_on_disk w)).
Proof.
  intros Hroot Hready Hnodup Hitems. rewrite save_to_disk_exec.
  apply path_empty_false in Hroot. rewrite Hroot.
  cbn [files_on_disk set_files].
  destruct (write_all_spec w (map (fun item => (item.1, rc item.2)) (entries w))
              (files_on_disk w)) as [Hfiles Hrest].
  { by apply NoDup_contact_paths. }
  { intros kv Hin.
    change (map ?f ?l) with (f <$> l) in Hin.
    apply list_elem_of_fmap in Hin as (item & -> & Hin). cbn [fst].
    destruct (Hitems item Hin) as [Hne Hwr].
    destruct (contact_path_ready w (files_on_disk w) item.1 Hready Hne). auto. }
  split.
  - intros item Hin.
    apply (Hfiles (item.1, rc item.2)).
    change (map ?f ?l) with (f <$> l).
    apply list_elem_of_fmap. by exists item.
  - intros q Hq. apply Hrest. intros kv Hin.
    change (map ?f ?l) with (f <$> l) in Hin.
    apply list_elem_of_fmap in Hin as (item & -> & Hin). by apply Hq.
Qed.

Section SaveThenLoad.
Context `{ops : RouterContactOps} `{enc : RouterContactEncoder}.
Variables w w2 : World.

Hypothesis Hroot : m_Root w ≠ [].
Hypothesis Hwf : table_wf (entries w).
Hypothesis Hkeys : ∀ item, item ∈ entries w → item.1 ≠ [].
Hypothesis Hstray : ∀ f content,
  candidate_file w f content →
  ∃ item, item ∈ entries w ∧ f = get_path_by_pubkey w item.1.
Hypothesis Hroot2 : m_Root w2 = m_Root w.
Hypothesis Hfiles : ∀ item, item ∈ entries w →
  fs_lookup (get_path_by_pubkey w item.1) (files_on_disk w2)
  = Some (RegularFile (BEncode (rc item.2))).
Hypothesis Hrest : ∀ q,
  (∀ item, item ∈ entries w → q ≠ get_path_by_pubkey w item.1) →
  fs_lookup q (files_on_disk w2) = fs_lookup q (files_on_disk w).
Hypothesis Hcodec : ∀ item, item ∈ entries w →
  BDecode (BEncode (rc item.2)) = Some (rc item.2) ∧ loadable w2 (rc item.2).

(** After the save, the candidate files are the files of the entries. *)
Lemma saved_candidates (f : path) (content : list byte) :
  candidate_file w2 f content →
  ∃ item, item ∈ entries w ∧ f = get_path_by_pubkey w item.1
          ∧ content = BEncode (rc item.2).
Proof.
  intros Hcand.
  destruct (decide (f ∈ (fun item : RouterID * Entry =>
                           get_path_by_pubkey w item.1) <$> entries w))
    as [Hin|Hout].
  - apply list_elem_of_fmap in Hin as (item & -> & Hin).
    exists item. split; [done|]. split; [done|].
    destruct Hcand as (_ & _ & _ & _ & _ & Hlook).
    rewrite (Hfiles item Hin) in Hlook. by injection Hlook.
  - assert (Hother : ∀ item, item ∈ entries w → f ≠ get_path_by_pubkey w item.1).
    { intros item Hin ->. apply Hout. apply list_elem_of_fmap. by exists item. }
    destruct Hcand as (ch & name & Hch & Hf & Hext & Hlook).
    rewrite (Hrest f Hother) in Hlook. rewrite Hroot2 in Hf.
    destruct (Hstray f content) as (item & Hin & Heq).
    { by exists ch, name. }
    by destruct (Hother item Hin).
Qed.

(** The file of an entry is visited by the loader and admitted. *)
Lemma saved_entry_admitted (item : RouterID * Entry) :
  item ∈ entries w →
  get_path_by_pubkey w item.1 ∈ scanned_paths (m_Root w2) (files_on_disk w2)
  ∧ file_verdict (files_on_disk w2) (clock_ms w2) (get_path_by_pubkey w item.1)
    = Admit (rc item.2).
Proof.
  intros Hin.
  assert (Hcand : candidate_file w2 (get_path_by_pubkey w item.1)
                    (BEncode (rc item.2))).
  { exists (string_front (to_hex item.1)), (RouterID_ToString item.1 +:+ RC_FILE_EXT).
    split; [by apply string_front_hex, Hkeys|].
    split; [|split; [by apply hex_name_extension, Hkeys | by apply Hfiles]].
    unfold get_path_by_pubkey, path_div. by rewrite Hroot2, <- app_assoc. }
  split; [by apply (candidate_scanned w2 _ _ Hcand)|].
  rewrite (candidate_verdict w2 _ _ Hcand).
  destruct (Hcodec item Hin) as [-> (Hnet & Hexp & Hsig)].
  by rewrite Hnet, Hexp, Hsig.
Qed.

(** The loader removes nothing of what was saved. *)
Lemma saved_nothing_purged (f : path) :
  f ∈ scanned_paths (m_Root w2) (files_on_disk w2) →
  file_verdict (files_on_disk w2) (clock_ms w2) f ≠ Purge.
Proof.
  intros Hscan Hv. pose proof Hv as Hpurge. unfold file_verdict in Hv.
  destruct (fs_lookup f (files_on_disk w2)) as [[content| |]|] eqn:Hlook;
    try discriminate Hv.
  destruct (bool_decide (path_extension f = RC_FILE_EXT)) eqn:Hext;
    [|discriminate Hv].
  apply bool_decide_eq_true_1 in Hext.
  destruct (saved_candidates f content (scanned_candidate w2 f content Hscan Hlook Hext))
    as (item & Hin & -> & _).
  destruct (saved_entry_admitted item Hin) as [_ Hadmit].
  rewrite Hadmit in Hpurge. discriminate Hpurge.
Qed.

(** What the loader admits is the contact of an entry. *)
Lemma saved_admitted_entry (f : path) (c : RouterContact) :
  f ∈ scanned_paths (m_Root w2) (files_on_disk w2) →
  file_verdict (files_on_disk w2) (clock_ms w2) f = Admit c →
  ∃ item, item ∈ entries w ∧ c = rc item.2.
Proof.
  intros Hscan Hv.
  destruct (admit_loadable w2 f c Hscan Hv) as (content & Hcand & Hdec & _).
  destruct (saved_candidates f content Hcand) as (item & Hin & _ & ->).
  exists item. split; [done|].
  destruct (Hcodec item Hin) as [Hback _]. congruence.
Qed.

Lemma save_then_load_table (k : RouterID) :
  table_find k
    (scan_state w2 (scanned_paths (m_Root w2) (files_on_disk w2)) (∅, [])).2
  = (fun e => mkEntry (rc e) (clock_ms w2)) <$> table_find k (entries w).
Proof.
  destruct Hwf as [Hnodup Hfiled].
  set (st := scan_state w2 (scanned_paths (m_Root w2) (files_on_disk w2)) (∅, [])).
  destruct (table_find k st.2) as [e'|] eqn:Hfind.
  - apply scan_state_origin in Hfind
      as [Hold|(f & c & Hscan & Hv & -> & ->)]; [discriminate Hold|].
    destruct (saved_admitted_entry f c Hscan Hv) as (item & Hin & ->).
    pose proof (proj1 (Forall_forall _ _) Hfiled item Hin) as Hkey.
    cbv beta in Hkey. rewrite <- Hkey.
    by rewrite (table_find_NoDup item (entries w) Hnodup Hin).
  - destruct (table_find k (entries w)) as [e|] eqn:Hold; [|done].
    apply table_find_Some_elem in Hold.
    destruct (saved_entry_admitted (k, e) Hold) as [Hscan Hv].
    pose proof (proj1 (Forall_forall _ _) Hfiled (k, e) Hold) as Hkey.
    cbn [fst snd] in Hkey, Hv.
    destruct (scan_state_admits w2 _ (∅, []) _ _ Hscan Hv) as [e' He'].
    fold st in He'. rewrite <- Hkey in He'. congruence.
Qed.

Lemma save_then_load_purge :
  (scan_state w2 (scanned_paths (m_Root w2) (files_on_disk w2))
     (∅, entries w2)).1 = ∅.
Proof.
  apply set_eq. intros f. rewrite scan_state_purge. cbn [fst].
  split; [|by intros ?%not_elem_of_empty].
  intros [?%not_elem_of_empty|[Hscan Hv]]; [done|].
  by destruct (saved_nothing_purged f Hscan).
Qed.
End SaveThenLoad.

(** X20. What was saved is loaded again.  Take a well-formed table with
    non-empty keys on a laid-out archive whose candidate contact files, if
    any, sit at the paths of entries, and a codec that decodes what it
    encoded.  After [save_to_disk], a NodeDB with an empty table on the same
    root and the saved files (a restart), for which the saved contacts pass
    the checks of the loader, loads exactly the saved contacts: every key
    gets the contact it had, inserted at the time of the load, no other key
    is in the table, and no file is removed. *)
Theorem save_then_load_restores `{RouterContactOps} `{RouterContactEncoder}
    (w w2 : World) :
  m_Root w ≠ [] →
  archive_ready (m_Root w) (files_on_disk w) →
  table_wf (entries w) →
  (∀ item, item ∈ entries w →
           item.1 ≠ []
           ∧ writable (get_path_by_pubkey w item.1) (files_on_disk w)
           ∧ BDecode (BEncode (rc item.2)) = Some (rc item.2)
           ∧ loadable w2 (rc item.2)) →
  (∀ f content,
     candidate_file w f content →
     ∃ item, item ∈ entries w ∧ f = get_path_by_pubkey w item.1) →
  m_Root w2 = m_Root w →
  entries w2 = [] →
  files_on_disk w2 = files_on_disk (exec save_to_disk w) →
  let w3 := exec load_from_disk w2 in
  (∀ k, table_find k (entries w3)
        = (fun e => mkEntry (rc e) (clock_ms w2)) <$> table_find k (entries w))
  ∧ files_on_disk w3 = files_on_disk w2.
Proof.
  intros Hroot Hready Hwf Hitems Hstray Hroot2 Hempty Hsaved. cbn zeta.
  destruct (saved_files w Hroot Hready (proj1 Hwf)) as [Hfiles Hrest].
  { intros item Hin. destruct (Hitems item Hin) as (? & ? & _). by split. }
  rewrite <- Hsaved in Hfiles, Hrest.
  assert (Hkeys : ∀ item, item ∈ entries w → item.1 ≠ [])
    by (intros item Hin; by destruct (Hitems item Hin)).
  assert (Hcodec : ∀ item, item ∈ entries w →
            BDecode (BEncode (rc item.2)) = Some (rc item.2)
            ∧ loadable w2 (rc item.2)).
  { intros item Hin. destruct (Hitems item Hin) as (_ & _ & ? & ?). by split. }
  rewrite load_from_disk_exec by (by rewrite Hroot2). cbn zeta.
  cbn [entries files_on_disk set_files set_entries].
  rewrite (save_then_load_purge w w2 Hkeys Hstray Hroot2 Hfiles Hrest Hcodec).
  split.
  - intros k. rewrite Hempty.
    apply (save_then_load_table w w2 Hwf Hkeys Hstray Hroot2 Hfiles Hrest Hcodec).
  - apply filter_all. intros node _. apply not_elem_of_empty.
Qed.

Lemma world_ready_no_files (f : path) (content : list byte) :
  fs_lookup f (files_on_disk world_ready) ≠ Some (RegularFile content).
Proof.
  intros Hlook. apply fs_lookup_Some_node in Hlook.
  apply list_elem_of_In in Hlook. vm_compute in Hlook.
  repeat (destruct Hlook as [Hlook|Hlook]; [discriminate Hlook|]). done.
Qed.

Lemma save_then_load_restores_witness :
  (∀ k, table_find k
          (entries (exec (@load_from_disk sample_ops)
                      (set_entries []
                         (exec (@save_to_disk sample_encoder) world_ready))))
        = (fun e => mkEntry (rc e) 150) <$> table_find k (entries world_ready))
  ∧ files_on_disk
      (exec (@load_from_disk sample_ops)
         (set_entries [] (exec (@save_to_disk sample_encoder) world_ready)))
    = files_on_disk (exec (@save_to_disk sample_encoder) world_ready).
Proof.
  apply (@save_then_load_restores sample_ops sample_encoder world_ready
           (set_entries [] (exec (@save_to_disk sample_encoder) world_ready))).
  - discriminate.
  - apply world_ready_archive.
  - split.
    + by apply (bool_decide_unpack (NoDup (map fst (entries world_ready)))).
    + repeat constructor.
  - intros item Hin. cbn [entries world_ready] in Hin.
    repeat (apply elem_of_cons in Hin as [->|Hin];
            [split; [discriminate|];
             split; [left; reflexivity|];
             split; [reflexivity|];
             repeat split; reflexivity|]).
    by apply elem_of_nil in Hin.
  - intros f content (_ & _ & _ & _ & _ & Hlook).
    by destruct (world_ready_no_files f content).
  - reflexivity.
  - reflexivity.
  - reflexivity.
Defined.

(** ** The files of the identities *)

(** X21. Different identities never share a contact file, and the file of
    a non-empty identity is one the loader looks at: its extension is
    [.signed] and it lies in one of the sixteen shard directories of the
    root. *)
Theorem contact_files_distinct (w : World) (a b : RouterID) :
  (get_path_by_pubkey w a = get_path_by_pubkey w b → a = b)
  ∧ (a ≠ [] →
     path_extension (get_path_by_pubkey w a) = RC_FILE_EXT
     ∧ ∃ ch, ch ∈ hex_lut
             ∧ in_directory (path_div (m_Root w) (String ch EmptyString))
                 (get_path_by_pubkey w a)).
Proof.
  split; [apply get_path_by_pubkey_inj|]. intros Hne. split.
  - unfold path_extension, get_path_by_pubkey, path_div.
    rewrite last_last. by apply hex_name_extension.
  - exists (string_front (to_hex a)). split; [by apply string_front_hex|].
    unfold in_directory, get_path_by_pubkey, path_div. split.
    + by destruct (m_Root w ++ [String (string_front (to_hex a)) EmptyString]).
    + by rewrite removelast_last.
Qed.

Lemma contact_files_distinct_witness :
  path_extension (get_path_by_pubkey world_ready (key_of xaa)) = RC_FILE_EXT
  ∧ ∃ ch, ch ∈ hex_lut
          ∧ in_directory (path_div (m_Root world_ready) (String ch EmptyString))
              (get_path_by_pubkey world_ready (key_of xaa)).
Proof.
  apply (proj2 (contact_files_distinct world_ready (key_of xaa) (key_of xaa))).
  discriminate.
Defined.

(** ** The root path of a NodeDB

    [m_Root] is set by the constructor and by no other function, and the
    constructor returns only when [EnsureSkiplist] did. *)

Lemma NodeDB_ctor_root (root : path) (now : Z) (fsys fsys' : Filesystem)
    (w : World) :
  fs_lookup [] fsys = None →
  NodeDB_ctor root now fsys = (Returned w, fsys') →
  m_Root w = root ∧ m_Root w ≠ [].
Proof.
  intros Hbase Hctor. unfold NodeDB_ctor in Hctor. cbn zeta in Hctor.
  rewrite FS_bind_run in Hctor.
  destruct (EnsureSkiplist root fsys) as [[[]|e] fs1] eqn:Hensure;
    cbn [fst snd] in Hctor; [|discriminate Hctor].
  injection Hctor as <- <-. cbn [m_Root]. split; [done|].
  intros ->. destruct (EnsureSkiplist_empty_path fsys Hbase) as (op & p & Hthrow).
  rewrite Hthrow in Hensure. discriminate Hensure.
Qed.

Lemma m_Root_constant `{RouterContactOps} `{RouterContactEncoder} (w : World) :
  (∀ value, m_Root (exec (put_rc value) w) = m_Root w)
  ∧ (∀ value, m_Root (exec (put_rc_if_newer value) w) = m_Root w)
  ∧ (∀ pk, m_Root (exec (remove_router pk) w) = m_Root w)
  ∧ (∀ keep cutoff, m_Root (exec (remove_stale_rcs keep cutoff) w) = m_Root w)
  ∧ (∀ now, m_Root (exec (Tick now) w) = m_Root w)
  ∧ m_Root (exec load_from_disk w) = m_Root w
  ∧ m_Root (exec save_to_disk w) = m_Root w
  ∧ (∀ job, m_Root (exec (run_disk_job job) w) = m_Root w).
Proof.
  refine (conj _ (conj _ (conj _ (conj _ (conj _ (conj _ (conj _ _))))))).
  - intros value. by rewrite put_rc_exec.
  - intros value. rewrite put_rc_if_newer_exec, put_rc_exec.
    by destruct (match table_find _ _ with Some _ => _ | None => _ end).
  - intros pk. rewrite remove_router_exec. cbn zeta.
    by destruct (path_empty (m_Root w)).
  - intros keep cutoff. rewrite remove_stale_rcs_exec. cbn zeta.
    destruct (decide _); [done|]. by destruct (path_empty (m_Root w)).
  - intros now. rewrite Tick_exec. by repeat destruct (decide _).
  - destruct (decide (m_Root w = [])) as [Hroot|Hroot].
    + unfold exec, load_from_disk. rewrite bind_run.
      change (gets m_Root w) with (m_Root w, w). cbn [fst snd].
      apply path_empty_true in Hroot. by rewrite Hroot.
    + by rewrite load_from_disk_exec.
  - rewrite save_to_disk_exec. by destruct (path_empty (m_Root w)).
  - intros [data|files].
    + by rewrite run_write_job.
    + unfold exec. by rewrite run_remove_job.
Qed.
